(** * Tides of Fortune: the simulation core of [src/App.tsx]

    A shallow embedding of the state-changing code of [App.tsx] (the
    handlers [handleUseItem], [handlePlaceItem], [handleCraft],
    [triggerTide], [checkRegrowth], [handleInteraction] and the per-frame
    [update]) together with the properties of the specification that are
    stated about them.

    Modelling conventions.
    - A JavaScript [number] that the code only ever moves by whole amounts
      ([day], [timeOfDay], [totalMinutes], inventory counts, recipe amounts)
      is a [Z].  A [number] that takes fractional values (positions, the
      timers, [energy], [hunger], [Math.random()]) is an exact rational
      [Q]: the constants [0.05], [0.1], [0.03] mean the rationals they
      denote, rounding of binary floating point is not modelled.
    - The refs ([mapRef], [playerRef], [gameStateRef], the timers) and the
      React state cells [activeItem] and [showCrafting] are the fields of
      one [World] record that every operation takes and returns.
    - [Math.random()] is the sequence [random 0], [random 1], ...; the
      world counts how many samples were drawn.
    - [saveGame()], [console.log] and the calls of the two sweeps are
      recorded, in order, in the [trace] of the world.  The UI mirrors
      ([setUiTime], [setUiDay], [setUiStats], [setUiInventory]), the
      camera and the canvas drawing are not part of the model.
    - [totalMinutes] always holds a number: the [undefined] of a save
      written without the field is not modelled, and [!totalMinutes] is
      the test for 0.  A first start holds 480.
    - Reading a property of [undefined] throws a [TypeError]; an operation
      that can do so returns an [Outcome], which keeps the world as it was
      at the throw (the mutations made before it stay). *)

From Stdlib Require Import ZArith QArith Qround Qminmax Qabs Lqa Lia List.
From stdpp Require Import gmap list fin_maps strings pretty.

Local Open Scope Z_scope.

(** ** Constants and types *)

Definition MAP_WIDTH : Z := 50.
Definition MAP_HEIGHT : Z := 50.
Definition REAL_SEC_PER_GAME_MIN : Z := 1.
Definition GAME_MINS_PER_DAY : Z := 24 * 60.
Definition REGROWTH_TIME : Z := 24 * 60.
Definition NOON_MINUTES : Z := 12 * 60.
Definition TILE_SIZE : Z := 64.

Inductive TileType := DeepWater | ShallowWater | Sand | Grass.

Inductive ItemType :=
  | driftwood | crate | metal | axe | wood | coconut | tree | tree_stump
  | wall_wood.

Inductive Direction := Up | Down | Left | Right.

Inductive ItemCategory := tool | structure | resource.

#[global] Instance TileType_eq_dec : EqDecision TileType.
Proof. solve_decision. Defined.

#[global] Instance ItemType_eq_dec : EqDecision ItemType.
Proof. solve_decision. Defined.

#[global] Instance Direction_eq_dec : EqDecision Direction.
Proof. solve_decision. Defined.

Definition ItemType_code (i : ItemType) : nat :=
  match i with
  | driftwood => 0 | crate => 1 | metal => 2 | axe => 3 | wood => 4
  | coconut => 5 | tree => 6 | tree_stump => 7 | wall_wood => 8
  end%nat.

Definition ItemType_decode (n : nat) : ItemType :=
  match n with
  | 0 => driftwood | 1 => crate | 2 => metal | 3 => axe | 4 => wood
  | 5 => coconut | 6 => tree | 7 => tree_stump | _ => wall_wood
  end%nat.

#[global] Instance ItemType_countable : Countable ItemType.
Proof.
  apply (inj_countable' ItemType_code ItemType_decode).
  intros []; reflexivity.
Defined.

Record Tile := mkTile {
  type : TileType;
  item : option ItemType;
  stumpChoppedAt : option Z;
  placedStructure : option ItemType;
  variant : option Q
}.

Record Player := mkPlayer {
  x : Q;
  y : Q;
  targetX : Q;
  targetY : Q;
  isMoving : bool;
  facing : Direction;
  energy : Q;
  hunger : Q;
  isResting : bool
}.

Record GameState := mkGameState {
  day : Z;
  timeOfDay : Z;
  totalMinutes : Z;
  inventory : gmap ItemType Z
}.

Record Recipe := mkRecipe {
  id : string;
  name : string;
  result : ItemType;
  amount : Z;
  ingredients : gmap ItemType Z
}.

Definition craft_axe : Recipe :=
  mkRecipe "craft_axe" "Axe" axe 1 (<[metal := 1]> (<[driftwood := 1]> ∅)).
Definition craft_crate : Recipe :=
  mkRecipe "craft_crate" "Crate" crate 1 (<[driftwood := 6]> ∅).
Definition craft_wall_wood : Recipe :=
  mkRecipe "craft_wall_wood" "Wooden Wall" wall_wood 1 (<[wood := 2]> ∅).

Definition RECIPES : list Recipe := [craft_axe; craft_crate; craft_wall_wood].

Record ItemProps := mkProps {
  edible : bool;
  hungerRestore : option Q;
  placeable : bool;
  category : ItemCategory
}.

Definition ITEM_PROPS (i : ItemType) : option ItemProps :=
  match i with
  | axe => Some (mkProps false None false tool)
  | wall_wood => Some (mkProps false None true structure)
  | coconut => Some (mkProps true (Some 20%Q) false resource)
  | driftwood | wood | metal | crate | tree | tree_stump =>
      Some (mkProps false None false resource)
  end.

(** What the code does that is visible outside the three refs. *)
Inductive Event :=
  | SaveGame
  | TideSweep
  | RegrowthSweep
  | ConsoleLog (msg : string).

#[global] Instance Event_eq_dec : EqDecision Event.
Proof. solve_decision. Defined.

Record World := mkWorld {
  mapRef : list (list Tile);
  playerRef : Player;
  gameStateRef : GameState;
  timeAccumulatorRef : Q;
  saveTimerRef : Q;
  regenTimerRef : Q;
  activeItem : option ItemType;
  showCrafting : bool;
  randomDrawn : nat;
  trace : list Event
}.

Inductive Outcome :=
  | Done (w : World)
  | TypeError (w : World).

Definition outWorld (o : Outcome) : World :=
  match o with Done w => w | TypeError w => w end.

Definition bind (o : Outcome) (k : World -> Outcome) : Outcome :=
  match o with Done w => k w | TypeError w => TypeError w end.

Notation "'try' w <- o ; k" := (bind o (fun w => k))
  (at level 10, w name, o at level 100, k at level 200).

(** ** JavaScript arithmetic on rationals *)

Definition Qltb (a b : Q) : bool := negb (Qle_bool b a).

(** [Math.round]: the nearest integer, halves towards plus infinity. *)
Definition Math_round (q : Q) : Z := Qfloor (q + (1 # 2))%Q.

Definition Math_sign (q : Q) : Q := inject_Z (Z.sgn (Qnum q)).

Definition Qtrunc (q : Q) : Z := Z.quot (Qnum q) (Zpos (Qden q)).

(** [a % b] on numbers: the remainder has the sign of the dividend. *)
Definition jsRem (a b : Q) : Q := (a - b * inject_Z (Qtrunc (a / b)))%Q.

(** ** Field updates *)

Definition setItem (o : option ItemType) (t : Tile) : Tile :=
  mkTile (type t) o (stumpChoppedAt t) (placedStructure t) (variant t).
Definition setStumpChoppedAt (o : option Z) (t : Tile) : Tile :=
  mkTile (type t) (item t) o (placedStructure t) (variant t).
Definition setPlacedStructure (o : option ItemType) (t : Tile) : Tile :=
  mkTile (type t) (item t) (stumpChoppedAt t) o (variant t).

Definition setX (v : Q) (p : Player) : Player :=
  mkPlayer v (y p) (targetX p) (targetY p) (isMoving p) (facing p)
    (energy p) (hunger p) (isResting p).
Definition setY (v : Q) (p : Player) : Player :=
  mkPlayer (x p) v (targetX p) (targetY p) (isMoving p) (facing p)
    (energy p) (hunger p) (isResting p).
Definition setTargetX (v : Q) (p : Player) : Player :=
  mkPlayer (x p) (y p) v (targetY p) (isMoving p) (facing p)
    (energy p) (hunger p) (isResting p).
Definition setTargetY (v : Q) (p : Player) : Player :=
  mkPlayer (x p) (y p) (targetX p) v (isMoving p) (facing p)
    (energy p) (hunger p) (isResting p).
Definition setIsMoving (b : bool) (p : Player) : Player :=
  mkPlayer (x p) (y p) (targetX p) (targetY p) b (facing p)
    (energy p) (hunger p) (isResting p).
Definition setFacing (d : Direction) (p : Player) : Player :=
  mkPlayer (x p) (y p) (targetX p) (targetY p) (isMoving p) d
    (energy p) (hunger p) (isResting p).
Definition setEnergy (v : Q) (p : Player) : Player :=
  mkPlayer (x p) (y p) (targetX p) (targetY p) (isMoving p) (facing p)
    v (hunger p) (isResting p).
Definition setHunger (v : Q) (p : Player) : Player :=
  mkPlayer (x p) (y p) (targetX p) (targetY p) (isMoving p) (facing p)
    (energy p) v (isResting p).
Definition setIsResting (b : bool) (p : Player) : Player :=
  mkPlayer (x p) (y p) (targetX p) (targetY p) (isMoving p) (facing p)
    (energy p) (hunger p) b.

Definition setDay (v : Z) (g : GameState) : GameState :=
  mkGameState v (timeOfDay g) (totalMinutes g) (inventory g).
Definition setTimeOfDay (v : Z) (g : GameState) : GameState :=
  mkGameState (day g) v (totalMinutes g) (inventory g).
Definition setTotalMinutes (v : Z) (g : GameState) : GameState :=
  mkGameState (day g) (timeOfDay g) v (inventory g).
Definition setInventory (v : gmap ItemType Z) (g : GameState) : GameState :=
  mkGameState (day g) (timeOfDay g) (totalMinutes g) v.

Definition withMap (m : list (list Tile)) (w : World) : World :=
  mkWorld m (playerRef w) (gameStateRef w) (timeAccumulatorRef w)
    (saveTimerRef w) (regenTimerRef w) (activeItem w) (showCrafting w)
    (randomDrawn w) (trace w).
Definition withPlayer (f : Player -> Player) (w : World) : World :=
  mkWorld (mapRef w) (f (playerRef w)) (gameStateRef w)
    (timeAccumulatorRef w) (saveTimerRef w) (regenTimerRef w)
    (activeItem w) (showCrafting w) (randomDrawn w) (trace w).
Definition withGameState (f : GameState -> GameState) (w : World) : World :=
  mkWorld (mapRef w) (playerRef w) (f (gameStateRef w))
    (timeAccumulatorRef w) (saveTimerRef w) (regenTimerRef w)
    (activeItem w) (showCrafting w) (randomDrawn w) (trace w).
Definition setTimeAccumulator (v : Q) (w : World) : World :=
  mkWorld (mapRef w) (playerRef w) (gameStateRef w) v (saveTimerRef w)
    (regenTimerRef w) (activeItem w) (showCrafting w) (randomDrawn w)
    (trace w).
Definition setSaveTimer (v : Q) (w : World) : World :=
  mkWorld (mapRef w) (playerRef w) (gameStateRef w) (timeAccumulatorRef w)
    v (regenTimerRef w) (activeItem w) (showCrafting w) (randomDrawn w)
    (trace w).
Definition setRegenTimer (v : Q) (w : World) : World :=
  mkWorld (mapRef w) (playerRef w) (gameStateRef w) (timeAccumulatorRef w)
    (saveTimerRef w) v (activeItem w) (showCrafting w) (randomDrawn w)
    (trace w).
Definition setActiveItem (o : option ItemType) (w : World) : World :=
  mkWorld (mapRef w) (playerRef w) (gameStateRef w) (timeAccumulatorRef w)
    (saveTimerRef w) (regenTimerRef w) o (showCrafting w) (randomDrawn w)
    (trace w).
Definition setShowCrafting (b : bool) (w : World) : World :=
  mkWorld (mapRef w) (playerRef w) (gameStateRef w) (timeAccumulatorRef w)
    (saveTimerRef w) (regenTimerRef w) (activeItem w) b (randomDrawn w)
    (trace w).
Definition setRandomDrawn (n : nat) (w : World) : World :=
  mkWorld (mapRef w) (playerRef w) (gameStateRef w) (timeAccumulatorRef w)
    (saveTimerRef w) (regenTimerRef w) (activeItem w) (showCrafting w)
    n (trace w).
Definition drawRandom (w : World) : World :=
  setRandomDrawn (S (randomDrawn w)) w.
Definition emit (e : Event) (w : World) : World :=
  mkWorld (mapRef w) (playerRef w) (gameStateRef w) (timeAccumulatorRef w)
    (saveTimerRef w) (regenTimerRef w) (activeItem w) (showCrafting w)
    (randomDrawn w) (trace w ++ [e]).

Definition saveGame : World -> World := emit SaveGame.

(** ** The tile grid *)

(** [map[row][col]] for array indices; [None] is [undefined]. *)
Definition getTile (m : list (list Tile)) (row col : nat) : option Tile :=
  match m !! row with
  | Some r => r !! col
  | None => None
  end.

(** Assignment to a field of the tile object stored at [map[row][col]]. *)
Definition updTile (row col : nat) (f : Tile -> Tile) (m : list (list Tile))
  : list (list Tile) :=
  match m !! row with
  | Some r =>
      match r !! col with
      | Some t => <[row := <[col := f t]> r]> m
      | None => m
      end
  | None => m
  end.

(** The array index a number denotes, if it is one. *)
Definition arrayIndex (q : Q) : option nat :=
  if Qeq_bool q (inject_Z (Qfloor q)) && (0 <=? Qfloor q)
  then Some (Z.to_nat (Qfloor q)) else None.

Definition getTileZ (m : list (list Tile)) (row col : Z) : option Tile :=
  if (0 <=? row) && (0 <=? col)
  then getTile m (Z.to_nat row) (Z.to_nat col) else None.

Definition getTileQ (m : list (list Tile)) (row col : Q) : option Tile :=
  match arrayIndex row, arrayIndex col with
  | Some r, Some c => getTile m r c
  | _, _ => None
  end.

(** ** Inventory *)

(** [inventory[item] || 0] *)
Definition count (inv : gmap ItemType Z) (i : ItemType) : Z :=
  default 0 (inv !! i).

Definition isTruthy {A} (o : option A) : bool :=
  match o with Some _ => true | None => false end.

(** The tile in front of the player: rounded position plus the unit offset
    of [facing]. *)
Definition facedTile (p : Player) : Z * Z :=
  let tx := Math_round (x p) in
  let ty := Math_round (y p) in
  match facing p with
  | Up => (tx, ty - 1)
  | Down => (tx, ty + 1)
  | Left => (tx - 1, ty)
  | Right => (tx + 1, ty)
  end.

Definition inBoundsZ (tx ty : Z) : bool :=
  (0 <=? tx) && (tx <? MAP_WIDTH) && (0 <=? ty) && (ty <? MAP_HEIGHT).

(** ** handleUseItem (lines 218-245)

    A click on an inventory entry: a second click on the active item
    deselects it; an edible item is eaten; any other held item becomes the
    active item. *)

Definition handleUseItem (it : ItemType) (w0 : World) : World :=
  let active := activeItem w0 in
  let w :=
    match active with
    | Some a => if decide (a = it) then w0 else setActiveItem None w0
    | None => w0
    end in
  if decide (active = Some it) then setActiveItem None w
  else
    let inv := inventory (gameStateRef w) in
    if 0 <? count inv it then
      match ITEM_PROPS it with
      | Some props =>
          if edible props then
            let restore :=
              match hungerRestore props with
              | Some r => if Qeq_bool r 0 then 10%Q else r
              | None => 10%Q
              end in
            let w := withPlayer
                       (fun p => setHunger (Qmin 100 (hunger p + restore)) p)
                       w in
            let n := count inv it - 1 in
            let inv := <[it := n]> inv in
            let inv := if n =? 0 then delete it inv else inv in
            saveGame (withGameState (setInventory inv) w)
          else setActiveItem (Some it) w
      | None => setActiveItem (Some it) w
      end
    else w.

(** ** handlePlaceItem (lines 247-270) *)

Definition isPlaceable (o : option ItemType) : bool :=
  match o with
  | Some a =>
      match ITEM_PROPS a with
      | Some props => placeable props
      | None => false
      end
  | None => false
  end.

Definition handlePlaceItem (w : World) : Outcome :=
  match activeItem w with
  | None => Done w
  | Some a =>
      if negb (isPlaceable (Some a)) then Done w
      else
        let '(tx, ty) := facedTile (playerRef w) in
        if inBoundsZ tx ty then
          match getTileZ (mapRef w) ty tx with
          | None => TypeError w
          | Some tile =>
              if negb (bool_decide (type tile = DeepWater))
                 && negb (isTruthy (item tile))
                 && negb (isTruthy (placedStructure tile))
              then
                let w := withMap
                           (updTile (Z.to_nat ty) (Z.to_nat tx)
                              (setPlacedStructure (Some a)) (mapRef w)) w in
                let inv := inventory (gameStateRef w) in
                let n := count inv a - 1 in
                let inv := <[a := n]> inv in
                let w :=
                  if n =? 0
                  then setActiveItem None
                         (withGameState (setInventory (delete a inv)) w)
                  else withGameState (setInventory inv) w in
                Done (saveGame w)
              else Done w
          end
        else Done w
  end.

(** ** handleCraft (lines 272-287) *)

(** The first loop: [canCraft] stays [true] iff no entry of the recipe asks
    for more than the inventory holds. *)
Fixpoint canCraftLoop (inv : gmap ItemType Z) (entries : list (ItemType * Z))
  : bool :=
  match entries with
  | [] => true
  | (it, amt) :: rest =>
      if count inv it <? amt then false else canCraftLoop inv rest
  end.

(** The second loop: one assignment per entry. *)
Fixpoint deductLoop (inv : gmap ItemType Z) (entries : list (ItemType * Z))
  : gmap ItemType Z :=
  match entries with
  | [] => inv
  | (it, amt) :: rest => deductLoop (<[it := count inv it - amt]> inv) rest
  end.

Definition handleCraft (recipe : Recipe) (w : World) : World :=
  let inv := inventory (gameStateRef w) in
  let entries := map_to_list (ingredients recipe) in
  if canCraftLoop inv entries then
    let inv := deductLoop inv entries in
    let inv :=
      <[result recipe := count inv (result recipe) + amount recipe]> inv in
    saveGame (withGameState (setInventory inv) w)
  else w.

(** ** Loops over the grid *)

(** [for (let i = lo; i < lo + n; i++) body(i)] *)
Fixpoint forRange (n lo : nat) (body : nat -> World -> Outcome) (w : World)
  : Outcome :=
  match n with
  | O => Done w
  | S n' => try w' <- body lo w; forRange n' (S lo) body w'
  end.

(** The double loop of the two sweeps: rows outside, columns inside, the
    tile object read at the head of the body. *)
Definition forEachTile (visit : nat -> nat -> Tile -> World -> World)
  (w : World) : Outcome :=
  forRange (Z.to_nat MAP_HEIGHT) 0
    (fun row =>
       forRange (Z.to_nat MAP_WIDTH) 0
         (fun col w =>
            match getTile (mapRef w) row col with
            | Some tile => Done (visit row col tile w)
            | None => TypeError w
            end))
    w.

(** ** checkRegrowth (lines 308-323) *)

(** [tile.stumpChoppedAt] used as a condition: [undefined] and [0] are
    falsy. *)
Definition truthyNumber (o : option Z) : bool :=
  match o with
  | Some n => negb (n =? 0)
  | None => false
  end.

Definition regrowTile (currentTotalMinutes : Z) (tile : Tile) : Tile :=
  if bool_decide (item tile = Some tree_stump)
     && truthyNumber (stumpChoppedAt tile)
  then
    if REGROWTH_TIME <=? currentTotalMinutes - default 0 (stumpChoppedAt tile)
    then setStumpChoppedAt None (setItem (Some tree) tile)
    else tile
  else tile.

Definition checkRegrowth (w : World) : Outcome :=
  let w := emit RegrowthSweep w in
  let currentTotalMinutes := totalMinutes (gameStateRef w) in
  forEachTile
    (fun row col tile w =>
       withMap (updTile row col (regrowTile currentTotalMinutes) (mapRef w)) w)
    w.

(** ** handleInteraction (lines 370-416) *)

Definition addItem (it : ItemType) (n : Z) (g : GameState) : GameState :=
  setInventory (<[it := count (inventory g) it + n]> (inventory g)) g.

Definition handleInteraction (w : World) : Outcome :=
  let player := playerRef w in
  if Qle_bool (energy player) 0 || isResting player then Done w
  else
    let '(tx, ty) := facedTile player in
    if inBoundsZ tx ty then
      match getTileZ (mapRef w) ty tx with
      | None => TypeError w
      | Some tile =>
          match item tile with
          | None => Done w
          | Some tree =>
              if decide (activeItem w = Some axe) then
                let chop t :=
                  setStumpChoppedAt (Some (totalMinutes (gameStateRef w)))
                    (setItem (Some tree_stump) t) in
                let w := withMap
                           (updTile (Z.to_nat ty) (Z.to_nat tx) chop
                              (mapRef w)) w in
                let w := withGameState (addItem wood 3) w in
                let w := withGameState (addItem coconut 1) w in
                let w := withPlayer
                           (fun p => setEnergy (Qmax 0 (energy p - 10)) p) w in
                Done (saveGame w)
              else
                Done (emit (ConsoleLog
                              "You must equip an axe to chop this tree.") w)
          | Some tree_stump => Done (saveGame w)
          | Some it =>
              let w := withMap
                         (updTile (Z.to_nat ty) (Z.to_nat tx) (setItem None)
                            (mapRef w)) w in
              let w := withGameState (addItem it 1) w in
              let w := withPlayer
                         (fun p => setEnergy (Qmax 0 (energy p - 5)) p) w in
              Done (saveGame w)
          end
      end
    else Done w.

(** The keydown handler for [KeyE] and [Space] (lines 335-341). *)
Definition handleActionKey (w : World) : Outcome :=
  if isPlaceable (activeItem w) then handlePlaceItem w
  else handleInteraction w.

(** ** triggerTide (lines 289-306) *)

Definition classifyRoll (roll : Q) : option ItemType :=
  if Qltb roll 0.15 then Some driftwood
  else if Qltb 0.88 roll && Qltb roll 0.98 then Some metal
  else if Qltb 0.98 roll then Some crate
  else None.

Definition isPlayerHere (p : Player) (row col : nat) : bool :=
  (Math_round (x p) =? Z.of_nat col) && (Math_round (y p) =? Z.of_nat row).

(** The tiles a tide sweep may write to. *)
Definition tideEligible (p : Player) (row col : nat) (tile : Tile) : bool :=
  bool_decide (type tile = Sand)
  && (negb (isTruthy (item tile))
      && negb (isPlayerHere p row col)
      && negb (isTruthy (placedStructure tile))).

Section Simulation.

(** The values [Math.random()] returns, in the order of the calls. *)
Variable random : nat -> Q.

Definition tideVisit (row col : nat) (tile : Tile) (w : World) : World :=
  if tideEligible (playerRef w) row col tile then
    let roll := random (randomDrawn w) in
    let w := drawRandom w in
    match classifyRoll roll with
    | Some it => withMap (updTile row col (setItem (Some it)) (mapRef w)) w
    | None => w
    end
  else w.

Definition triggerTide (w : World) : Outcome :=
  forEachTile tideVisit (emit TideSweep w).

(** ** update (lines 442-550)

    The body of [update] is cut into its blocks, in the order of the
    source: the save timer ([saveTick], lines 450-451), the rest key
    ([restTick], 453-454), the regeneration timer ([regenTick], 456-466),
    the clock ([timeTick], 468-488, with its two events [minuteBoundary],
    line 479, and [dayRollover], 480-486) and the movement ([moveTick],
    490-533).  The camera (535-549) is a view of the state and is left
    out. *)

Definition Keys := string -> bool.

Definition saveTick (deltaTime : Q) (w : World) : World :=
  let w := setSaveTimer (saveTimerRef w + deltaTime) w in
  if Qltb 5000 (saveTimerRef w) then setSaveTimer 0 (saveGame w) else w.

Definition restTick (keys : Keys) (w : World) : World :=
  withPlayer (setIsResting (keys "r" || keys "R")) w.

Definition regenTick (deltaTime : Q) (w : World) : World :=
  let w := setRegenTimer (regenTimerRef w + deltaTime) w in
  if Qle_bool 100 (regenTimerRef w) then
    let w := setRegenTimer 0 w in
    if isResting (playerRef w) then
      let w := withPlayer
                 (fun p => setEnergy (Qmin 100 (energy p + 1.0)) p) w in
      if Qltb (energy (playerRef w)) 100
      then withPlayer (fun p => setHunger (Qmax 0 (hunger p - 0.05)) p) w
      else w
    else if negb (isMoving (playerRef w)) && Qltb 50 (hunger (playerRef w))
    then withPlayer (fun p => setEnergy (Qmin 100 (energy p + 0.05)) p) w
    else w
  else w.

Definition msPerGameMin : Q := inject_Z (REAL_SEC_PER_GAME_MIN * 1000).

Definition minuteBoundary (w : World) : Outcome :=
  if Z.rem (timeOfDay (gameStateRef w)) 20 =? 0 then
    checkRegrowth
      (withPlayer (fun p => setHunger (Qmax 0 (hunger p - 1)) p) w)
  else Done w.

Definition dayRollover (w : World) : Outcome :=
  if GAME_MINS_PER_DAY <=? timeOfDay (gameStateRef w) then
    let w := withGameState
               (fun g => setTimeOfDay (timeOfDay g - GAME_MINS_PER_DAY) g) w in
    let w := withGameState (fun g => setDay (day g + 1) g) w in
    try w <- triggerTide w; Done (saveGame w)
  else Done w.

(** The body of the clock up to the two events: whole minutes leave the
    accumulator and enter [timeOfDay] and [totalMinutes]. *)
Definition advanceClock (w : World) : World :=
  let minutesToAdd := Qfloor (timeAccumulatorRef w / msPerGameMin) in
  let w := withGameState
             (fun g => setTimeOfDay (timeOfDay g + minutesToAdd) g) w in
  let w :=
    if totalMinutes (gameStateRef w) =? 0
    then withGameState
           (fun g => setTotalMinutes
                       (day g * GAME_MINS_PER_DAY + timeOfDay g) g) w
    else w in
  let w := withGameState
             (fun g => setTotalMinutes (totalMinutes g + minutesToAdd) g) w in
  setTimeAccumulator (jsRem (timeAccumulatorRef w) msPerGameMin) w.

Definition timeTick (deltaTime : Q) (w : World) : Outcome :=
  let timeDelta :=
    if isResting (playerRef w) then (deltaTime * 20)%Q else deltaTime in
  let w := setTimeAccumulator (timeAccumulatorRef w + timeDelta) w in
  if Qle_bool msPerGameMin (timeAccumulatorRef w) then
    try w <- minuteBoundary (advanceClock w);
    dayRollover w
  else Done w.

(** The movement key that wins: up, then down, then left, then right. *)
Definition moveIntent (keys : Keys) : option Direction :=
  if keys "w" || keys "ArrowUp" then Some Up
  else if keys "s" || keys "ArrowDown" then Some Down
  else if keys "a" || keys "ArrowLeft" then Some Left
  else if keys "d" || keys "ArrowRight" then Some Right
  else None.

Definition nextPos (d : Direction) (p : Player) : Q * Q :=
  match d with
  | Up => (x p, y p - 1)
  | Down => (x p, y p + 1)
  | Left => (x p - 1, y p)
  | Right => (x p + 1, y p)
  end%Q.

Definition inBoundsQ (nx ny : Q) : bool :=
  Qle_bool 0 nx && Qltb nx (inject_Z MAP_WIDTH)
  && Qle_bool 0 ny && Qltb ny (inject_Z MAP_HEIGHT).

Definition isSolid (t : Tile) : bool :=
  bool_decide (type t = DeepWater) || isTruthy (item t)
  || isTruthy (placedStructure t).

Definition stepAxis (pos target speed : Q) : Q :=
  let d := (target - pos)%Q in
  if Qltb speed (Qabs d) then (pos + Math_sign d * speed)%Q else target.

Definition moveTick (keys : Keys) (w : World) : Outcome :=
  let player := playerRef w in
  let safeX := Z.max 0 (Z.min (Math_round (x player)) (MAP_WIDTH - 1)) in
  let safeY := Z.max 0 (Z.min (Math_round (y player)) (MAP_HEIGHT - 1)) in
  match getTileZ (mapRef w) safeY safeX with
  | None => TypeError w
  | Some currentTile =>
      let BASE_SPEED :=
        if Qle_bool (energy player) 0 then (0.03 * 0.5)%Q else 0.03%Q in
      let currentSpeed :=
        if bool_decide (type currentTile = ShallowWater)
        then (BASE_SPEED * 0.5)%Q else BASE_SPEED in
      if isMoving player then
        let w := withPlayer
                   (fun p => setX (stepAxis (x p) (targetX p) currentSpeed) p)
                   w in
        let w := withPlayer
                   (fun p => setY (stepAxis (y p) (targetY p) currentSpeed) p)
                   w in
        let p := playerRef w in
        if Qeq_bool (x p) (targetX p) && Qeq_bool (y p) (targetY p) then
          Done (withPlayer
                  (fun p => setEnergy (Qmax 0 (energy p - 0.1))
                              (setIsMoving false p)) w)
        else Done w
      else if negb (isResting player) then
        match moveIntent keys with
        | Some d =>
            let '(nextX, nextY) := nextPos d player in
            let w := withPlayer (setFacing d) w in
            if inBoundsQ nextX nextY then
              match getTileQ (mapRef w) nextY nextX with
              | None => TypeError w
              | Some targetTile =>
                  if isSolid targetTile then Done w
                  else
                    Done (withPlayer
                            (fun p => setIsMoving true
                                        (setTargetY nextY
                                           (setTargetX nextX p))) w)
              end
            else Done w
        | None => Done w
        end
      else Done w
  end.

Definition update (deltaTime : Q) (keys : Keys) (w : World) : Outcome :=
  if showCrafting w then Done w
  else
    let w := saveTick deltaTime w in
    let w := restTick keys w in
    let w := regenTick deltaTime w in
    try w <- timeTick deltaTime w;
    moveTick keys w.

(** ** The intents the core receives *)

Inductive Action :=
  | Tick (deltaTime : Q) (keys : Keys)
  | PressAction
  | ToggleCraftMenu
  | Cancel
  | UseItem (it : ItemType)
  | CraftRecipe (recipe : Recipe).

Definition step (a : Action) (w : World) : Outcome :=
  match a with
  | Tick deltaTime keys => update deltaTime keys w
  | PressAction => handleActionKey w
  | ToggleCraftMenu =>
      Done (setShowCrafting (negb (showCrafting w)) (setActiveItem None w))
  | Cancel => Done (setActiveItem None (setShowCrafting false w))
  | UseItem it => Done (handleUseItem it w)
  | CraftRecipe recipe => Done (handleCraft recipe w)
  end.

(** A session: the actions in order; an uncaught [TypeError] ends the
    handler it occurs in, the next event is handled from the world as it
    was left. *)
Fixpoint run (actions : list Action) (w : World) : World :=
  match actions with
  | [] => w
  | a :: rest => run rest (outWorld (step a w))
  end.

End Simulation.

(** ** generateMap (lines 102-132) and the initial state (169-181) *)

Section Generation.

Variable random : nat -> Q.

Definition generateTile (col row : Z) (drawn : nat) : Tile * nat :=
  let centerX := MAP_WIDTH / 2 in
  let centerY := MAP_HEIGHT / 2 in
  let grassRadius := 10 in
  let sandRadius := 15 in
  let shallowRadius := 22 in
  let dx := col - centerX in
  let dy := row - centerY in
  (* [Math.sqrt(d2) < r] for an integer [r >= 0] is [d2 < r * r] *)
  let distance2 := dx * dx + dy * dy in
  if distance2 <? grassRadius * grassRadius then
    let it := if Qltb (random drawn) 0.20 then Some tree else None in
    (mkTile Grass it None None (Some (random (S drawn))), S (S drawn))
  else if distance2 <? sandRadius * sandRadius then
    (mkTile Sand None None None (Some (random drawn)), S drawn)
  else if distance2 <? shallowRadius * shallowRadius then
    (mkTile ShallowWater None None None (Some (random drawn)), S drawn)
  else (mkTile DeepWater None None None (Some (random drawn)), S drawn).

Fixpoint generateRow (n : nat) (col row : Z) (drawn : nat)
  : list Tile * nat :=
  match n with
  | O => ([], drawn)
  | S n' =>
      let '(t, drawn) := generateTile col row drawn in
      let '(rest, drawn) := generateRow n' (col + 1) row drawn in
      (t :: rest, drawn)
  end.

Fixpoint generateRows (n : nat) (row : Z) (drawn : nat)
  : list (list Tile) * nat :=
  match n with
  | O => ([], drawn)
  | S n' =>
      let '(r, drawn) := generateRow (Z.to_nat MAP_WIDTH) 0 row drawn in
      let '(rest, drawn) := generateRows n' (row + 1) drawn in
      (r :: rest, drawn)
  end.

Definition generateMap (drawn : nat) : list (list Tile) * nat :=
  generateRows (Z.to_nat MAP_HEIGHT) 0 drawn.

Definition initialPlayer : Player :=
  let initialX := inject_Z (MAP_WIDTH / 2) in
  let initialY := inject_Z (MAP_HEIGHT / 2) in
  mkPlayer initialX initialY initialX initialY false Down 100 100 false.

Definition initialGameState : GameState :=
  mkGameState 1 (8 * 60) (8 * 60) ∅.

(** The world of a first start, nothing in storage, as the refs are
    initialised (before the mount effect runs its first [triggerTide]). *)
Definition freshWorld : World :=
  let '(m, drawn) := generateMap 0 in
  mkWorld m initialPlayer initialGameState 0 0 0 None false drawn [].

End Generation.

(** ** The mount effect (lines 325-329)

    Once the component is mounted the first tide comes in, when the day is
    1, the time 08:00 and no map is in storage ([stored] tells whether
    one is). *)
Definition mountEffect (random : nat -> Q) (stored : bool) (w : World)
  : Outcome :=
  if (day (gameStateRef w) =? 1) && (timeOfDay (gameStateRef w) =? 8 * 60)
     && negb stored
  then triggerTide random w
  else Done w.

(** The world of a first start, mounted: nothing was in storage. *)
Definition firstStart (random : nat -> Q) : World :=
  outWorld (mountEffect random false (freshWorld random)).

(** ** The view: clock text, camera, darkness, ghost preview *)

(** [formatTime] (lines 134-141), on the whole minutes the clock holds. *)
Definition formatTime (totalMinutes : Z) : string :=
  let h := totalMinutes / 60 in
  let m := Z.rem totalMinutes 60 in
  let ampm := if 12 <=? h then "PM" else "AM" in
  let displayH := if Z.rem h 12 =? 0 then 12 else Z.rem h 12 in
  let displayM := if m <? 10 then "0" +:+ pretty m else pretty m in
  pretty displayH +:+ ":" +:+ displayM +:+ " " +:+ ampm.

(** One axis of the camera at the end of [update] (lines 535-549): the
    viewport is centred on the player, clamped to the map, and centred on
    the map when the map is smaller than the canvas. *)
Definition cameraAxis (playerPixel canvasSize mapPixelSize : Q) : Q :=
  let cam := (playerPixel - canvasSize / 2)%Q in
  let cam := Qmax 0 (Qmin cam (mapPixelSize - canvasSize)) in
  if Qltb mapPixelSize canvasSize
  then ((mapPixelSize - canvasSize) / 2)%Q else cam.

(** [cameraRef.current] after [update]: [(camX, camY)]. *)
Definition updateCamera (canvasWidth canvasHeight : Q) (p : Player) : Q * Q :=
  let playerPixelX := (x p * inject_Z TILE_SIZE)%Q in
  let playerPixelY := (y p * inject_Z TILE_SIZE)%Q in
  let mapPixelWidth := inject_Z (MAP_WIDTH * TILE_SIZE) in
  let mapPixelHeight := inject_Z (MAP_HEIGHT * TILE_SIZE) in
  (cameraAxis playerPixelX canvasWidth mapPixelWidth,
   cameraAxis playerPixelY canvasHeight mapPixelHeight).

(** The opacity of the night overlay in [render] (lines 793-799). *)
Definition darknessAlpha (timeOfDay : Z) : Q :=
  let distFromNoon := Qabs (inject_Z (timeOfDay - NOON_MINUTES)) in
  let maxDarkness := 0.8%Q in
  (distFromNoon / 720 * maxDarkness)%Q.

(** The ghost preview of [render] (lines 733-759): nothing is drawn
    without a placeable active item or for a target off the grid;
    otherwise the faced tile is framed, lime when [valid], red when not. *)
Inductive Ghost :=
  | NoGhost
  | GhostAt (targetX targetY : Z) (valid : bool)
  | GhostTypeError.

Definition ghostPreview (w : World) : Ghost :=
  if isPlaceable (activeItem w) then
    let '(tx, ty) := facedTile (playerRef w) in
    if inBoundsZ tx ty then
      match getTileZ (mapRef w) ty tx with
      | None => GhostTypeError
      | Some tile =>
          GhostAt tx ty
            (negb (bool_decide (type tile = DeepWater))
             && negb (isTruthy (item tile))
             && negb (isTruthy (placedStructure tile)))
      end
    else NoGhost
  else NoGhost.

(** ** The hotbar keys (lines 343-357) and the lists of the HUD (811-818)

    [Object.keys] and [Object.entries] list an object in the order of its
    keys; that order is not part of the inventory as modelled here, so
    the listing is an argument. *)

Definition isToolOrStructure (i : ItemType) : bool :=
  match ITEM_PROPS i with
  | Some props =>
      match category props with
      | tool | structure => true
      | resource => false
      end
  | None => false
  end.

Definition isResource (i : ItemType) : bool :=
  match ITEM_PROPS i with
  | Some props =>
      match category props with
      | resource => true
      | tool | structure => false
      end
  | None => false
  end.

(** [entries] is [Object.entries(uiInventory)]. *)
Definition toolsAndStructures (entries : list (ItemType * Z))
  : list (ItemType * Z) :=
  List.filter (fun e => isToolOrStructure e.1) entries.

Definition resources (entries : list (ItemType * Z)) : list (ItemType * Z) :=
  List.filter (fun e => isResource e.1) entries.

(** The keydown handler for the key of the digit [digit]; [items] is
    [Object.keys(gameStateRef.current.inventory)]. *)
Definition handleDigitKey (digit : nat) (items : list ItemType) (w : World)
  : World :=
  if ((1 <=? digit) && (digit <=? 9))%nat then
    let index := (digit - 1)%nat in
    let tools := List.filter isToolOrStructure items in
    match tools !! index with
    | Some it => handleUseItem it w
    | None => w
    end
  else w.

(** ** Sample worlds *)

(** A sequence of samples that grows some trees and washes up some loot. *)
Definition sampleRandom (n : nat) : Q :=
  match (n mod 4)%nat with
  | 0%nat => 0.1%Q
  | 1%nat => 0.5%Q
  | 2%nat => 0.93%Q
  | _ => 0.99%Q
  end.

Definition sampleWorld : World := freshWorld sampleRandom.

Definition noKeys : Keys := fun _ => false.
Definition holding (key : string) : Keys := fun k => bool_decide (k = key).

(** ** Predicates and sample states used in the statements *)

(** The grid has [MAP_HEIGHT] rows of [MAP_WIDTH] tiles, as [generateMap]
    builds it. *)
Definition wfMap (m : list (list Tile)) : Prop :=
  length m = Z.to_nat MAP_HEIGHT
  /\ Forall (fun r => length r = Z.to_nat MAP_WIDTH) m.

(** The tiles the double loop has passed when it stands at row [r],
    column [c]. *)
Definition visited (r c row col : nat) : bool :=
  (row <? r)%nat || ((row =? r)%nat && (col <? c)%nat).

(** The state of a sweep that rewrites each visited tile by [f], when the
    loop stands at row [r], column [c]. *)
Definition sweptUpTo (f : Tile -> Tile) (w : World) (r c : nat) (v : World)
  : Prop :=
  exists m, v = withMap m w /\ wfMap m /\
    forall row col,
      getTile m row col =
      if visited r c row col then f <$> getTile (mapRef w) row col
      else getTile (mapRef w) row col.

(** The inventory [handleCraft] writes when the check passes. *)
Definition craftedInventory (recipe : Recipe) (inv : gmap ItemType Z)
  : gmap ItemType Z :=
  let inv' := deductLoop inv (map_to_list (ingredients recipe)) in
  <[result recipe := count inv' (result recipe) + amount recipe]> inv'.

(** Every entry of the inventory holds a positive count. *)
Definition positiveCounts (inv : gmap ItemType Z) : Prop :=
  forall it n, inv !! it = Some n -> 0 < n.

(** Energy and hunger are in [0,100]. *)
Definition statsInRange (w : World) : Prop :=
  (0 <= energy (playerRef w) <= 100)%Q /\ (0 <= hunger (playerRef w) <= 100)%Q.

(** Solid tiles stay solid. *)
Definition solidKept (m m' : list (list Tile)) : Prop :=
  forall row col t,
    getTile m row col = Some t -> isSolid t = true ->
    exists t', getTile m' row col = Some t' /\ isSolid t' = true.

(** A number that is an integer. *)
Definition isWhole (q : Q) : Prop := q == inject_Z (Qfloor q).

(** The player stands on a tile whenever no move is in progress. *)
Definition standsOnGrid (p : Player) : Prop :=
  isMoving p = false -> isWhole (x p) /\ isWhole (y p).

(** How often the trace records a call of [triggerTide], of
    [checkRegrowth]. *)
Definition tideSweeps (w : World) : nat :=
  count_occ Event_eq_dec (trace w) TideSweep.

Definition regrowthSweeps (w : World) : nat :=
  count_occ Event_eq_dec (trace w) RegrowthSweep.

(** The elapsed time a tick feeds to the clock, and the whole minutes the
    clock then takes out of the accumulator. *)
Definition timeDelta (deltaTime : Q) (keys : Keys) : Q :=
  if keys "r" || keys "R" then (deltaTime * 20)%Q else deltaTime.

Definition minutesToAdd (deltaTime : Q) (keys : Keys) (w : World) : Z :=
  Qfloor ((timeAccumulatorRef w + timeDelta deltaTime keys) / msPerGameMin).

(** The world as the clock finds it: after the save timer, the rest key
    and the regeneration timer. *)
Definition beforeClock (deltaTime : Q) (keys : Keys) (w : World) : World :=
  regenTick deltaTime (restTick keys (saveTick deltaTime w)).

(** [wfMap] as a check that computes. *)
Definition wfMapb (m : list (list Tile)) : bool :=
  (length m =? Z.to_nat MAP_HEIGHT)%nat
  && forallb (fun r => (length r =? Z.to_nat MAP_WIDTH)%nat) m.

(** 23:50 on the first day. *)
Definition lateEvening : World :=
  withGameState (fun g => setTotalMinutes 1430 (setTimeOfDay 1430 g))
    sampleWorld.

(** A tree right of the player. *)
Definition treeOnTheRight : World :=
  withMap (updTile 25 26 (setItem (Some tree)) (mapRef sampleWorld))
    sampleWorld.

(** One minute before 08:20 on the first day. *)
Definition beforeBoundary : World :=
  withGameState (fun g => setTotalMinutes 499 (setTimeOfDay 499 g))
    sampleWorld.

(** What a tide sweep started in world [w] may have made of the tile that
    was [t] at [row], [col], by the time the world is [v]. *)
Definition tideWrote (random : nat -> Q) (w v : World) (row col : nat)
  (t t' : Tile) : Prop :=
  t' = t
  \/ (type t = Sand /\ item t = None /\ placedStructure t = None
      /\ isPlayerHere (playerRef w) row col = false
      /\ exists n it,
          (randomDrawn w <= n < randomDrawn v)%nat
          /\ classifyRoll (random n) = Some it
          /\ t' = setItem (Some it) t).

(** The invariant of the tide sweep: the player is where it was, samples
    are only ever drawn, and every tile is accounted for by [tideWrote]. *)
Definition tideSoFar (random : nat -> Q) (w v : World) : Prop :=
  playerRef v = playerRef w
  /\ (randomDrawn w <= randomDrawn v)%nat
  /\ forall row col,
      match getTile (mapRef w) row col with
      | Some t =>
          exists t', getTile (mapRef v) row col = Some t'
                     /\ tideWrote random w v row col t t'
      | None => getTile (mapRef v) row col = None
      end.

(** Whether the sweep started in [w] draws a sample at [row], [col]: the
    tile is there and eligible. *)
Definition eligibleIn (w : World) (row col : nat) : bool :=
  match getTile (mapRef w) row col with
  | Some t => tideEligible (playerRef w) row col t
  | None => false
  end.

(** The eligible tiles of row [row] left of column [c], and those of the
    rows above row [r]. *)
Fixpoint eligibleInRow (w : World) (row c : nat) : nat :=
  match c with
  | O => O
  | S c' =>
      (eligibleInRow w row c' + if eligibleIn w row c' then 1 else 0)%nat
  end.

Fixpoint eligibleInRows (w : World) (r : nat) : nat :=
  match r with
  | O => O
  | S r' =>
      (eligibleInRows w r' + eligibleInRow w r' (Z.to_nat MAP_WIDTH))%nat
  end.

(** The samples a sweep started in [w] has drawn when its loop reaches
    row [row], column [col]: one for each eligible tile it has passed. *)
Definition samplesBefore (w : World) (row col : nat) : nat :=
  (eligibleInRows w row + eligibleInRow w row col)%nat.

(** What a sweep started in [w] makes of the tile [t] at [row], [col]: an
    eligible tile is classified by the sample drawn at its visit. *)
Definition tideTile (random : nat -> Q) (w : World) (row col : nat)
  (t : Tile) : Tile :=
  if tideEligible (playerRef w) row col t then
    match classifyRoll (random (randomDrawn w + samplesBefore w row col)%nat)
    with
    | Some it => setItem (Some it) t
    | None => t
    end
  else t.

(** The state of the sweep started in [w] when its loop stands at row
    [r], column [c]. *)
Definition tideUpTo (random : nat -> Q) (w : World) (r c : nat) (v : World)
  : Prop :=
  exists m n,
    v = setRandomDrawn n (withMap m (emit TideSweep w))
    /\ n = (randomDrawn w + samplesBefore w r c)%nat
    /\ wfMap m
    /\ forall row col,
        getTile m row col =
        if visited r c row col
        then tideTile random w row col <$> getTile (mapRef w) row col
        else getTile (mapRef w) row col.

(** Every stump of the grid holds the time of its chop, a time of the
    game clock between 08:00 of the first day and [hi]. *)
Definition stampedMap (hi : Z) (m : list (list Tile)) : Prop :=
  forall row col t,
    getTile m row col = Some t -> item t = Some tree_stump ->
    exists T, stumpChoppedAt t = Some T /\ 8 * 60 <= T <= hi.

(** A session from a first start on the sample island: ten tiles to the
    beach, the metal and the driftwood picked up, the axe crafted and
    equipped, two tiles back, and the tree above chopped. *)
Definition firstChop : list Action :=
  repeat (Tick 16 (holding "d")) 350
  ++ [PressAction]
  ++ repeat (Tick 16 (holding "d")) 35
  ++ [Tick 16 (holding "w"); PressAction;
      ToggleCraftMenu; CraftRecipe craft_axe; ToggleCraftMenu; UseItem axe]
  ++ repeat (Tick 16 (holding "a")) 70
  ++ [Tick 16 (holding "w"); PressAction].

(** The pose of an idle player is whole: the targets are tiles, and a
    player who is not moving is on its target. *)
Definition poseOK (p : Player) : Prop :=
  isWhole (targetX p) /\ isWhole (targetY p)
  /\ (isMoving p = false -> x p == targetX p /\ y p == targetY p).

(** The states a session can reach: a full grid and a whole pose. *)
Definition wfWorld (w : World) : Prop :=
  wfMap (mapRef w) /\ poseOK (playerRef w).

(** The ground of a tile stays: its type and its variant do, and so does
    a structure once placed. *)
Definition groundKept (t t' : Tile) : Prop :=
  type t' = type t /\ variant t' = variant t
  /\ (forall s, placedStructure t = Some s -> placedStructure t' = Some s).

Definition mapKept (m m' : list (list Tile)) : Prop :=
  forall row col,
    match getTile m row col with
    | Some t => exists t', getTile m' row col = Some t' /\ groundKept t t'
    | None => getTile m' row col = None
    end.

(** No count is negative, and a placeable active item is in stock. *)
Definition stocked (w : World) : Prop :=
  (forall it n, inventory (gameStateRef w) !! it = Some n -> 0 <= n)
  /\ (forall a, activeItem w = Some a -> isPlaceable (Some a) = true ->
                0 < count (inventory (gameStateRef w)) a).

(** Every craft of the session uses one of the recipes of the menu. *)
Definition menuRecipes (actions : list Action) : Prop :=
  Forall (fun a => match a with
                   | CraftRecipe recipe => recipe ∈ RECIPES
                   | _ => True
                   end) actions.

Definition notCraft (a : Action) : Prop :=
  match a with CraftRecipe _ => False | _ => True end.

Definition isTick (a : Action) : Prop :=
  match a with Tick _ _ => True | _ => False end.

(** The clock holds sensible values. *)
Definition clockOK (g : GameState) : Prop :=
  1 <= day g /\ 0 <= timeOfDay g /\ 0 <= totalMinutes g.

(** The target of the player is a tile of the grid that is not deep
    water. *)
Definition targetOnLand (w : World) : Prop :=
  exists t,
    getTileQ (mapRef w) (targetY (playerRef w)) (targetX (playerRef w))
    = Some t
    /\ type t <> DeepWater.

(** The way left to the target, both axes added. *)
Definition remaining (p : Player) : Q :=
  (Qabs (targetX p - x p) + Qabs (targetY p - y p))%Q.

(** Where an item may lie: trees and stumps on grass, what the tide
    brings on sand, nothing else anywhere. *)
Definition itemBelongs (t : Tile) : Prop :=
  match item t with
  | None => True
  | Some tree | Some tree_stump => type t = Grass
  | Some driftwood | Some metal | Some crate => type t = Sand
  | Some _ => False
  end.

(** A tile is consistent: its item lies where it may, a stump timestamp
    stands under a stump only, and a structure stands on a tile without
    item that is not deep water and is a placeable item. *)
Definition tileOK (t : Tile) : Prop :=
  itemBelongs t
  /\ (stumpChoppedAt t <> None -> item t = Some tree_stump)
  /\ (forall s, placedStructure t = Some s ->
                item t = None /\ type t <> DeepWater
                /\ isPlaceable (Some s) = true).

Definition tilesOK (m : list (list Tile)) : Prop :=
  forall row col t, getTile m row col = Some t -> tileOK t.

(** The player is at most one tile from its target, along one axis. *)
Definition nearTarget (p : Player) : Prop :=
  (remaining p <= 1)%Q /\ (x p == targetX p \/ y p == targetY p).

(** No frame of the session is longer than 72 seconds (and none runs
    backwards): even at the resting rate a tick then adds at most a day. *)
Definition frameBounded (a : Action) : Prop :=
  match a with
  | Tick deltaTime _ => (0 <= deltaTime <= 72000)%Q
  | _ => True
  end.

(** The clock is within the day and the accumulator within the minute. *)
Definition withinDay (w : World) : Prop :=
  0 <= timeOfDay (gameStateRef w) < GAME_MINS_PER_DAY
  /\ (0 <= timeAccumulatorRef w < msPerGameMin)%Q.

(** [sampleWorld], computed once: the same world, written out. *)
Definition sampleIsland : World := Eval vm_compute in sampleWorld.

(** On the sample island at 08:00: the axe equipped, a tree below the
    player. *)
Definition axeAndTree : World :=
  Eval vm_compute in
    setActiveItem (Some axe)
      (withGameState (setInventory {[axe := 1]})
         (withMap (updTile 26 25 (setItem (Some tree)) (mapRef sampleWorld))
            sampleWorld)).

(** On the sample island, one tile into a move to the right. *)
Definition walkingRight : World :=
  Eval vm_compute in
    withPlayer (fun p => setIsMoving true (setTargetX 26 p)) sampleWorld.

(** Reading a clock text back: the digits before the colon, the digits
    after it, and the letter of the half of the day (code 80 is the
    letter P). *)
Fixpoint readDigits (acc : Z) (s : string) : Z * string :=
  match s with
  | String c rest =>
      let n := Z.of_N (Ascii.N_of_ascii c) in
      if (48 <=? n) && (n <=? 57)
      then readDigits (acc * 10 + (n - 48)) rest
      else (acc, s)
  | EmptyString => (acc, s)
  end.

Definition readTime (s : string) : Z :=
  let '(h, afterH) := readDigits 0 s in
  match afterH with
  | String _ minutes =>
      let '(m, afterM) := readDigits 0 minutes in
      match afterM with
      | String _ (String half _) =>
          let pm := if (Ascii.N_of_ascii half =? 80)%N then 12 else 0 in
          (Z.rem h 12 + pm) * 60 + m
      | _ => 0
      end
  | EmptyString => 0
  end.

(** * Properties *)

(** Split a conjunction into its parts, without unfolding definitions. *)
Ltac splits := repeat match goal with |- _ /\ _ => split end.

(** ** Comparisons *)

Lemma Qltb_lt (a b : Q) : Qltb a b = true <-> (a < b)%Q.
Proof.
  unfold Qltb. rewrite negb_true_iff.
  split.
  - intros H. apply Qnot_le_lt. intros Hle.
    apply Qle_bool_iff in Hle. congruence.
  - intros H. destruct (Qle_bool b a) eqn:E; [|reflexivity].
    apply Qle_bool_iff in E. apply Qlt_not_le in H. contradiction.
Qed.

Lemma Qltb_ge (a b : Q) : Qltb a b = false <-> (b <= a)%Q.
Proof.
  unfold Qltb. rewrite negb_false_iff. apply Qle_bool_iff.
Qed.

Lemma Qle_bool_gt (a b : Q) : Qle_bool a b = false <-> (b < a)%Q.
Proof.
  rewrite <- Qltb_lt. unfold Qltb.
  destruct (Qle_bool a b); simpl; split; congruence.
Qed.

Lemma Qmin_cap (v : Q) : (0 <= v -> 0 <= Qmin 100 v <= 100)%Q.
Proof.
  intros Hv. split.
  - apply Q.min_glb; [lra | exact Hv].
  - apply Q.le_min_l.
Qed.

Lemma Qmax_floor (v : Q) : (v <= 100 -> 0 <= Qmax 0 v <= 100)%Q.
Proof.
  intros Hv. split.
  - apply Q.le_max_l.
  - apply Q.max_lub; [lra | exact Hv].
Qed.

(** ** The grid *)

Lemma getTile_updTile (m : list (list Tile)) r c f row col :
  getTile (updTile r c f m) row col =
  if decide (row = r /\ col = c) then f <$> getTile m row col
  else getTile m row col.
Proof.
  unfold updTile, getTile.
  destruct (m !! r) as [rw|] eqn:Hr.
  - destruct (rw !! c) as [t|] eqn:Hc.
    + destruct (decide (row = r)) as [->|Hne].
      * rewrite list_lookup_insert_eq by (eapply lookup_lt_Some; eauto).
        rewrite Hr.
        destruct (decide (col = c)) as [->|Hnc].
        -- rewrite list_lookup_insert_eq by (eapply lookup_lt_Some; eauto).
           rewrite Hc. rewrite decide_True by done. reflexivity.
        -- rewrite list_lookup_insert_ne by done.
           rewrite decide_False by (intros [_ ?]; done). reflexivity.
      * rewrite list_lookup_insert_ne by done.
        rewrite decide_False by (intros [? _]; done). reflexivity.
    + case_decide as Hd; [|reflexivity].
      destruct Hd as [-> ->]. rewrite Hr, Hc. reflexivity.
  - case_decide as Hd; [|reflexivity].
    destruct Hd as [-> ->]. rewrite Hr. reflexivity.
Qed.

Lemma updTile_wf (m : list (list Tile)) r c f :
  wfMap m -> wfMap (updTile r c f m).
Proof.
  intros [Hlen Hall]. unfold updTile.
  destruct (m !! r) as [rw|] eqn:Hr; [|split; assumption].
  destruct (rw !! c) as [t|] eqn:Hc; [|split; assumption].
  split.
  - rewrite length_insert. exact Hlen.
  - apply Forall_insert; [exact Hall|].
    rewrite length_insert.
    eapply Forall_lookup_1 in Hall; eauto.
Qed.

Lemma wfMap_getTile (m : list (list Tile)) row col :
  wfMap m ->
  (row < Z.to_nat MAP_HEIGHT)%nat -> (col < Z.to_nat MAP_WIDTH)%nat ->
  is_Some (getTile m row col).
Proof.
  intros [Hlen Hall] Hr Hc. unfold getTile.
  destruct (lookup_lt_is_Some_2 m row) as [rw Hrw]; [lia|].
  rewrite Hrw.
  eapply Forall_lookup_1 in Hall; eauto. simpl in Hall.
  apply lookup_lt_is_Some_2. lia.
Qed.

Lemma getTile_Some_bounds (m : list (list Tile)) row col t :
  wfMap m -> getTile m row col = Some t ->
  (row < Z.to_nat MAP_HEIGHT)%nat /\ (col < Z.to_nat MAP_WIDTH)%nat.
Proof.
  intros [Hlen Hall] H. unfold getTile in H.
  destruct (m !! row) as [rw|] eqn:Hrw; [|discriminate].
  split.
  - apply lookup_lt_Some in Hrw. lia.
  - eapply Forall_lookup_1 in Hall; eauto. simpl in Hall.
    apply lookup_lt_Some in H. lia.
Qed.

(** ** Loops *)

Lemma forRange_inv (I : World -> Prop) body :
  (forall i w, I w -> I (outWorld (body i w))) ->
  forall n lo w, I w -> I (outWorld (forRange n lo body w)).
Proof.
  intros Hbody n. induction n as [|n IH]; intros lo w Hw; simpl.
  - exact Hw.
  - specialize (Hbody lo w Hw).
    destruct (body lo w) as [w'|w']; simpl in *.
    + apply IH. exact Hbody.
    + exact Hbody.
Qed.

Lemma forRange_steps (I : nat -> World -> Prop) body n lo w :
  I lo w ->
  (forall i v, (lo <= i < lo + n)%nat -> I i v ->
               exists v', body i v = Done v' /\ I (S i) v') ->
  exists w', forRange n lo body w = Done w' /\ I (lo + n)%nat w'.
Proof.
  revert lo w. induction n as [|n IH]; intros lo w Hw Hbody; simpl.
  - exists w. rewrite Nat.add_0_r. split; [reflexivity | exact Hw].
  - destruct (Hbody lo w) as (v' & Hv' & HI); [lia | exact Hw |].
    rewrite Hv'. simpl.
    destruct (IH (S lo) v' HI) as (w' & Hw' & HI').
    + intros i v Hi. apply Hbody. lia.
    + exists w'. split; [exact Hw'|].
      replace (lo + S n)%nat with (S lo + n)%nat by lia. exact HI'.
Qed.

Lemma forEachTile_inv (I : World -> Prop) visit :
  (forall row col t w,
      I w -> getTile (mapRef w) row col = Some t -> I (visit row col t w)) ->
  forall w, I w -> I (outWorld (forEachTile visit w)).
Proof.
  intros Hvisit w Hw. unfold forEachTile.
  apply forRange_inv; [|exact Hw].
  intros row v Hv. apply forRange_inv; [|exact Hv].
  intros col u Hu.
  destruct (getTile (mapRef u) row col) as [t|] eqn:Ht; simpl.
  - eapply Hvisit; eauto.
  - exact Hu.
Qed.

Lemma forEachTile_done (I : World -> Prop) visit :
  (forall w, I w -> wfMap (mapRef w)) ->
  (forall row col t w,
      I w -> getTile (mapRef w) row col = Some t -> I (visit row col t w)) ->
  forall w, I w -> exists w', forEachTile visit w = Done w' /\ I w'.
Proof.
  intros Hwf Hvisit w Hw. unfold forEachTile.
  apply (forRange_steps (fun _ => I)); [exact Hw|].
  intros row v Hrow Hv.
  apply (forRange_steps (fun _ => I)); [exact Hv|].
  intros col u Hcol Hu.
  destruct (wfMap_getTile (mapRef u) row col) as [t Ht];
    [apply Hwf; exact Hu | lia | lia |].
  rewrite Ht. eexists. split; [reflexivity|].
  eapply Hvisit; eauto.
Qed.

Lemma getTile_None_wide (m : list (list Tile)) row col :
  wfMap m -> (Z.to_nat MAP_WIDTH <= col)%nat -> getTile m row col = None.
Proof.
  intros Hwf Hcol.
  destruct (getTile m row col) as [t|] eqn:Ht; [|reflexivity].
  apply getTile_Some_bounds in Ht; [lia | exact Hwf].
Qed.

(** A sweep whose body rewrites the visited tile by a fixed function
    rewrites every tile of the grid by it, once. *)
Lemma forEachTile_pointwise (f : Tile -> Tile) (w : World) :
  wfMap (mapRef w) ->
  exists m',
    forEachTile
      (fun row col _ v => withMap (updTile row col f (mapRef v)) v) w
    = Done (withMap m' w)
    /\ wfMap m'
    /\ forall row col, getTile m' row col = f <$> getTile (mapRef w) row col.
Proof.
  intros Hwf. unfold forEachTile.
  destruct (forRange_steps (fun r => sweptUpTo f w r 0)
              (fun row =>
                 forRange (Z.to_nat MAP_WIDTH) 0
                   (fun col v =>
                      match getTile (mapRef v) row col with
                      | Some _ =>
                          Done (withMap (updTile row col f (mapRef v)) v)
                      | None => TypeError v
                      end))
              (Z.to_nat MAP_HEIGHT) 0%nat w) as (w' & Hrun & Hfin).
  - exists (mapRef w). split; [destruct w; reflexivity|].
    split; [exact Hwf|]. intros row col. unfold visited. simpl.
    rewrite andb_false_r. reflexivity.
  - intros r v Hr Hv.
    destruct (forRange_steps (fun c => sweptUpTo f w r c)
                (fun col v =>
                   match getTile (mapRef v) r col with
                   | Some _ => Done (withMap (updTile r col f (mapRef v)) v)
                   | None => TypeError v
                   end)
                (Z.to_nat MAP_WIDTH) 0%nat v) as (v' & Hrow & Hv').
    + exact Hv.
    + intros c u Hc (m & -> & Hm & Hget). simpl.
      destruct (wfMap_getTile m r c Hm) as [t Ht]; [lia | lia |].
      rewrite Ht. eexists. split; [reflexivity|].
      exists (updTile r c f m). split; [reflexivity|].
      split; [apply updTile_wf; exact Hm|].
      intros row col. rewrite getTile_updTile, Hget. unfold visited.
      case_decide as Hd.
      * destruct Hd as [-> ->].
        rewrite Nat.ltb_irrefl, Nat.eqb_refl. simpl.
        rewrite Nat.ltb_irrefl.
        replace (c <? S c)%nat with true by (symmetry; apply Nat.ltb_lt; lia).
        reflexivity.
      * destruct (row <? r)%nat eqn:E1; simpl; [reflexivity|].
        destruct (row =? r)%nat eqn:E2; simpl; [|reflexivity].
        apply Nat.eqb_eq in E2.
        assert (col <> c) by (intros ->; apply Hd; split; done).
        destruct (col <? c)%nat eqn:E3, (col <? S c)%nat eqn:E4;
          try reflexivity.
        -- apply Nat.ltb_lt in E3. apply Nat.ltb_ge in E4. lia.
        -- apply Nat.ltb_ge in E3. apply Nat.ltb_lt in E4. lia.
    + rewrite Hrow. exists v'. split; [reflexivity|].
      destruct Hv' as (m & -> & Hm & Hget).
      exists m. split; [reflexivity|]. split; [exact Hm|].
      intros row col. rewrite Hget. unfold visited. simpl.
      rewrite andb_false_r, orb_false_r.
      destruct (row <? r)%nat eqn:E1; simpl.
      * replace (row <? S r)%nat with true
          by (symmetry; apply Nat.ltb_lt; apply Nat.ltb_lt in E1; lia).
        reflexivity.
      * destruct (row =? r)%nat eqn:E2; simpl.
        -- apply Nat.eqb_eq in E2. subst row.
           replace (r <? S r)%nat with true
             by (symmetry; apply Nat.ltb_lt; lia).
           destruct (col <? Z.to_nat MAP_WIDTH)%nat eqn:E3; [reflexivity|].
           apply Nat.ltb_ge in E3.
           rewrite (getTile_None_wide (mapRef w) r col Hwf E3). reflexivity.
        -- apply Nat.eqb_neq in E2. apply Nat.ltb_ge in E1.
           replace (row <? S r)%nat with false
             by (symmetry; apply Nat.ltb_ge; lia).
           reflexivity.
  - rewrite Hrun. destruct Hfin as (m & -> & Hm & Hget).
    exists m. split; [reflexivity|]. split; [exact Hm|].
    intros row col. rewrite Hget. unfold visited. simpl.
    destruct (row <? Z.to_nat MAP_HEIGHT)%nat eqn:E1; simpl; [reflexivity|].
    apply Nat.ltb_ge in E1.
    assert (getTile (mapRef w) row col = None) as ->.
    { destruct (getTile (mapRef w) row col) as [t|] eqn:Ht; [|reflexivity].
      apply getTile_Some_bounds in Ht; [lia | exact Hwf]. }
    destruct (_ && _); reflexivity.
Qed.

(** ** Inventory and crafting *)

Lemma count_insert (inv : gmap ItemType Z) i j n :
  count (<[i := n]> inv) j = if decide (i = j) then n else count inv j.
Proof.
  unfold count. rewrite lookup_insert. case_decide; reflexivity.
Qed.

Lemma canCraftLoop_true inv entries :
  canCraftLoop inv entries = true <->
  forall it amt, (it, amt) ∈ entries -> amt <= count inv it.
Proof.
  induction entries as [|[it amt] rest IH]; simpl.
  - split; [|reflexivity]. intros _ it amt Hin. inversion Hin.
  - destruct (count inv it <? amt) eqn:E.
    + apply Z.ltb_lt in E. split; [discriminate|].
      intros H. specialize (H it amt (list_elem_of_here _ _)). lia.
    + apply Z.ltb_ge in E. rewrite IH. split.
      * intros H it' amt' Hin. apply elem_of_cons in Hin as [Heq|Hin].
        -- injection Heq as -> ->. exact E.
        -- apply H. exact Hin.
      * intros H it' amt' Hin. apply H. apply list_elem_of_further. exact Hin.
Qed.

Lemma deductLoop_count inv entries k :
  NoDup entries.*1 ->
  count (deductLoop inv entries) k =
  count inv k - default 0 ((list_to_map entries : gmap ItemType Z) !! k).
Proof.
  revert inv. induction entries as [|[it amt] rest IH]; intros inv Hnd; simpl.
  - rewrite lookup_empty. simpl. lia.
  - apply NoDup_cons in Hnd as [Hnotin Hnd].
    rewrite IH by exact Hnd. rewrite count_insert.
    rewrite lookup_insert.
    destruct (decide (it = k)) as [->|Hne]; simpl.
    + rewrite (not_elem_of_list_to_map_1 rest k) by exact Hnotin. simpl. lia.
    + reflexivity.
Qed.

Lemma deductLoop_ingredients inv (ing : gmap ItemType Z) k :
  count (deductLoop inv (map_to_list ing)) k = count inv k - count ing k.
Proof.
  rewrite deductLoop_count by apply NoDup_fst_map_to_list.
  rewrite list_to_map_to_list. reflexivity.
Qed.

(** A failed check leaves the whole world untouched. *)
Lemma handleCraft_missing recipe w it amt :
  ingredients recipe !! it = Some amt ->
  count (inventory (gameStateRef w)) it < amt ->
  handleCraft recipe w = w.
Proof.
  intros Hing Hlt. unfold handleCraft.
  destruct (canCraftLoop _ _) eqn:E; [|reflexivity].
  rewrite canCraftLoop_true in E.
  specialize (E it amt). rewrite elem_of_map_to_list in E.
  specialize (E Hing). lia.
Qed.

Lemma handleCraft_enough recipe w :
  (forall it amt, ingredients recipe !! it = Some amt ->
                  amt <= count (inventory (gameStateRef w)) it) ->
  handleCraft recipe w =
  saveGame
    (withGameState
       (setInventory (craftedInventory recipe (inventory (gameStateRef w))))
       w).
Proof.
  intros Hall. unfold handleCraft.
  destruct (canCraftLoop _ _) eqn:E; [reflexivity|].
  assert (canCraftLoop (inventory (gameStateRef w))
            (map_to_list (ingredients recipe)) = true) as Habs.
  { apply canCraftLoop_true. intros it amt Hin.
    apply Hall. apply elem_of_map_to_list. exact Hin. }
  congruence.
Qed.

Lemma craftedInventory_count recipe inv k :
  count (craftedInventory recipe inv) k =
  count inv k - count (ingredients recipe) k
  + (if decide (result recipe = k) then amount recipe else 0).
Proof.
  unfold craftedInventory. rewrite count_insert.
  case_decide as Hk.
  - subst k. rewrite deductLoop_ingredients. lia.
  - rewrite deductLoop_ingredients. lia.
Qed.

Lemma positiveCounts_add inv it n :
  positiveCounts inv -> 0 < n ->
  positiveCounts (<[it := count inv it + n]> inv).
Proof.
  intros Hpos Hn k m. rewrite lookup_insert. case_decide.
  - intros [= <-]. unfold count.
    destruct (inv !! it) as [c|] eqn:E; simpl; [|lia].
    apply Hpos in E. lia.
  - apply Hpos.
Qed.

Lemma positiveCounts_take inv it :
  positiveCounts inv ->
  0 < count inv it ->
  positiveCounts
    (if count inv it - 1 =? 0
     then delete it (<[it := count inv it - 1]> inv)
     else <[it := count inv it - 1]> inv).
Proof.
  intros Hpos Hc k m.
  destruct (count inv it - 1 =? 0) eqn:E.
  - rewrite lookup_delete. case_decide; [discriminate|].
    rewrite lookup_insert_ne by done. apply Hpos.
  - apply Z.eqb_neq in E. rewrite lookup_insert. case_decide.
    + intros [= <-]. lia.
    + apply Hpos.
Qed.

(** Eating and equipping keep the counts positive. *)
Lemma handleUseItem_positive it w :
  positiveCounts (inventory (gameStateRef w)) ->
  positiveCounts (inventory (gameStateRef (handleUseItem it w))).
Proof.
  intros Hpos. unfold handleUseItem.
  set (w1 := match activeItem w with
             | Some a => if decide (a = it) then w else setActiveItem None w
             | None => w
             end).
  assert (inventory (gameStateRef w1) = inventory (gameStateRef w)) as Hw1.
  { subst w1. destruct (activeItem w) as [a|]; [|reflexivity].
    case_decide; reflexivity. }
  case_decide; [simpl; rewrite Hw1; exact Hpos|].
  rewrite Hw1.
  destruct (0 <? count (inventory (gameStateRef w)) it) eqn:E;
    [|rewrite Hw1; exact Hpos].
  apply Z.ltb_lt in E.
  destruct (ITEM_PROPS it) as [props|]; [|simpl; rewrite Hw1; exact Hpos].
  destruct (edible props); [|simpl; rewrite Hw1; exact Hpos].
  simpl. apply positiveCounts_take; assumption.
Qed.

(** Placing keeps them positive when the placed item is in the inventory. *)
Lemma handlePlaceItem_positive w :
  positiveCounts (inventory (gameStateRef w)) ->
  (forall a, activeItem w = Some a -> 0 < count (inventory (gameStateRef w)) a) ->
  positiveCounts (inventory (gameStateRef (outWorld (handlePlaceItem w)))).
Proof.
  intros Hpos Hact. unfold handlePlaceItem.
  destruct (activeItem w) as [a|] eqn:Ha; [|exact Hpos].
  specialize (Hact a eq_refl).
  destruct (negb (isPlaceable (Some a))); [exact Hpos|].
  destruct (facedTile (playerRef w)) as [tx ty].
  destruct (inBoundsZ tx ty); [|exact Hpos].
  destruct (getTileZ (mapRef w) ty tx) as [tile|]; [|exact Hpos].
  destruct (_ && _); [|exact Hpos].
  simpl.
  pose proof (positiveCounts_take _ a Hpos Hact) as Htake.
  destruct (count (inventory (gameStateRef w)) a - 1 =? 0); exact Htake.
Qed.

(** Harvesting keeps them positive. *)
Lemma handleInteraction_positive w :
  positiveCounts (inventory (gameStateRef w)) ->
  positiveCounts (inventory (gameStateRef (outWorld (handleInteraction w)))).
Proof.
  intros Hpos. unfold handleInteraction.
  destruct (_ || _); [exact Hpos|].
  destruct (facedTile (playerRef w)) as [tx ty].
  destruct (inBoundsZ tx ty); [|exact Hpos].
  destruct (getTileZ (mapRef w) ty tx) as [tile|]; [|exact Hpos].
  destruct (item tile) as [it|]; [|exact Hpos].
  assert (positiveCounts
            (inventory (gameStateRef
               (withGameState (addItem coconut 1)
                  (withGameState (addItem wood 3) w))))) as Hchop.
  { simpl. apply positiveCounts_add; [|lia].
    apply positiveCounts_add; [exact Hpos | lia]. }
  destruct it; try (simpl; apply positiveCounts_add; [exact Hpos | lia]).
  - case_decide; [exact Hchop | exact Hpos].
  - exact Hpos.
Qed.

(** C6: crafting is all-or-nothing.  If some ingredient of the recipe is
    held in a smaller count than the recipe asks for, [handleCraft] returns
    the world it was given, inventory included.  If every ingredient is
    held in a sufficient count, the craft goes through in one step: the
    new count of every item is the old one, less what the recipe asks of
    it, plus the result amount for the result item, and the game is
    saved. *)
Theorem handleCraft_all_or_nothing (recipe : Recipe) (w : World) :
  ((exists it amt,
       ingredients recipe !! it = Some amt /\
       count (inventory (gameStateRef w)) it < amt) ->
   handleCraft recipe w = w)
  /\
  ((forall it amt,
       ingredients recipe !! it = Some amt ->
       amt <= count (inventory (gameStateRef w)) it) ->
   exists inv',
     handleCraft recipe w = saveGame (withGameState (setInventory inv') w)
     /\ forall k,
         count inv' k =
         count (inventory (gameStateRef w)) k - count (ingredients recipe) k
         + (if decide (result recipe = k) then amount recipe else 0)).
Proof.
  split.
  - intros (it & amt & Hing & Hlt). eapply handleCraft_missing; eauto.
  - intros Hall. eexists. split.
    + apply handleCraft_enough. exact Hall.
    + apply craftedInventory_count.
Qed.

Lemma handleCraft_all_or_nothing_witness :
  let short := withGameState (setInventory {[wood := 1]}) sampleWorld in
  let enough := withGameState (setInventory {[wood := 2]}) sampleWorld in
  handleCraft craft_wall_wood short = short
  /\ exists inv',
       handleCraft craft_wall_wood enough =
       saveGame (withGameState (setInventory inv') enough)
       /\ forall k,
           count inv' k =
           count (inventory (gameStateRef enough)) k
           - count (ingredients craft_wall_wood) k
           + (if decide (result craft_wall_wood = k)
              then amount craft_wall_wood else 0).
Proof.
  intros short enough. split.
  - apply (proj1 (handleCraft_all_or_nothing craft_wall_wood short)).
    exists wood, 2. split; [reflexivity | vm_compute; reflexivity].
  - apply (proj2 (handleCraft_all_or_nothing craft_wall_wood enough)).
    intros it amt Hing.
    destruct it; vm_compute in Hing; try discriminate.
    injection Hing as <-. vm_compute. discriminate.
Defined.

(** C2: the craft of a wooden wall from exactly two wood.  The craft
    succeeds and the wall is added, but [handleCraft] stores the count it
    computed and never deletes a key: [wood] stays in the inventory with
    count 0, so the counts are no longer all positive.  (Eating and
    placing delete the key they bring to 0, see
    [handleUseItem_positive] and [handlePlaceItem_positive].) *)
Theorem handleCraft_keeps_zero_entry :
  let w := withGameState (setInventory {[wood := 2]}) sampleWorld in
  let inv' := inventory (gameStateRef (handleCraft craft_wall_wood w)) in
  positiveCounts (inventory (gameStateRef w))
  /\ inv' !! wall_wood = Some 1
  /\ inv' !! wood = Some 0
  /\ ~ positiveCounts inv'.
Proof.
  intros w inv'.
  assert (inv' !! wood = Some 0) as Hwood by (vm_compute; reflexivity).
  split; [|split; [|split]].
  - intros it n. destruct it; vm_compute; try discriminate.
    intros [= <-]. reflexivity.
  - vm_compute. reflexivity.
  - exact Hwood.
  - intros Hpos. apply Hpos in Hwood. lia.
Qed.

(** C10: an Interact intent does nothing when the player has no energy
    left or is resting: [handleInteraction] returns, without an error, the
    very world it was given (tiles, inventory, stats and trace included),
    whatever the faced tile holds. *)
Theorem handleInteraction_gate (w : World) :
  (energy (playerRef w) <= 0)%Q \/ isResting (playerRef w) = true ->
  handleInteraction w = Done w.
Proof.
  intros H. unfold handleInteraction.
  destruct H as [H|H].
  - apply Qle_bool_iff in H. rewrite H. reflexivity.
  - rewrite H, orb_true_r. reflexivity.
Qed.

Lemma handleInteraction_gate_witness :
  let tired := withPlayer (setEnergy 0) axeAndTree in
  let asleep := withPlayer (setIsResting true) axeAndTree in
  handleInteraction tired = Done tired
  /\ handleInteraction asleep = Done asleep.
Proof.
  intros tired asleep. split.
  - apply (handleInteraction_gate tired). left. vm_compute. discriminate.
  - apply (handleInteraction_gate asleep). right. reflexivity.
Defined.

(** ** Energy and hunger *)

Lemma forEachTile_frame {A} (proj : World -> A) visit :
  (forall row col t w, proj (visit row col t w) = proj w) ->
  forall w, proj (outWorld (forEachTile visit w)) = proj w.
Proof.
  intros Hvisit w.
  apply (forEachTile_inv (fun v => proj v = proj w)); [|reflexivity].
  intros row col t v Hv _. rewrite Hvisit. exact Hv.
Qed.

Lemma checkRegrowth_player w :
  playerRef (outWorld (checkRegrowth w)) = playerRef w.
Proof.
  unfold checkRegrowth.
  rewrite (forEachTile_frame playerRef); reflexivity.
Qed.

Lemma tideVisit_player random row col t w :
  playerRef (tideVisit random row col t w) = playerRef w.
Proof.
  unfold tideVisit.
  destruct (tideEligible _ _ _ _); [|reflexivity].
  destruct (classifyRoll _); reflexivity.
Qed.

Lemma triggerTide_player random w :
  playerRef (outWorld (triggerTide random w)) = playerRef w.
Proof.
  unfold triggerTide.
  rewrite (forEachTile_frame playerRef); [reflexivity|].
  apply tideVisit_player.
Qed.

Lemma handleUseItem_stats it w :
  statsInRange w -> statsInRange (handleUseItem it w).
Proof.
  intros Hw. unfold handleUseItem.
  set (w1 := match activeItem w with
             | Some a => if decide (a = it) then w else setActiveItem None w
             | None => w
             end).
  assert (playerRef w1 = playerRef w) as Hp.
  { subst w1. destruct (activeItem w) as [a|]; [|reflexivity].
    case_decide; reflexivity. }
  assert (statsInRange w1) as Hw1 by (unfold statsInRange; rewrite Hp; exact Hw).
  case_decide; [exact Hw1|].
  destruct (0 <? _); [|exact Hw1].
  destruct Hw1 as [He [Hh0 Hh1]].
  destruct it; simpl;
    first [ split; [exact He | split; assumption]
          | split; [exact He | apply Qmin_cap; lra] ].
Qed.

Lemma handlePlaceItem_player w :
  playerRef (outWorld (handlePlaceItem w)) = playerRef w.
Proof.
  unfold handlePlaceItem.
  destruct (activeItem w) as [a|]; [|reflexivity].
  destruct (negb _); [reflexivity|].
  destruct (facedTile _) as [tx ty].
  destruct (inBoundsZ _ _); [|reflexivity].
  destruct (getTileZ _ _ _) as [tile|]; [|reflexivity].
  destruct (_ && _); [|reflexivity].
  simpl. destruct (_ =? 0); reflexivity.
Qed.

Lemma handleInteraction_stats w :
  statsInRange w -> statsInRange (outWorld (handleInteraction w)).
Proof.
  intros Hw. unfold handleInteraction.
  destruct (_ || _); [exact Hw|].
  destruct (facedTile _) as [tx ty].
  destruct (inBoundsZ _ _); [|exact Hw].
  destruct (getTileZ _ _ _) as [tile|]; [|exact Hw].
  destruct Hw as [[He0 He1] Hh].
  destruct (item tile) as [it|]; [|split; [split|]; assumption].
  destruct it; try case_decide; simpl;
    first [ split; [split|]; assumption
          | split; [apply Qmax_floor; unfold withGameState, withMap; simpl; lra
                   | exact Hh] ].
Qed.

Lemma regenTick_stats dt w : statsInRange w -> statsInRange (regenTick dt w).
Proof.
  unfold statsInRange. intros [[He0 He1] [Hh0 Hh1]]. unfold regenTick. cbn.
  destruct (Qle_bool 100 _); [|split; split; assumption]. cbn.
  destruct (isResting (playerRef w)).
  - destruct (Qltb _ 100); cbn.
    + split; [apply Qmin_cap; lra | apply Qmax_floor; lra].
    + split; [apply Qmin_cap; lra | split; assumption].
  - destruct (_ && _); cbn.
    + split; [apply Qmin_cap; lra | split; assumption].
    + split; split; assumption.
Qed.

Lemma saveTick_player dt w : playerRef (saveTick dt w) = playerRef w.
Proof.
  unfold saveTick. simpl. destruct (Qltb 5000 _); reflexivity.
Qed.

Lemma minuteBoundary_stats w :
  statsInRange w -> statsInRange (outWorld (minuteBoundary w)).
Proof.
  intros Hw. unfold minuteBoundary.
  destruct (_ =? 0); [|exact Hw].
  unfold statsInRange in *. rewrite checkRegrowth_player. cbn.
  destruct Hw as [He [Hh0 Hh1]].
  split; [exact He | apply Qmax_floor; lra].
Qed.

Lemma dayRollover_player random w :
  playerRef (outWorld (dayRollover random w)) = playerRef w.
Proof.
  unfold dayRollover. destruct (_ <=? _); [|reflexivity].
  match goal with |- context [triggerTide random ?v] =>
    pose proof (triggerTide_player random v) as Ht;
    destruct (triggerTide random v) as [u|u] end; simpl in *; exact Ht.
Qed.

Lemma advanceClock_frame w :
  mapRef (advanceClock w) = mapRef w
  /\ playerRef (advanceClock w) = playerRef w
  /\ showCrafting (advanceClock w) = showCrafting w
  /\ trace (advanceClock w) = trace w
  /\ day (gameStateRef (advanceClock w)) = day (gameStateRef w)
  /\ timeOfDay (gameStateRef (advanceClock w)) =
     timeOfDay (gameStateRef w) + Qfloor (timeAccumulatorRef w / msPerGameMin)
  /\ inventory (gameStateRef (advanceClock w)) = inventory (gameStateRef w).
Proof.
  unfold advanceClock. cbn.
  destruct (totalMinutes (gameStateRef w) =? 0); cbn; repeat split.
Qed.

Lemma timeTick_stats random dt w :
  statsInRange w -> statsInRange (outWorld (timeTick random dt w)).
Proof.
  intros Hw. unfold timeTick.
  destruct (Qle_bool msPerGameMin _); [|exact Hw].
  match goal with |- context [minuteBoundary ?v] =>
    assert (statsInRange v) as Hv
      by (unfold statsInRange;
          rewrite (proj1 (proj2 (advanceClock_frame _))); exact Hw);
    pose proof (minuteBoundary_stats v Hv) as Hm;
    destruct (minuteBoundary v) as [u|u] end; simpl in *.
  - unfold statsInRange. rewrite dayRollover_player. exact Hm.
  - exact Hm.
Qed.

Lemma moveTick_stats keys w :
  statsInRange w -> statsInRange (outWorld (moveTick keys w)).
Proof.
  intros Hw. unfold moveTick.
  destruct (getTileZ _ _ _) as [currentTile|]; [|exact Hw].
  destruct (isMoving (playerRef w)).
  - destruct (_ && _); [|exact Hw].
    unfold statsInRange in *. destruct Hw as [[He0 He1] Hh]. cbn.
    split; [apply Qmax_floor; lra | exact Hh].
  - destruct (negb _); [|exact Hw].
    destruct (moveIntent keys) as [d|]; [|exact Hw].
    destruct (nextPos d _) as [nextX nextY].
    destruct (inBoundsQ _ _); [|exact Hw].
    destruct (getTileQ _ _ _) as [targetTile|]; [|exact Hw].
    destruct (isSolid _); exact Hw.
Qed.

Lemma update_stats random dt keys w :
  statsInRange w -> statsInRange (outWorld (update random dt keys w)).
Proof.
  intros Hw. unfold update.
  destruct (showCrafting w); [exact Hw|].
  assert (statsInRange (regenTick dt (restTick keys (saveTick dt w)))) as Hr.
  { apply regenTick_stats. unfold statsInRange, restTick. simpl.
    rewrite saveTick_player. exact Hw. }
  pose proof (timeTick_stats random dt _ Hr) as Ht.
  destruct (timeTick random dt _) as [u|u]; simpl in *.
  - apply moveTick_stats. exact Ht.
  - exact Ht.
Qed.

Lemma step_stats random a w :
  statsInRange w -> statsInRange (outWorld (step random a w)).
Proof.
  intros Hw. destruct a; simpl.
  - apply update_stats. exact Hw.
  - unfold handleActionKey. destruct (isPlaceable _).
    + unfold statsInRange. rewrite handlePlaceItem_player. exact Hw.
    + apply handleInteraction_stats. exact Hw.
  - exact Hw.
  - exact Hw.
  - apply handleUseItem_stats. exact Hw.
  - unfold handleCraft. destruct (canCraftLoop _ _); exact Hw.
Qed.

(** C4: energy and hunger stay in [0,100].  From a world whose energy and
    hunger are in range, whatever the samples of [Math.random()], after
    any sequence of ticks (any elapsed time, any keys held) and of player
    actions (harvest or place, eat or equip, craft, menu keys), energy and
    hunger are in range again; this covers every write: resting and
    passive regeneration, hunger decay, movement cost, harvest cost and
    eating. *)
Theorem stats_stay_in_range (random : nat -> Q) (actions : list Action)
  (w : World) :
  statsInRange w -> statsInRange (run random actions w).
Proof.
  revert w. induction actions as [|a rest IH]; intros w Hw; simpl.
  - exact Hw.
  - apply IH. apply step_stats. exact Hw.
Qed.

Lemma stats_stay_in_range_witness :
  statsInRange
    (run sampleRandom
       [Tick 100 (holding "r"); Tick 16 (holding "d"); PressAction;
        UseItem coconut; CraftRecipe craft_axe; Tick 86400000 noKeys]
       sampleWorld).
Proof.
  apply (stats_stay_in_range sampleRandom _ sampleWorld).
  split; split; vm_compute; discriminate.
Defined.

(** C1, as the code has it: a regeneration step taken while resting, from
    energy and hunger in range and hunger above 0, sets energy to
    [min(100, energy + 1)], which is not below the old energy and not
    above 100; it lowers hunger, to [max(0, hunger - 0.05)], exactly when
    the new energy is still below 100, and leaves hunger as it is once the
    new energy is 100. *)
Theorem regenTick_resting (deltaTime : Q) (w : World) :
  isResting (playerRef w) = true ->
  (100 <= regenTimerRef w + deltaTime)%Q ->
  statsInRange w ->
  (0 < hunger (playerRef w))%Q ->
  let p := playerRef w in
  let p' := playerRef (regenTick deltaTime w) in
  energy p' = Qmin 100 (energy p + 1.0)
  /\ (energy p <= energy p' <= 100)%Q
  /\ ((energy p' < 100)%Q ->
      hunger p' = Qmax 0 (hunger p - 0.05) /\ (hunger p' < hunger p)%Q)
  /\ (energy p' == 100 -> hunger p' = hunger p).
Proof.
  intros Hrest Htimer [[He0 He1] [Hh0 Hh1]] Hh p p'.
  subst p p'. unfold regenTick. simpl.
  apply Qle_bool_iff in Htimer. rewrite Htimer. simpl. rewrite Hrest.
  destruct (Qltb (Qmin 100 (energy (playerRef w) + 1.0)) 100) eqn:E; simpl.
  - apply Qltb_lt in E.
    split; [reflexivity|].
    split.
    + split; [|apply Q.le_min_l].
      apply Q.min_glb; lra.
    + split.
      * intros _. split; [reflexivity|].
        apply Q.max_lub_lt; lra.
      * intros Heq. rewrite Heq in E. lra.
  - apply Qltb_ge in E.
    split; [reflexivity|].
    split.
    + split; [|apply Q.le_min_l].
      apply Q.min_glb; lra.
    + split.
      * intros Hlt. lra.
      * intros _. reflexivity.
Qed.

Lemma regenTick_resting_witness :
  let w := withPlayer (fun p => setIsResting true (setEnergy 99 p))
             sampleWorld in
  let p := playerRef w in
  let p' := playerRef (regenTick 100 w) in
  energy p' = Qmin 100 (energy p + 1.0)
  /\ (energy p <= energy p' <= 100)%Q
  /\ ((energy p' < 100)%Q ->
      hunger p' = Qmax 0 (hunger p - 0.05) /\ (hunger p' < hunger p)%Q)
  /\ (energy p' == 100 -> hunger p' = hunger p).
Proof.
  intros w.
  apply (regenTick_resting 100 w).
  - reflexivity.
  - vm_compute. discriminate.
  - split; split; vm_compute; discriminate.
  - vm_compute. reflexivity.
Defined.

(** C1, against the claim as it is written: with the rest key held, energy
    50 and hunger 80, the tick that takes a regeneration step ends with
    energy 51, still below 100, and with hunger already lowered, to 79.95;
    with energy 100 and hunger 80 the same tick leaves hunger at 80. *)
Lemma resting_drains_hunger_below_cap :
  let low := withPlayer (fun p => setHunger 80 (setEnergy 50 p)) sampleWorld in
  let full := withPlayer (setHunger 80) sampleWorld in
  let low' := outWorld (update sampleRandom 100 (holding "r") low) in
  let full' := outWorld (update sampleRandom 100 (holding "r") full) in
  (energy (playerRef low') == 51
   /\ (energy (playerRef low') < 100)%Q
   /\ hunger (playerRef low') == 79.95
   /\ (hunger (playerRef low') < hunger (playerRef low))%Q)
  /\ (energy (playerRef full) == 100
      /\ energy (playerRef full') == 100
      /\ hunger (playerRef full') == 80
      /\ ~ (hunger (playerRef full') < hunger (playerRef full))%Q).
Proof.
  vm_compute. repeat split; try discriminate.
Qed.

(** ** The sweeps on a well-formed grid *)

Lemma checkRegrowth_pointwise (w : World) :
  wfMap (mapRef w) ->
  exists m',
    checkRegrowth w = Done (withMap m' (emit RegrowthSweep w))
    /\ wfMap m'
    /\ forall row col,
        getTile m' row col =
        regrowTile (totalMinutes (gameStateRef w)) <$> getTile (mapRef w) row col.
Proof.
  intros Hwf. unfold checkRegrowth.
  destruct (forEachTile_pointwise
              (regrowTile (totalMinutes (gameStateRef (emit RegrowthSweep w))))
              (emit RegrowthSweep w) Hwf) as (m' & Hrun & Hm' & Hget).
  exists m'. split; [exact Hrun|]. split; [exact Hm'|]. exact Hget.
Qed.

Lemma solidKept_refl m : solidKept m m.
Proof. intros row col t Ht Hs. exists t. split; assumption. Qed.

Lemma solidKept_trans m1 m2 m3 :
  solidKept m1 m2 -> solidKept m2 m3 -> solidKept m1 m3.
Proof.
  intros H12 H23 row col t Ht Hs.
  destruct (H12 row col t Ht Hs) as (t2 & Ht2 & Hs2).
  exact (H23 row col t2 Ht2 Hs2).
Qed.

Lemma solidKept_updTile m r c f :
  (forall t, isSolid t = true -> isSolid (f t) = true) ->
  solidKept m (updTile r c f m).
Proof.
  intros Hf row col t Ht Hs. rewrite getTile_updTile, Ht.
  case_decide; simpl; eexists; split; eauto.
Qed.

Lemma regrowTile_solid total t : isSolid t = true -> isSolid (regrowTile total t) = true.
Proof.
  intros Hs. unfold regrowTile.
  destruct (_ && _); [|exact Hs].
  destruct (_ <=? _); [|exact Hs].
  unfold isSolid. simpl. rewrite orb_true_r. reflexivity.
Qed.

Lemma triggerTide_done (random : nat -> Q) (w : World) :
  wfMap (mapRef w) ->
  exists m' n',
    triggerTide random w =
    Done (setRandomDrawn n' (withMap m' (emit TideSweep w)))
    /\ wfMap m' /\ solidKept (mapRef w) m'.
Proof.
  intros Hwf. unfold triggerTide.
  set (w0 := emit TideSweep w).
  destruct (forEachTile_done
              (fun v => exists m n,
                   v = setRandomDrawn n (withMap m w0)
                   /\ wfMap m /\ solidKept (mapRef w) m)
              (tideVisit random)) with (w := w0)
    as (w' & Hrun & m & n & -> & Hm & Hs).
  - intros v (m & n & -> & Hm & _). exact Hm.
  - intros row col t v (m & n & -> & Hm & Hs) _. unfold tideVisit.
    destruct (tideEligible _ _ _ _).
    + destruct (classifyRoll _).
      * eexists _, _. split; [reflexivity|].
        split; [apply updTile_wf; exact Hm|].
        eapply solidKept_trans; [exact Hs|].
        apply solidKept_updTile. intros t' _. unfold isSolid. simpl.
        rewrite orb_true_r. reflexivity.
      * eexists _, _. split; [reflexivity|]. split; assumption.
    + exists m, n. split; [reflexivity|]. split; assumption.
  - exists (mapRef w), (randomDrawn w).
    split; [reflexivity|]. split; [exact Hwf | apply solidKept_refl].
  - exists m, n. split; [exact Hrun|]. split; assumption.
Qed.

(** ** Whole coordinates *)

Lemma isWhole_shift (q : Q) (z : Z) :
  isWhole q -> isWhole (q + inject_Z z).
Proof.
  unfold isWhole. intros H.
  assert (q + inject_Z z == inject_Z (Qfloor q + z)) as Heq.
  { rewrite inject_Z_plus. rewrite <- H. reflexivity. }
  rewrite Heq at 2. rewrite Qfloor_Z. exact Heq.
Qed.

Lemma arrayIndex_whole (q : Q) :
  isWhole q -> (0 <= q)%Q -> (q < inject_Z MAP_WIDTH)%Q ->
  exists n, arrayIndex q = Some n /\ (n < Z.to_nat MAP_WIDTH)%nat.
Proof.
  unfold isWhole. intros Hq H0 H1. unfold arrayIndex.
  assert (0 <= Qfloor q) as Hf0.
  { rewrite Zle_Qle. rewrite <- Hq. exact H0. }
  assert (Qfloor q < MAP_WIDTH) as Hf1.
  { rewrite Zlt_Qlt. rewrite <- Hq. exact H1. }
  apply Qeq_bool_iff in Hq. rewrite Hq.
  apply Z.leb_le in Hf0 as Hb. rewrite Hb. simpl.
  eexists. split; [reflexivity|]. lia.
Qed.

Lemma nextPos_whole d p nextX nextY :
  isWhole (x p) -> isWhole (y p) -> nextPos d p = (nextX, nextY) ->
  isWhole nextX /\ isWhole nextY.
Proof.
  intros Hx Hy Hn.
  pose proof (isWhole_shift (x p) 1 Hx) as Hx1.
  pose proof (isWhole_shift (x p) (-1) Hx) as Hx2.
  pose proof (isWhole_shift (y p) 1 Hy) as Hy1.
  pose proof (isWhole_shift (y p) (-1) Hy) as Hy2.
  destruct d; simpl in Hn; injection Hn as <- <-; split; assumption.
Qed.

Lemma getTileQ_inBounds m nextX nextY :
  wfMap m -> isWhole nextX -> isWhole nextY ->
  inBoundsQ nextX nextY = true ->
  is_Some (getTileQ m nextY nextX).
Proof.
  intros Hwf Hx Hy Hb. unfold inBoundsQ in Hb.
  apply andb_true_iff in Hb as [Hb Hy1].
  apply andb_true_iff in Hb as [Hb Hy0].
  apply andb_true_iff in Hb as [Hx0 Hx1].
  apply Qle_bool_iff in Hx0, Hy0. apply Qltb_lt in Hx1, Hy1.
  destruct (arrayIndex_whole nextX Hx Hx0 Hx1) as (c & Hc & Hcb).
  destruct (arrayIndex_whole nextY Hy Hy0 Hy1) as (r & Hr & Hrb).
  unfold getTileQ. rewrite Hr, Hc.
  apply wfMap_getTile; assumption.
Qed.

Lemma getTileZ_safe m (px py : Z) :
  wfMap m ->
  is_Some (getTileZ m (Z.max 0 (Z.min py (MAP_HEIGHT - 1)))
             (Z.max 0 (Z.min px (MAP_WIDTH - 1)))).
Proof.
  intros Hwf. unfold getTileZ.
  rewrite !(proj2 (Z.leb_le _ _)) by lia. simpl.
  apply wfMap_getTile; [exact Hwf | |];
    unfold MAP_HEIGHT, MAP_WIDTH; lia.
Qed.

(** ** The phases of a tick *)

Lemma beforeClock_frame dt keys w :
  let w1 := beforeClock dt keys w in
  mapRef w1 = mapRef w
  /\ gameStateRef w1 = gameStateRef w
  /\ timeAccumulatorRef w1 = timeAccumulatorRef w
  /\ isResting (playerRef w1) = keys "r" || keys "R"
  /\ x (playerRef w1) = x (playerRef w)
  /\ y (playerRef w1) = y (playerRef w)
  /\ targetX (playerRef w1) = targetX (playerRef w)
  /\ targetY (playerRef w1) = targetY (playerRef w)
  /\ isMoving (playerRef w1) = isMoving (playerRef w)
  /\ tideSweeps w1 = tideSweeps w
  /\ regrowthSweeps w1 = regrowthSweeps w.
Proof.
  unfold beforeClock, regenTick, restTick, saveTick, tideSweeps,
    regrowthSweeps. cbn.
  destruct (Qltb 5000 _); cbn;
    (destruct (Qle_bool 100 _); cbn;
     [ destruct (keys "r" || keys "R"); cbn;
       [ destruct (Qltb _ 100); cbn
       | destruct (_ && _); cbn ]
     | ]);
    rewrite ?count_occ_app; cbn; repeat split; lia.
Qed.

Lemma minuteBoundary_done (w : World) :
  wfMap (mapRef w) ->
  exists m',
    wfMap m' /\ solidKept (mapRef w) m' /\
    minuteBoundary w =
    if Z.rem (timeOfDay (gameStateRef w)) 20 =? 0
    then Done (withMap m'
                 (emit RegrowthSweep
                    (withPlayer
                       (fun p => setHunger (Qmax 0 (hunger p - 1)) p) w)))
    else Done w.
Proof.
  intros Hwf. unfold minuteBoundary.
  destruct (_ =? 0).
  - destruct (checkRegrowth_pointwise
                (withPlayer (fun p => setHunger (Qmax 0 (hunger p - 1)) p) w)
                Hwf) as (m' & Hrun & Hm' & Hget).
    exists m'. split; [exact Hm'|]. split; [|exact Hrun].
    intros row col t Ht Hs. rewrite Hget. cbn in *. rewrite Ht. simpl.
    eexists. split; [reflexivity|]. apply regrowTile_solid. exact Hs.
  - exists (mapRef w). split; [exact Hwf|].
    split; [apply solidKept_refl | reflexivity].
Qed.

Lemma dayRollover_done (random : nat -> Q) (w : World) :
  wfMap (mapRef w) ->
  exists m' n',
    wfMap m' /\ solidKept (mapRef w) m' /\
    dayRollover random w =
    if GAME_MINS_PER_DAY <=? timeOfDay (gameStateRef w)
    then Done (saveGame
                 (setRandomDrawn n'
                    (withMap m'
                       (emit TideSweep
                          (withGameState (fun g => setDay (day g + 1) g)
                             (withGameState
                                (fun g => setTimeOfDay
                                            (timeOfDay g - GAME_MINS_PER_DAY) g)
                                w))))))
    else Done w.
Proof.
  intros Hwf. unfold dayRollover.
  destruct (_ <=? _).
  - match goal with |- context [triggerTide random ?v] =>
      destruct (triggerTide_done random v Hwf) as (m' & n' & Hrun & Hm' & Hs)
    end.
    exists m', n'. split; [exact Hm'|]. split; [exact Hs|].
    rewrite Hrun. reflexivity.
  - exists (mapRef w), (randomDrawn w). split; [exact Hwf|].
    split; [apply solidKept_refl | reflexivity].
Qed.

(** The clock never fails on a well-formed grid; it leaves the pose of the
    player alone and keeps solid tiles solid. *)
Lemma timeTick_done (random : nat -> Q) (dt : Q) (w : World) :
  wfMap (mapRef w) ->
  exists v,
    timeTick random dt w = Done v
    /\ wfMap (mapRef v)
    /\ solidKept (mapRef w) (mapRef v)
    /\ showCrafting v = showCrafting w
    /\ isResting (playerRef v) = isResting (playerRef w)
    /\ x (playerRef v) = x (playerRef w)
    /\ y (playerRef v) = y (playerRef w)
    /\ targetX (playerRef v) = targetX (playerRef w)
    /\ targetY (playerRef v) = targetY (playerRef w)
    /\ isMoving (playerRef v) = isMoving (playerRef w).
Proof.
  intros Hwf. unfold timeTick.
  destruct (Qle_bool msPerGameMin _).
  - match goal with |- context [advanceClock ?a] =>
      destruct (advanceClock_frame a) as (Hu & Hp & Hc & _);
      generalize dependent (advanceClock a); intros u Hu Hp Hc
    end.
    cbn in Hu, Hp, Hc.
    destruct (minuteBoundary_done u) as (m1 & Hm1 & Hs1 & ->);
      [rewrite Hu; exact Hwf|].
    rewrite Hu in Hs1.
    destruct (Z.rem _ 20 =? 0); cbn [bind].
    + match goal with |- context [dayRollover random ?a] =>
        destruct (dayRollover_done random a) as (m2 & n2 & Hm2 & Hs2 & ->);
          [exact Hm1|]
      end.
      cbn [mapRef withMap] in Hs2.
      destruct (_ <=? _); eexists; (split; [reflexivity|]); cbn;
        rewrite ?Hp, ?Hc;
        splits; eauto using solidKept_trans, solidKept_refl.
    + destruct (dayRollover_done random u) as (m2 & n2 & Hm2 & Hs2 & ->);
        [rewrite Hu; exact Hwf|].
      rewrite Hu in Hs2.
      destruct (_ <=? _); eexists; (split; [reflexivity|]); cbn;
        rewrite ?Hp, ?Hc, ?Hu;
        splits; eauto using solidKept_trans, solidKept_refl.
  - eexists. split; [reflexivity|]. cbn.
    splits; auto using solidKept_refl.
Qed.

Lemma moveTick_done (keys : Keys) (w : World) :
  wfMap (mapRef w) -> standsOnGrid (playerRef w) ->
  exists p', moveTick keys w = Done (withPlayer (fun _ => p') w).
Proof.
  intros Hwf Hgrid. unfold moveTick.
  destruct (getTileZ_safe (mapRef w) (Math_round (x (playerRef w)))
              (Math_round (y (playerRef w))) Hwf) as [currentTile ->].
  destruct (isMoving (playerRef w)) eqn:Hmov.
  - destruct (_ && _);
      match goal with |- exists p', Done ?v = _ =>
        exists (playerRef v); reflexivity end.
  - destruct (Hgrid Hmov) as [Hx Hy].
    destruct (negb _); [|exists (playerRef w); destruct w; reflexivity].
    destruct (moveIntent keys) as [d|];
      [|exists (playerRef w); destruct w; reflexivity].
    destruct (nextPos d (playerRef w)) as [nextX nextY] eqn:Hnext.
    destruct (nextPos_whole d _ _ _ Hx Hy Hnext) as [Hnx Hny].
    destruct (inBoundsQ nextX nextY) eqn:Hb.
    + destruct (getTileQ_inBounds (mapRef w) nextX nextY Hwf Hnx Hny Hb)
        as [targetTile Ht].
      cbn [mapRef withPlayer]. rewrite Ht.
      destruct (isSolid targetTile);
        match goal with |- exists p', Done ?v = _ =>
          exists (playerRef v); reflexivity end.
    + match goal with |- exists p', Done ?v = _ =>
        exists (playerRef v); reflexivity end.
Qed.

(** C9: a blocked move only turns the player.  In a tick outside the
    crafting menu, on a well-formed grid, with the player idle (no move in
    progress, rest key not held) and a movement key held, if the candidate
    tile (the position plus the unit offset of the chosen direction) is
    out of bounds, or is solid before the tick (deep water, or holding an
    item or a placed structure), then the tick completes, [facing] is the
    chosen direction, and position, target tile and movement state are as
    before: the player is still neither moving nor resting. *)
Theorem blocked_move_turns_only (random : nat -> Q) (deltaTime : Q)
  (keys : Keys) (w : World) (d : Direction) (nextX nextY : Q) :
  showCrafting w = false ->
  wfMap (mapRef w) ->
  isMoving (playerRef w) = false ->
  (keys "r" || keys "R") = false ->
  moveIntent keys = Some d ->
  nextPos d (playerRef w) = (nextX, nextY) ->
  (inBoundsQ nextX nextY = false
   \/ exists t, getTileQ (mapRef w) nextY nextX = Some t /\ isSolid t = true) ->
  exists w',
    update random deltaTime keys w = Done w'
    /\ facing (playerRef w') = d
    /\ x (playerRef w') = x (playerRef w)
    /\ y (playerRef w') = y (playerRef w)
    /\ targetX (playerRef w') = targetX (playerRef w)
    /\ targetY (playerRef w') = targetY (playerRef w)
    /\ isMoving (playerRef w') = false
    /\ isResting (playerRef w') = false.
Proof.
  intros Hcraft Hwf Hmov Hrest Hintent Hnext Hblocked.
  unfold update. rewrite Hcraft.
  change (regenTick deltaTime (restTick keys (saveTick deltaTime w)))
    with (beforeClock deltaTime keys w).
  destruct (beforeClock_frame deltaTime keys w)
    as (Hm1 & _ & _ & Hr1 & Hx1 & Hy1 & Htx1 & Hty1 & Hmov1 & _).
  generalize dependent (beforeClock deltaTime keys w).
  intros w1 Hm1 Hr1 Hx1 Hy1 Htx1 Hty1 Hmov1.
  destruct (timeTick_done random deltaTime w1)
    as (v & -> & Hwfv & Hsolid & _ & Hrv & Hxv & Hyv & Htxv & Htyv & Hmovv);
    [rewrite Hm1; exact Hwf|].
  cbn [bind]. unfold moveTick.
  destruct (getTileZ_safe (mapRef v) (Math_round (x (playerRef v)))
              (Math_round (y (playerRef v))) Hwfv) as [currentTile ->].
  rewrite Hmovv, Hmov1, Hmov, Hrv, Hr1, Hrest, Hintent. cbn [negb].
  assert (nextPos d (playerRef v) = (nextX, nextY)) as ->.
  { rewrite <- Hnext. unfold nextPos.
    rewrite Hxv, Hyv, Hx1, Hy1. reflexivity. }
  assert (forall u : World,
             playerRef u = setFacing d (playerRef v) ->
             facing (playerRef u) = d
             /\ x (playerRef u) = x (playerRef w)
             /\ y (playerRef u) = y (playerRef w)
             /\ targetX (playerRef u) = targetX (playerRef w)
             /\ targetY (playerRef u) = targetY (playerRef w)
             /\ isMoving (playerRef u) = false
             /\ isResting (playerRef u) = false) as Hturned.
  { intros u ->. cbn.
    rewrite Hxv, Hyv, Htxv, Htyv, Hmovv, Hrv, Hx1, Hy1, Htx1, Hty1, Hmov1,
      Hr1.
    splits; auto. }
  destruct (inBoundsQ nextX nextY) eqn:Hb.
  - destruct Hblocked as [Hout | (t & Ht & Hs)]; [discriminate|].
    cbn [mapRef withPlayer].
    unfold getTileQ in *.
    destruct (arrayIndex nextY) as [r|]; [|discriminate].
    destruct (arrayIndex nextX) as [c|]; [|discriminate].
    rewrite <- Hm1 in Ht.
    destruct (Hsolid r c t Ht Hs) as (t' & -> & ->).
    eexists. split; [reflexivity|]. apply Hturned. reflexivity.
  - eexists. split; [reflexivity|]. apply Hturned. reflexivity.
Qed.

Lemma tideSweeps_emit e w :
  tideSweeps (emit e w) =
  (tideSweeps w + if decide (e = TideSweep) then 1 else 0)%nat.
Proof.
  unfold tideSweeps, emit. cbn [trace]. rewrite count_occ_app. simpl.
  destruct (Event_eq_dec e TideSweep), (decide (e = TideSweep));
    try contradiction; reflexivity.
Qed.

Lemma timeTick_rollover (random : nat -> Q) (dt : Q) (w : World) :
  let acc :=
    (timeAccumulatorRef w
     + if isResting (playerRef w) then dt * 20 else dt)%Q in
  wfMap (mapRef w) ->
  (msPerGameMin <= acc)%Q ->
  GAME_MINS_PER_DAY <= timeOfDay (gameStateRef w) + Qfloor (acc / msPerGameMin) ->
  exists v,
    timeTick random dt w = Done v
    /\ timeOfDay (gameStateRef v) =
       timeOfDay (gameStateRef w) + Qfloor (acc / msPerGameMin)
       - GAME_MINS_PER_DAY
    /\ day (gameStateRef v) = day (gameStateRef w) + 1
    /\ tideSweeps v = S (tideSweeps w).
Proof.
  intros acc Hwf Hacc Hday. unfold timeTick. fold acc.
  cbn [timeAccumulatorRef setTimeAccumulator].
  apply Qle_bool_iff in Hacc. rewrite Hacc.
  match goal with |- context [advanceClock ?a] =>
    destruct (advanceClock_frame a) as (Hu & _ & _ & Htr & Hd & Ht & _);
    generalize dependent (advanceClock a); intros u Hu Htr Hd Ht
  end.
  cbn in Hu, Htr, Hd, Ht. fold acc in Ht.
  destruct (minuteBoundary_done u) as (m1 & Hm1 & _ & ->);
    [rewrite Hu; exact Hwf|].
  assert ((GAME_MINS_PER_DAY <=? timeOfDay (gameStateRef u)) = true) as Hroll
    by (apply Z.leb_le; rewrite Ht; exact Hday).
  destruct (Z.rem _ 20 =? 0); cbn [bind].
  - match goal with |- context [dayRollover random ?a] =>
      destruct (dayRollover_done random a) as (m2 & n2 & _ & _ & ->);
        [exact Hm1|]
    end.
    cbn [gameStateRef withMap emit withPlayer]. rewrite Hroll.
    eexists. split; [reflexivity|].
    cbn [gameStateRef saveGame emit setRandomDrawn withMap withGameState
           withPlayer timeOfDay day setDay setTimeOfDay].
    rewrite Ht, Hd. split; [reflexivity|]. split; [reflexivity|].
    unfold tideSweeps.
    cbn [trace saveGame emit setRandomDrawn withMap withGameState withPlayer].
    rewrite Htr, !count_occ_app. simpl. lia.
  - destruct (dayRollover_done random u) as (m2 & n2 & _ & _ & ->);
      [rewrite Hu; exact Hwf|].
    rewrite Hroll.
    eexists. split; [reflexivity|].
    cbn [gameStateRef saveGame emit setRandomDrawn withMap withGameState
           withPlayer timeOfDay day setDay setTimeOfDay].
    rewrite Ht, Hd. split; [reflexivity|]. split; [reflexivity|].
    unfold tideSweeps.
    cbn [trace saveGame emit setRandomDrawn withMap withGameState withPlayer].
    rewrite Htr, !count_occ_app. simpl. lia.
Qed.

(** C5: the day rollover.  In a tick outside the crafting menu, on a
    well-formed grid with the player standing on a tile unless a move is
    in progress, if the clock takes whole minutes out of the accumulator
    and they bring [timeOfDay] to [GAME_MINS_PER_DAY] or beyond, then the
    tick completes with [timeOfDay] lowered by exactly
    [GAME_MINS_PER_DAY] (the minutes past the boundary are kept), [day]
    raised by 1, and one more tide sweep in the trace than before. *)
Theorem day_rollover (random : nat -> Q) (deltaTime : Q) (keys : Keys)
  (w : World) :
  showCrafting w = false ->
  wfMap (mapRef w) ->
  standsOnGrid (playerRef w) ->
  (msPerGameMin <= timeAccumulatorRef w + timeDelta deltaTime keys)%Q ->
  GAME_MINS_PER_DAY
  <= timeOfDay (gameStateRef w) + minutesToAdd deltaTime keys w ->
  exists w',
    update random deltaTime keys w = Done w'
    /\ timeOfDay (gameStateRef w') =
       timeOfDay (gameStateRef w) + minutesToAdd deltaTime keys w
       - GAME_MINS_PER_DAY
    /\ day (gameStateRef w') = day (gameStateRef w) + 1
    /\ tideSweeps w' = S (tideSweeps w).
Proof.
  intros Hcraft Hwf Hgrid Hacc Hday.
  unfold update. rewrite Hcraft.
  change (regenTick deltaTime (restTick keys (saveTick deltaTime w)))
    with (beforeClock deltaTime keys w).
  destruct (beforeClock_frame deltaTime keys w)
    as (Hm1 & Hg1 & Ha1 & Hr1 & Hx1 & Hy1 & _ & _ & Hmov1 & Hts1 & _).
  generalize dependent (beforeClock deltaTime keys w).
  intros w1 Hm1 Hg1 Ha1 Hr1 Hx1 Hy1 Hmov1 Hts1.
  unfold minutesToAdd, timeDelta in *.
  destruct (timeTick_rollover random deltaTime w1)
    as (v & Hrun & Htime & Hdayv & Htides).
  { rewrite Hm1. exact Hwf. }
  { rewrite Ha1, Hr1. exact Hacc. }
  { rewrite Hg1, Ha1, Hr1. exact Hday. }
  destruct (timeTick_done random deltaTime w1)
    as (v' & Hrun' & Hwfv & _ & _ & _ & Hxv & Hyv & _ & _ & Hmovv);
    [rewrite Hm1; exact Hwf|].
  rewrite Hrun in Hrun'. injection Hrun' as <-.
  rewrite Hrun. cbn [bind].
  destruct (moveTick_done keys v Hwfv) as (p' & ->).
  { unfold standsOnGrid. rewrite Hmovv, Hxv, Hyv, Hmov1, Hx1, Hy1.
    exact Hgrid. }
  eexists. split; [reflexivity|].
  cbn [gameStateRef withPlayer]. unfold tideSweeps in *. cbn [trace withPlayer].
  rewrite Htime, Hdayv, Htides, Hg1, Ha1, Hr1, Hts1.
  splits; reflexivity.
Qed.

(** ** Sample worlds are well formed *)

Lemma wfMapb_wf m : wfMapb m = true -> wfMap m.
Proof.
  unfold wfMapb, wfMap. intros H.
  apply andb_true_iff in H as [Hlen Hall].
  apply Nat.eqb_eq in Hlen. split; [exact Hlen|].
  apply Forall_forall. intros r Hr.
  rewrite forallb_forall in Hall.
  apply Nat.eqb_eq. apply Hall. apply list_elem_of_In. exact Hr.
Qed.

Lemma day_rollover_witness :
  exists w',
    update sampleRandom 20000 noKeys lateEvening = Done w'
    /\ timeOfDay (gameStateRef w') = 10
    /\ day (gameStateRef w') = day (gameStateRef lateEvening) + 1
    /\ tideSweeps w' = 1%nat.
Proof.
  destruct (day_rollover sampleRandom 20000 noKeys lateEvening)
    as (w' & Hrun & Htime & Hday & Htides).
  - reflexivity.
  - apply wfMapb_wf. vm_compute. reflexivity.
  - intros _. split; vm_compute; reflexivity.
  - vm_compute. discriminate.
  - vm_compute. discriminate.
  - exists w'. split; [exact Hrun|]. split; [exact Htime|].
    split; [exact Hday | exact Htides].
Defined.

Lemma blocked_move_turns_only_witness :
  exists w',
    update sampleRandom 16 (holding "d") treeOnTheRight = Done w'
    /\ facing (playerRef w') = Right
    /\ x (playerRef w') = x (playerRef treeOnTheRight)
    /\ y (playerRef w') = y (playerRef treeOnTheRight)
    /\ targetX (playerRef w') = targetX (playerRef treeOnTheRight)
    /\ targetY (playerRef w') = targetY (playerRef treeOnTheRight)
    /\ isMoving (playerRef w') = false
    /\ isResting (playerRef w') = false.
Proof.
  apply (blocked_move_turns_only sampleRandom 16 (holding "d") treeOnTheRight
           Right (26 # 1) (25 # 1)).
  - reflexivity.
  - apply wfMapb_wf. vm_compute. reflexivity.
  - reflexivity.
  - reflexivity.
  - reflexivity.
  - vm_compute. reflexivity.
  - right. eexists. split; [vm_compute; reflexivity | reflexivity].
Defined.

(** ** The minute boundary *)

(** C3: a tick that steps over a multiple of 20.  From 08:19 a frame of
    two seconds moves [timeOfDay] from 499 to 501, across 500, and the
    tick completes with hunger untouched and no regrowth sweep in the
    trace: the test [timeOfDay % 20 === 0] looks at the value reached, not
    at the values passed.  The same happens to a player who rests from
    08:19 at ten frames a second: every frame adds two minutes, the clock
    runs 499, 501, ..., 519 and no frame fires the event, although 500 was
    crossed.  A tick that lands on 500 does fire it. *)
Theorem minute_boundary_skipped :
  let stepped := update sampleRandom 2000 noKeys beforeBoundary in
  let rested :=
    run sampleRandom (repeat (Tick 100 (holding "r")) 10) beforeBoundary in
  let landed := update sampleRandom 1000 noKeys beforeBoundary in
  (exists w', stepped = Done w'
     /\ timeOfDay (gameStateRef beforeBoundary) = 499
     /\ timeOfDay (gameStateRef w') = 501
     /\ hunger (playerRef w') = hunger (playerRef beforeBoundary)
     /\ regrowthSweeps w' = 0%nat)
  /\ (timeOfDay (gameStateRef rested) = 519
      /\ hunger (playerRef rested) = hunger (playerRef beforeBoundary)
      /\ regrowthSweeps rested = 0%nat)
  /\ (exists w', landed = Done w'
        /\ timeOfDay (gameStateRef w') = 500
        /\ hunger (playerRef w') == hunger (playerRef beforeBoundary) - 1
        /\ regrowthSweeps w' = 1%nat).
Proof.
  intros stepped rested landed.
  split; [|split].
  - exists (outWorld stepped). vm_compute. splits; reflexivity.
  - vm_compute. splits; reflexivity.
  - exists (outWorld landed). vm_compute. splits; reflexivity.
Qed.

(** ** The tide sweep *)

Lemma tideEligible_true p row col t :
  tideEligible p row col t = true <->
  type t = Sand /\ item t = None /\ placedStructure t = None
  /\ isPlayerHere p row col = false.
Proof.
  unfold tideEligible.
  rewrite !andb_true_iff, !negb_true_iff, bool_decide_eq_true.
  destruct (item t), (placedStructure t); simpl; intuition congruence.
Qed.

Lemma tideWrote_later random w v v' row col t t' :
  (randomDrawn v <= randomDrawn v')%nat ->
  tideWrote random w v row col t t' -> tideWrote random w v' row col t t'.
Proof.
  intros Hle [->|(Hty & Hit & Hps & Hpl & n & it & Hn & Hc & ->)].
  - left. reflexivity.
  - right. splits; try assumption.
    exists n, it. splits; try assumption; try reflexivity; lia.
Qed.

Lemma tideVisit_soFar random w row col tile v :
  tideSoFar random w v ->
  getTile (mapRef v) row col = Some tile ->
  tideSoFar random w (tideVisit random row col tile v).
Proof.
  intros (Hp & Hdrawn & Htiles) Htile. unfold tideVisit.
  destruct (tideEligible _ _ _ _) eqn:Hel;
    [|unfold tideSoFar; splits; assumption].
  assert (forall v', playerRef v' = playerRef v ->
                     randomDrawn v' = S (randomDrawn v) ->
                     mapRef v' = mapRef v ->
                     tideSoFar random w v') as Hdrew.
  { intros v' Hp' Hd' Hm'. split; [congruence|]. split; [lia|].
    intros r c. specialize (Htiles r c). rewrite Hm'.
    destruct (getTile (mapRef w) r c) as [t|]; [|exact Htiles].
    destruct Htiles as (t' & Ht' & Hw). exists t'. split; [exact Ht'|].
    eapply tideWrote_later; [|exact Hw]. lia. }
  destruct (classifyRoll (random (randomDrawn v))) as [it|] eqn:Hroll;
    [|apply Hdrew; reflexivity].
  split; [cbn; exact Hp|]. split; [cbn; lia|].
  intros r c. cbn [mapRef withMap drawRandom setRandomDrawn].
  rewrite getTile_updTile. specialize (Htiles r c).
  case_decide as Hhere.
  - destruct Hhere as [-> ->]. rewrite Htile in *.
    destruct (getTile (mapRef w) row col) as [t|]; [|discriminate].
    destruct Htiles as (t' & [= <-] & Hw).
    apply tideEligible_true in Hel as (Hty & Hit & Hps & Hpl).
    assert (tile = t) as ->.
    { destruct Hw as [->|(_ & _ & _ & _ & n & it' & _ & _ & ->)];
        [reflexivity | discriminate]. }
    eexists. split; [reflexivity|]. right.
    rewrite Hp in Hpl. splits; try assumption.
    exists (randomDrawn v), it. cbn. splits; try assumption; try reflexivity.
    lia.
  - destruct (getTile (mapRef w) r c) as [t|]; [|exact Htiles].
    destruct Htiles as (t' & Ht' & Hw). exists t'. split; [exact Ht'|].
    eapply tideWrote_later; [|exact Hw]. cbn. lia.
Qed.

Lemma triggerTide_soFar random w :
  tideSoFar random w (outWorld (triggerTide random w)).
Proof.
  unfold triggerTide.
  assert (forall v, tideSoFar random (emit TideSweep w) v ->
                    tideSoFar random w v) as Hemit by (intros v Hv; exact Hv).
  apply Hemit.
  apply (forEachTile_inv (tideSoFar random (emit TideSweep w))).
  - intros row col t v Hv Ht. apply tideVisit_soFar; assumption.
  - split; [reflexivity|]. split; [lia|].
    intros row col. destruct (getTile _ row col) as [t|]; [|reflexivity].
    exists t. split; [reflexivity | left; reflexivity].
Qed.

Lemma classifyRoll_bands (roll : Q) :
  (classifyRoll roll = Some driftwood <-> (roll < 0.15)%Q)
  /\ (classifyRoll roll = Some metal <-> (0.88 < roll < 0.98)%Q)
  /\ (classifyRoll roll = Some crate <-> (0.98 < roll)%Q)
  /\ (classifyRoll roll = None <->
      (0.15 <= roll <= 0.88)%Q \/ roll == 0.98)
  /\ (forall it, classifyRoll roll = Some it ->
                 it = driftwood \/ it = metal \/ it = crate).
Proof.
  unfold classifyRoll.
  destruct (Qltb roll 0.15) eqn:E1;
    [apply Qltb_lt in E1 | apply Qltb_ge in E1];
  (destruct (Qltb 0.88 roll) eqn:E2;
    [apply Qltb_lt in E2 | apply Qltb_ge in E2]);
  (destruct (Qltb roll 0.98) eqn:E3;
    [apply Qltb_lt in E3 | apply Qltb_ge in E3]);
  (destruct (Qltb 0.98 roll) eqn:E4;
    [apply Qltb_lt in E4 | apply Qltb_ge in E4]);
  cbn [andb];
  splits;
  try (split; [try discriminate; try (intros _; split); intros; lra
              | try reflexivity; intros; exfalso; lra]);
  try (intros it [= <-]; auto).
  all: try (split; [intros _ | reflexivity]).
  all: try (split; [discriminate | intros [[? ?]|?]; exfalso; lra]).
  all: try (left; split; lra).
  all: try (right; lra).
Qed.

Lemma visited_step r c row col :
  visited r (S c) row col
  = visited r c row col || ((row =? r)%nat && (col =? c)%nat).
Proof.
  unfold visited.
  destruct (Nat.ltb_spec row r), (Nat.eqb_spec row r),
    (Nat.ltb_spec col (S c)), (Nat.ltb_spec col c), (Nat.eqb_spec col c);
    simpl; try reflexivity; lia.
Qed.

Lemma visited_next_row r row col :
  (col < Z.to_nat MAP_WIDTH)%nat ->
  visited r (Z.to_nat MAP_WIDTH) row col = visited (S r) 0 row col.
Proof.
  intros Hcol. unfold visited.
  destruct (Nat.ltb_spec row r), (Nat.eqb_spec row r),
    (Nat.ltb_spec col (Z.to_nat MAP_WIDTH)), (Nat.ltb_spec row (S r)),
    (Nat.eqb_spec row (S r)), (Nat.ltb_spec col 0);
    simpl; try reflexivity; lia.
Qed.

Lemma samplesBefore_step w r c :
  samplesBefore w r (S c)
  = (samplesBefore w r c + if eligibleIn w r c then 1 else 0)%nat.
Proof. unfold samplesBefore. simpl. lia. Qed.

Lemma samplesBefore_next_row w r :
  samplesBefore w r (Z.to_nat MAP_WIDTH) = samplesBefore w (S r) 0.
Proof. unfold samplesBefore. cbn [eligibleInRows eligibleInRow]. lia. Qed.

Lemma tideVisit_upTo random w r c v :
  wfMap (mapRef w) ->
  (r < Z.to_nat MAP_HEIGHT)%nat -> (c < Z.to_nat MAP_WIDTH)%nat ->
  tideUpTo random w r c v ->
  exists t, getTile (mapRef v) r c = Some t
            /\ tideUpTo random w r (S c) (tideVisit random r c t v).
Proof.
  intros Hwf Hr Hc (m & n & -> & Hn & Hm & Hget).
  destruct (wfMap_getTile (mapRef w) r c Hwf Hr Hc) as [t Ht].
  assert (getTile m r c = Some t) as Hhere.
  { rewrite Hget. unfold visited.
    rewrite !Nat.ltb_irrefl, andb_false_r. exact Ht. }
  exists t. split; [exact Hhere|].
  assert (eligibleIn w r c = tideEligible (playerRef w) r c t) as Hel
    by (unfold eligibleIn; rewrite Ht; reflexivity).
  assert (forall m' : list (list Tile),
             wfMap m' ->
             (forall row col,
                 getTile m' row col =
                 if decide (row = r /\ col = c)
                 then Some (tideTile random w r c t)
                 else getTile m row col) ->
             forall row col,
               getTile m' row col =
               if visited r (S c) row col
               then tideTile random w row col <$> getTile (mapRef w) row col
               else getTile (mapRef w) row col) as Hnew.
  { intros m' _ Hm' row col. rewrite Hm', visited_step.
    case_decide as Hd.
    - destruct Hd as [-> ->]. rewrite !Nat.eqb_refl, orb_true_r, Ht.
      reflexivity.
    - rewrite Hget.
      destruct (Nat.eqb_spec row r), (Nat.eqb_spec col c);
        simpl; rewrite ?orb_false_r; try reflexivity.
      exfalso. apply Hd. split; assumption. }
  unfold tideVisit. cbn [playerRef setRandomDrawn withMap emit].
  unfold tideTile in Hnew.
  destruct (tideEligible (playerRef w) r c t) eqn:Helig.
  - cbn [randomDrawn drawRandom setRandomDrawn withMap emit mapRef].
    rewrite <- Hn in Hnew.
    destruct (classifyRoll (random n)) as [it|] eqn:Hroll.
    + exists (updTile r c (setItem (Some it)) m), (S n).
      split; [reflexivity|].
      split; [rewrite samplesBefore_step, Hel; lia|].
      split; [apply updTile_wf; exact Hm|].
      apply Hnew; [apply updTile_wf; exact Hm|].
      intros row col. rewrite getTile_updTile.
      case_decide as Hd; [|reflexivity].
      destruct Hd as [-> ->]. rewrite Hhere. reflexivity.
    + exists m, (S n).
      split; [reflexivity|].
      split; [rewrite samplesBefore_step, Hel; lia|].
      split; [exact Hm|].
      apply Hnew; [exact Hm|].
      intros row col. case_decide as Hd; [|reflexivity].
      destruct Hd as [-> ->]. exact Hhere.
  - exists m, n.
    split; [reflexivity|].
    split; [rewrite samplesBefore_step, Hel; lia|].
    split; [exact Hm|].
    apply Hnew; [exact Hm|].
    intros row col. case_decide as Hd; [|reflexivity].
    destruct Hd as [-> ->]. exact Hhere.
Qed.

Lemma triggerTide_exact random w :
  wfMap (mapRef w) ->
  exists m',
    triggerTide random w
    = Done (setRandomDrawn
              (randomDrawn w + samplesBefore w (Z.to_nat MAP_HEIGHT) 0)
              (withMap m' (emit TideSweep w)))
    /\ wfMap m'
    /\ forall row col,
        getTile m' row col
        = tideTile random w row col <$> getTile (mapRef w) row col.
Proof.
  intros Hwf. unfold triggerTide, forEachTile.
  destruct (forRange_steps (fun r => tideUpTo random w r 0)
              (fun row =>
                 forRange (Z.to_nat MAP_WIDTH) 0
                   (fun col v =>
                      match getTile (mapRef v) row col with
                      | Some tile => Done (tideVisit random row col tile v)
                      | None => TypeError v
                      end))
              (Z.to_nat MAP_HEIGHT) 0%nat (emit TideSweep w))
    as (w' & Hrun & Hfin).
  - exists (mapRef w), (randomDrawn w).
    split; [reflexivity|]. split; [unfold samplesBefore; simpl; lia|].
    split; [exact Hwf|]. intros row col. unfold visited. simpl.
    rewrite andb_false_r. reflexivity.
  - intros r v Hr Hv.
    destruct (forRange_steps (fun c => tideUpTo random w r c)
                (fun col v =>
                   match getTile (mapRef v) r col with
                   | Some tile => Done (tideVisit random r col tile v)
                   | None => TypeError v
                   end)
                (Z.to_nat MAP_WIDTH) 0%nat v) as (v' & Hrow & Hv').
    + exact Hv.
    + intros c u Hc Hu.
      destruct (tideVisit_upTo random w r c u Hwf) as (t & -> & Hnext);
        [lia | lia | exact Hu |].
      eexists. split; [reflexivity | exact Hnext].
    + rewrite Hrow. exists v'. split; [reflexivity|].
      destruct Hv' as (m & n & -> & Hn & Hm & Hget).
      exists m, n. split; [reflexivity|].
      split; [rewrite Hn; simpl; rewrite samplesBefore_next_row; reflexivity|].
      split; [exact Hm|].
      intros row col. rewrite Hget. simpl.
      destruct (Nat.ltb_spec col (Z.to_nat MAP_WIDTH)) as [Hcol|Hcol].
      * rewrite visited_next_row by exact Hcol. reflexivity.
      * rewrite (getTile_None_wide (mapRef w) row col Hwf Hcol).
        destruct (visited _ _ _ _), (visited _ _ _ _); reflexivity.
  - rewrite Hrun. destruct Hfin as (m & n & -> & Hn & Hm & Hget).
    exists m. rewrite Hn. split; [reflexivity|]. split; [exact Hm|].
    intros row col. rewrite Hget. unfold visited. simpl.
    destruct (row <? Z.to_nat MAP_HEIGHT)%nat eqn:E1; simpl; [reflexivity|].
    apply Nat.ltb_ge in E1.
    assert (getTile (mapRef w) row col = None) as ->.
    { destruct (getTile (mapRef w) row col) as [t|] eqn:Ht; [|reflexivity].
      apply getTile_Some_bounds in Ht; [lia | exact Hwf]. }
    destruct (_ && _); reflexivity.
Qed.

Lemma eligibleInRow_mono w row c1 c2 :
  (c1 <= c2)%nat -> (eligibleInRow w row c1 <= eligibleInRow w row c2)%nat.
Proof.
  induction 1 as [|c2 _ IH]; [lia|]. cbn [eligibleInRow]. lia.
Qed.

Lemma eligibleInRows_mono w r1 r2 :
  (r1 <= r2)%nat -> (eligibleInRows w r1 <= eligibleInRows w r2)%nat.
Proof.
  induction 1 as [|r2 _ IH]; [lia|]. cbn [eligibleInRows]. lia.
Qed.

(** An eligible tile has its sample to itself: every tile the loop
    reaches later counts one sample more. *)
Lemma samplesBefore_own w row col row' col' :
  (col < Z.to_nat MAP_WIDTH)%nat ->
  eligibleIn w row col = true ->
  visited row' col' row col = true ->
  (samplesBefore w row col < samplesBefore w row' col')%nat.
Proof.
  intros Hcol Hel Hbefore. unfold samplesBefore, visited in *.
  assert (eligibleInRow w row (S col) = S (eligibleInRow w row col)) as Hown
    by (cbn [eligibleInRow]; rewrite Hel; lia).
  apply orb_true_iff in Hbefore as [Hrow|Hsame].
  - apply Nat.ltb_lt in Hrow.
    pose proof (eligibleInRows_mono w (S row) row' Hrow) as Hrows.
    cbn [eligibleInRows] in Hrows.
    pose proof (eligibleInRow_mono w row (S col) (Z.to_nat MAP_WIDTH) Hcol).
    lia.
  - apply andb_true_iff in Hsame as [Hrow Hlt].
    apply Nat.eqb_eq in Hrow. apply Nat.ltb_lt in Hlt. subst row'.
    pose proof (eligibleInRow_mono w row (S col) col' Hlt). lia.
Qed.

(** C7: what a tide sweep writes.  After [triggerTide], every tile of
    the grid is either exactly as it was, or it was a Sand tile with no
    item and no placed structure, away from the player's rounded position,
    and now differs only in holding one item, the one [classifyRoll] gives
    for one of the samples drawn during this sweep.  [classifyRoll] sorts
    a sample into bands that do not overlap: below 0.15 driftwood, strictly
    between 0.88 and 0.98 metal, above 0.98 crate, and nothing for the
    rest (from 0.15 to 0.88, and 0.98 itself).  On a well-formed grid the
    sweep completes and each tile is settled by its own sample: a tile
    that is not eligible is left as it is and draws nothing; an eligible
    tile is classified by the sample of index [randomDrawn] plus the
    number of eligible tiles the loop has passed before it, gains the
    item of that band or stays empty, and no tile reached later uses that
    sample; the sweep draws one sample for each eligible tile in all. *)
Theorem tide_sweep_writes (random : nat -> Q) (w : World) (row col : nat)
  (t : Tile) :
  getTile (mapRef w) row col = Some t ->
  let w' := outWorld (triggerTide random w) in
  (exists t',
      getTile (mapRef w') row col = Some t'
      /\ (t' = t
          \/ (type t = Sand /\ item t = None /\ placedStructure t = None
              /\ isPlayerHere (playerRef w) row col = false
              /\ exists n it,
                  (randomDrawn w <= n < randomDrawn w')%nat
                  /\ classifyRoll (random n) = Some it
                  /\ t' = setItem (Some it) t)))
  /\ (forall roll,
         (classifyRoll roll = Some driftwood <-> (roll < 0.15)%Q)
         /\ (classifyRoll roll = Some metal <-> (0.88 < roll < 0.98)%Q)
         /\ (classifyRoll roll = Some crate <-> (0.98 < roll)%Q)
         /\ (classifyRoll roll = None <->
             (0.15 <= roll <= 0.88)%Q \/ roll == 0.98)
         /\ (forall it, classifyRoll roll = Some it ->
                        it = driftwood \/ it = metal \/ it = crate))
  /\ (wfMap (mapRef w) ->
      let eligible :=
        bool_decide (type t = Sand)
        && (negb (isTruthy (item t))
            && negb (isPlayerHere (playerRef w) row col)
            && negb (isTruthy (placedStructure t))) in
      let own := (randomDrawn w + samplesBefore w row col)%nat in
      triggerTide random w = Done w'
      /\ getTile (mapRef w') row col
         = Some (if eligible
                 then match classifyRoll (random own) with
                      | Some it => setItem (Some it) t
                      | None => t
                      end
                 else t)
      /\ randomDrawn w'
         = (randomDrawn w + samplesBefore w (Z.to_nat MAP_HEIGHT) 0)%nat
      /\ (eligible = true ->
          (own < randomDrawn w')%nat
          /\ forall row' col',
              visited row' col' row col = true ->
              (own < randomDrawn w + samplesBefore w row' col')%nat)).
Proof.
  intros Ht w'. split; [|split].
  - destruct (triggerTide_soFar random w) as (_ & _ & Htiles).
    specialize (Htiles row col). rewrite Ht in Htiles. exact Htiles.
  - apply classifyRoll_bands.
  - intros Hwf. cbn zeta. subst w'.
    destruct (triggerTide_exact random w Hwf) as (m' & -> & _ & Hget).
    cbn [outWorld mapRef randomDrawn setRandomDrawn withMap].
    split; [reflexivity|].
    split; [rewrite Hget, Ht; reflexivity|].
    split; [reflexivity|].
    intros Hel.
    destruct (getTile_Some_bounds _ _ _ _ Hwf Ht) as [Hrow Hcol].
    assert (eligibleIn w row col = true) as Hin
      by (unfold eligibleIn; rewrite Ht; exact Hel).
    assert (forall row' col',
               visited row' col' row col = true ->
               (randomDrawn w + samplesBefore w row col
                < randomDrawn w + samplesBefore w row' col')%nat) as Hown.
    { intros row' col' Hbefore.
      pose proof (samplesBefore_own w row col row' col' Hcol Hin Hbefore).
      lia. }
    split; [|exact Hown].
    apply Hown. unfold visited. apply orb_true_iff. left.
    apply Nat.ltb_lt. exact Hrow.
Qed.

Lemma tide_sweep_writes_witness :
  let w' := outWorld (triggerTide sampleRandom sampleIsland) in
  let own :=
    (randomDrawn sampleIsland + samplesBefore sampleIsland 25 37)%nat in
  triggerTide sampleRandom sampleIsland = Done w'
  /\ getTile (mapRef sampleIsland) 25 37
     = Some (mkTile Sand None None None (Some 0.5%Q))
  /\ classifyRoll (sampleRandom own) = Some crate
  /\ getTile (mapRef w') 25 37
     = Some (mkTile Sand (Some crate) None None (Some 0.5%Q))
  /\ (own < randomDrawn w')%nat.
Proof.
  intros w' own. subst w' own.
  destruct (tide_sweep_writes sampleRandom sampleIsland 25 37
              (mkTile Sand None None None (Some 0.5%Q)))
    as (_ & _ & Hexact); [vm_compute; reflexivity|].
  destruct Hexact as (Hdone & Hget & _ & Hown);
    [apply wfMapb_wf; vm_compute; reflexivity|].
  destruct Hown as [Hlast _]; [vm_compute; reflexivity|].
  splits.
  - exact Hdone.
  - vm_compute; reflexivity.
  - vm_compute; reflexivity.
  - rewrite Hget; vm_compute; reflexivity.
  - exact Hlast.
Defined.

(** ** Regrowth *)

(** A stump whose timestamp is not 0 turns into a tree, and loses the
    timestamp, exactly when the sweep runs [REGROWTH_TIME] minutes or more
    after the chop; one minute earlier it is left as it is. *)
Lemma checkRegrowth_stump (w : World) (row col : nat) (t : Tile) (T : Z) :
  wfMap (mapRef w) ->
  getTile (mapRef w) row col = Some t ->
  item t = Some tree_stump ->
  stumpChoppedAt t = Some T ->
  T <> 0 ->
  exists w' t',
    checkRegrowth w = Done w'
    /\ getTile (mapRef w') row col = Some t'
    /\ (item t' = Some tree /\ stumpChoppedAt t' = None
        <-> T + REGROWTH_TIME <= totalMinutes (gameStateRef w))
    /\ (totalMinutes (gameStateRef w) < T + REGROWTH_TIME -> t' = t).
Proof.
  intros Hwf Ht Hitem Hstamp HT.
  destruct (checkRegrowth_pointwise w Hwf) as (m' & -> & _ & Hget).
  eexists _, _. split; [reflexivity|].
  cbn [mapRef withMap]. rewrite Hget, Ht. cbn [fmap option_fmap option_map].
  split; [reflexivity|].
  unfold regrowTile. rewrite Hitem, Hstamp.
  rewrite bool_decide_eq_true_2 by reflexivity.
  cbn [truthyNumber andb from_option Datatypes.id].
  apply Z.eqb_neq in HT. rewrite HT. cbn [negb].
  destruct (REGROWTH_TIME <=? totalMinutes (gameStateRef w) - T) eqn:E.
  - apply Z.leb_le in E. cbn. split; [|lia].
    split; [intros _; lia | intros _; split; reflexivity].
  - apply Z.leb_gt in E. split; [|reflexivity].
    rewrite Hitem. split; [intros [[=] _] | lia].
Qed.

Lemma checkRegrowth_stump_witness :
  let stump := mkTile Grass (Some tree_stump) (Some 480) None None in
  let w :=
    withGameState (setTotalMinutes 1919)
      (withMap (updTile 26 25 (fun _ => stump) (mapRef sampleWorld))
         sampleWorld) in
  exists w' t',
    checkRegrowth w = Done w'
    /\ getTile (mapRef w') 26 25 = Some t'
    /\ (item t' = Some tree /\ stumpChoppedAt t' = None
        <-> 480 + REGROWTH_TIME <= totalMinutes (gameStateRef w))
    /\ (totalMinutes (gameStateRef w) < 480 + REGROWTH_TIME -> t' = stump).
Proof.
  intros stump w.
  apply (checkRegrowth_stump w 26 25 stump 480).
  - apply wfMapb_wf. vm_compute. reflexivity.
  - vm_compute. reflexivity.
  - reflexivity.
  - reflexivity.
  - discriminate.
Defined.

(** ** Sessions never throw *)

Lemma isWhole_Qeq (a b : Q) : a == b -> isWhole b -> isWhole a.
Proof.
  unfold isWhole. intros Hab Hb. rewrite Hab. exact Hb.
Qed.

Lemma poseOK_stands p : poseOK p -> standsOnGrid p.
Proof.
  intros (Htx & Hty & Hidle) Hmov.
  destruct (Hidle Hmov) as [Hx Hy].
  split; eapply isWhole_Qeq; eauto.
Qed.

Lemma poseOK_ext p p' :
  x p' = x p -> y p' = y p -> targetX p' = targetX p ->
  targetY p' = targetY p -> isMoving p' = isMoving p ->
  poseOK p -> poseOK p'.
Proof.
  unfold poseOK. intros -> -> -> -> ->. auto.
Qed.

Lemma generateRow_length random n col row drawn :
  length (generateRow random n col row drawn).1 = n.
Proof.
  revert col drawn. induction n as [|n IH]; intros col drawn; simpl.
  - reflexivity.
  - destruct (generateTile random col row drawn) as [t drawn'].
    specialize (IH (col + 1) drawn').
    destruct (generateRow random n (col + 1) row drawn') as [rest drawn''].
    unfold fst in *. simpl in *. rewrite IH. reflexivity.
Qed.

Lemma generateRows_wf random n row drawn :
  length (generateRows random n row drawn).1 = n
  /\ Forall (fun r => length r = Z.to_nat MAP_WIDTH)
       (generateRows random n row drawn).1.
Proof.
  revert row drawn. induction n as [|n IH]; intros row drawn.
  - split; [reflexivity | constructor].
  - cbn [generateRows].
    pose proof (generateRow_length random (Z.to_nat MAP_WIDTH) 0 row drawn)
      as Hrow.
    destruct (generateRow random (Z.to_nat MAP_WIDTH) 0 row drawn)
      as [r drawn'].
    specialize (IH (row + 1) drawn').
    destruct (generateRows random n (row + 1) drawn') as [rest drawn''].
    cbn [fst length] in *. destruct IH as [Hlen Hall].
    split; [rewrite Hlen; reflexivity | constructor; assumption].
Qed.

Lemma freshWorld_wf random : wfWorld (freshWorld random).
Proof.
  unfold freshWorld, generateMap.
  pose proof (generateRows_wf random (Z.to_nat MAP_HEIGHT) 0 0%nat) as Hgen.
  destruct (generateRows random (Z.to_nat MAP_HEIGHT) 0 0%nat) as [m drawn].
  split; [exact Hgen|].
  unfold poseOK, isWhole. cbn.
  splits; try reflexivity; intros _; split; reflexivity.
Qed.

Lemma getTileZ_inBounds m tx ty :
  wfMap m -> inBoundsZ tx ty = true -> is_Some (getTileZ m ty tx).
Proof.
  intros Hwf Hb. unfold inBoundsZ in Hb.
  apply andb_true_iff in Hb as [Hb Hy1].
  apply andb_true_iff in Hb as [Hb Hy0].
  apply andb_true_iff in Hb as [Hx0 Hx1].
  unfold getTileZ. rewrite Hx0, Hy0. simpl.
  apply Z.leb_le in Hx0, Hy0. apply Z.ltb_lt in Hx1, Hy1.
  apply wfMap_getTile; [exact Hwf | |]; lia.
Qed.

Lemma handleUseItem_wf it w : wfWorld w -> wfWorld (handleUseItem it w).
Proof.
  intros [Hm Hp]. unfold handleUseItem.
  set (w1 := match activeItem w with
             | Some a => if decide (a = it) then w else setActiveItem None w
             | None => w
             end).
  assert (wfWorld w1) as Hw1.
  { subst w1. destruct (activeItem w) as [a|]; [|split; assumption].
    case_decide; split; assumption. }
  clearbody w1.
  case_decide; [exact Hw1|].
  destruct (0 <? _); [|exact Hw1].
  destruct (ITEM_PROPS it) as [props|]; [|exact Hw1].
  destruct (edible props); [|exact Hw1].
  destruct Hw1 as [Hm1 Hp1]. split; [exact Hm1|].
  eapply poseOK_ext; [..|exact Hp1]; reflexivity.
Qed.

Lemma handlePlaceItem_wf w :
  wfWorld w -> exists w', handlePlaceItem w = Done w' /\ wfWorld w'.
Proof.
  intros [Hm Hp]. unfold handlePlaceItem.
  destruct (activeItem w) as [a|]; [|exists w; split; [|split]; auto].
  destruct (negb _); [exists w; split; [|split]; auto|].
  destruct (facedTile _) as [tx ty].
  destruct (inBoundsZ tx ty) eqn:Hb; [|exists w; split; [|split]; auto].
  destruct (getTileZ_inBounds (mapRef w) tx ty Hm Hb) as [tile ->].
  destruct (_ && _); [|exists w; split; [|split]; auto].
  eexists. split; [reflexivity|].
  destruct (_ =? 0); (split; [apply updTile_wf; exact Hm | exact Hp]).
Qed.

Lemma handleInteraction_wf w :
  wfWorld w -> exists w', handleInteraction w = Done w' /\ wfWorld w'.
Proof.
  intros [Hm Hp]. unfold handleInteraction.
  destruct (_ || _); [exists w; split; [|split]; auto|].
  destruct (facedTile _) as [tx ty].
  destruct (inBoundsZ tx ty) eqn:Hb; [|exists w; split; [|split]; auto].
  destruct (getTileZ_inBounds (mapRef w) tx ty Hm Hb) as [tile ->].
  destruct (item tile) as [it|]; [|exists w; split; [|split]; auto].
  destruct it; try case_decide;
    (eexists; split; [reflexivity|]);
    (split; [first [exact Hm | apply updTile_wf; exact Hm]
            | first [exact Hp
                    | eapply poseOK_ext; [..|exact Hp]; reflexivity]]).
Qed.

Lemma moveTick_wf keys w :
  wfWorld w -> exists w', moveTick keys w = Done w' /\ wfWorld w'.
Proof.
  intros [Hm Hp].
  assert (wfWorld w) as Hw by (split; assumption).
  pose proof (poseOK_stands _ Hp) as Hgrid.
  destruct Hp as (Htx & Hty & Hidle).
  unfold moveTick.
  destruct (getTileZ_safe (mapRef w) (Math_round (x (playerRef w)))
              (Math_round (y (playerRef w))) Hm) as [currentTile ->].
  destruct (isMoving (playerRef w)) eqn:Hmov.
  - match goal with |- context [if ?c then _ else _] =>
      destruct c eqn:Harrived end.
    + eexists. split; [reflexivity|]. split; [exact Hm|].
      apply andb_true_iff in Harrived as [Hx Hy].
      apply Qeq_bool_iff in Hx, Hy.
      unfold poseOK. cbn in *. splits; try assumption.
      intros _. split; assumption.
    + eexists. split; [reflexivity|]. split; [exact Hm|].
      unfold poseOK. cbn. rewrite Hmov. splits; try assumption.
      discriminate.
  - destruct (Hgrid Hmov) as [Hx Hy].
    destruct (negb _); [|exists w; split; [reflexivity | exact Hw]].
    destruct (moveIntent keys) as [d|];
      [|exists w; split; [reflexivity | exact Hw]].
    destruct (nextPos d (playerRef w)) as [nextX nextY] eqn:Hnext.
    destruct (nextPos_whole d _ _ _ Hx Hy Hnext) as [Hnx Hny].
    assert (wfWorld (withPlayer (setFacing d) w)) as Hturned.
    { split; [exact Hm|]. unfold poseOK. cbn. splits; try assumption.
      intros _. apply Hidle. reflexivity. }
    destruct (inBoundsQ nextX nextY) eqn:Hb;
      [|eexists; split; [reflexivity | exact Hturned]].
    destruct (getTileQ_inBounds (mapRef w) nextX nextY Hm Hnx Hny Hb)
      as [targetTile Ht].
    cbn [mapRef withPlayer]. rewrite Ht.
    destruct (isSolid targetTile);
      [eexists; split; [reflexivity | exact Hturned]|].
    eexists. split; [reflexivity|]. split; [exact Hm|].
    unfold poseOK. cbn. splits; try assumption. discriminate.
Qed.

Lemma update_wf random dt keys w :
  wfWorld w -> exists w', update random dt keys w = Done w' /\ wfWorld w'.
Proof.
  intros [Hm Hp]. unfold update.
  destruct (showCrafting w); [exists w; split; [reflexivity | split; assumption]|].
  change (regenTick dt (restTick keys (saveTick dt w)))
    with (beforeClock dt keys w).
  destruct (beforeClock_frame dt keys w)
    as (Hm1 & _ & _ & _ & Hx1 & Hy1 & Htx1 & Hty1 & Hmov1 & _).
  generalize dependent (beforeClock dt keys w).
  intros w1 Hm1 Hx1 Hy1 Htx1 Hty1 Hmov1.
  destruct (timeTick_done random dt w1)
    as (v & -> & Hwfv & _ & _ & _ & Hxv & Hyv & Htxv & Htyv & Hmovv);
    [rewrite Hm1; exact Hm|].
  cbn [bind]. apply moveTick_wf. split; [exact Hwfv|].
  eapply poseOK_ext; [..|exact Hp]; congruence.
Qed.

Lemma step_wf random a w :
  wfWorld w -> exists w', step random a w = Done w' /\ wfWorld w'.
Proof.
  intros Hw. destruct a; simpl.
  - apply update_wf. exact Hw.
  - unfold handleActionKey. destruct (isPlaceable _).
    + apply handlePlaceItem_wf. exact Hw.
    + apply handleInteraction_wf. exact Hw.
  - eexists. split; [reflexivity | exact Hw].
  - eexists. split; [reflexivity | exact Hw].
  - eexists. split; [reflexivity|]. apply handleUseItem_wf. exact Hw.
  - eexists. split; [reflexivity|].
    unfold handleCraft. destruct (canCraftLoop _ _); exact Hw.
Qed.

(** From a first start, whatever the samples and whatever the player
    does, no handler throws, the grid stays full and the pose whole: the
    well-formedness the statements above ask for holds in every state a
    session reaches. *)
Lemma session_wf random (actions : list Action) (w : World) :
  wfWorld w ->
  wfWorld (run random actions w)
  /\ Forall (fun n => exists w',
                 step random (nth n actions Cancel)
                   (run random (firstn n actions) w) = Done w')
       (seq 0 (length actions)).
Proof.
  revert w. induction actions as [|a rest IH]; intros w Hw; simpl.
  - split; [exact Hw | constructor].
  - destruct (step_wf random a w Hw) as (w' & Hstep & Hw').
    rewrite Hstep. simpl.
    destruct (IH w' Hw') as [Hrun Hall].
    split; [exact Hrun|].
    constructor; [exists w'; exact Hstep|].
    rewrite <- seq_shift. apply Forall_map.
    eapply Forall_impl; [exact Hall|].
    intros n (u & Hu). simpl. rewrite Hstep. simpl. exists u. exact Hu.
Qed.

Lemma session_from_freshWorld random (actions : list Action) :
  wfWorld (run random actions (freshWorld random)).
Proof.
  apply session_wf. apply freshWorld_wf.
Qed.

(** * Further properties of the code *)

(** ** The view *)

Lemma formatTime_readTime :
  forallb (fun t => readTime (formatTime t) =? t) (seqZ 0 GAME_MINS_PER_DAY)
  = true.
Proof.
  vm_compute. reflexivity.
Qed.

(** X1: the clock text is unambiguous within a day.  Two different
    times of day in [0, 1440) are printed differently by [formatTime]. *)
Theorem formatTime_injective_within_day (t1 t2 : Z) :
  0 <= t1 < GAME_MINS_PER_DAY ->
  0 <= t2 < GAME_MINS_PER_DAY ->
  t1 <> t2 ->
  formatTime t1 <> formatTime t2.
Proof.
  intros H1 H2 Hne Heq. apply Hne.
  assert (forall t, 0 <= t < GAME_MINS_PER_DAY ->
                    readTime (formatTime t) = t) as Hread.
  { intros t Ht. pose proof formatTime_readTime as Hall.
    rewrite forallb_forall in Hall. apply Z.eqb_eq. apply Hall.
    apply list_elem_of_In. apply elem_of_seqZ. lia. }
  rewrite <- (Hread t1 H1), <- (Hread t2 H2), Heq. reflexivity.
Qed.

Lemma formatTime_injective_within_day_witness :
  formatTime 480 <> formatTime 1200.
Proof.
  apply (formatTime_injective_within_day 480 1200);
    unfold GAME_MINS_PER_DAY; lia.
Defined.

Lemma cameraAxis_fits (playerPixel canvasSize mapPixelSize : Q) :
  (canvasSize <= mapPixelSize)%Q ->
  (0 <= cameraAxis playerPixel canvasSize mapPixelSize)%Q
  /\ (cameraAxis playerPixel canvasSize mapPixelSize + canvasSize
      <= mapPixelSize)%Q.
Proof.
  intros Hfit. unfold cameraAxis.
  destruct (Qltb mapPixelSize canvasSize) eqn:E;
    [apply Qltb_lt in E; lra|].
  split; [apply Q.le_max_l|].
  assert (Qmax 0 (Qmin (playerPixel - canvasSize / 2)
                    (mapPixelSize - canvasSize))
          <= mapPixelSize - canvasSize)%Q; [|lra].
  apply Q.max_lub; [lra | apply Q.le_min_r].
Qed.

Lemma cameraAxis_wide (playerPixel canvasSize mapPixelSize : Q) :
  (mapPixelSize < canvasSize)%Q ->
  cameraAxis playerPixel canvasSize mapPixelSize
  = ((mapPixelSize - canvasSize) / 2)%Q.
Proof.
  intros Hwide. unfold cameraAxis.
  apply Qltb_lt in Hwide. rewrite Hwide. reflexivity.
Qed.

Lemma cameraAxis_in_view (playerPixel canvasSize mapPixelSize : Q) :
  (0 <= canvasSize)%Q ->
  (0 <= playerPixel <= mapPixelSize)%Q ->
  (cameraAxis playerPixel canvasSize mapPixelSize <= playerPixel)%Q
  /\ (playerPixel
      <= cameraAxis playerPixel canvasSize mapPixelSize + canvasSize)%Q.
Proof.
  intros Hc [Hp0 Hp1]. unfold cameraAxis.
  destruct (Qltb mapPixelSize canvasSize) eqn:E.
  - apply Qltb_lt in E. split.
    + apply Qle_shift_div_r; lra.
    + assert ((mapPixelSize - canvasSize) / 2 + canvasSize
              == (mapPixelSize + canvasSize) / 2)%Q as -> by field.
      apply Qle_shift_div_l; lra.
  - apply Qltb_ge in E.
    set (centred := (playerPixel - canvasSize / 2)%Q).
    assert (centred <= playerPixel)%Q as Hcen.
    { subst centred.
      assert (0 <= canvasSize / 2)%Q by (apply Qle_shift_div_l; lra). lra. }
    assert (playerPixel <= centred + canvasSize)%Q as Hcen'.
    { subst centred.
      assert (canvasSize / 2 <= canvasSize)%Q
        by (apply Qle_shift_div_r; lra). lra. }
    destruct (Q.max_spec 0 (Qmin centred (mapPixelSize - canvasSize)))
      as [[Hlt Hmax]|[Hle Hmax]];
      destruct (Q.min_spec centred (mapPixelSize - canvasSize))
        as [[Hlt' Hmin]|[Hle' Hmin]];
      rewrite Hmax; rewrite ?Hmin in *; split; lra.
Qed.

(** X2: the camera never shows the void.  When the canvas is not larger
    than the map (3200 pixels a side), the viewport [camX, camX + width]
    by [camY, camY + height] lies inside the map; when the canvas is
    larger, the map is centred in it. *)
Theorem camera_stays_on_map (canvasWidth canvasHeight : Q) (p : Player) :
  let camX := (updateCamera canvasWidth canvasHeight p).1 in
  let camY := (updateCamera canvasWidth canvasHeight p).2 in
  let mapPixelWidth := inject_Z (MAP_WIDTH * TILE_SIZE) in
  let mapPixelHeight := inject_Z (MAP_HEIGHT * TILE_SIZE) in
  ((canvasWidth <= mapPixelWidth)%Q ->
   (0 <= camX)%Q /\ (camX + canvasWidth <= mapPixelWidth)%Q)
  /\ ((canvasHeight <= mapPixelHeight)%Q ->
      (0 <= camY)%Q /\ (camY + canvasHeight <= mapPixelHeight)%Q)
  /\ ((mapPixelWidth < canvasWidth)%Q ->
      camX = ((mapPixelWidth - canvasWidth) / 2)%Q)
  /\ ((mapPixelHeight < canvasHeight)%Q ->
      camY = ((mapPixelHeight - canvasHeight) / 2)%Q).
Proof.
  cbn zeta. unfold updateCamera. cbn [fst snd]. splits.
  - apply cameraAxis_fits.
  - apply cameraAxis_fits.
  - apply cameraAxis_wide.
  - apply cameraAxis_wide.
Qed.

Lemma camera_stays_on_map_witness :
  let camX := (updateCamera 1280 720 initialPlayer).1 in
  let camY := (updateCamera 1280 720 initialPlayer).2 in
  ((0 <= camX)%Q /\ (camX + 1280 <= inject_Z (MAP_WIDTH * TILE_SIZE))%Q)
  /\ ((0 <= camY)%Q /\ (camY + 720 <= inject_Z (MAP_HEIGHT * TILE_SIZE))%Q).
Proof.
  intros camX camY.
  pose proof (camera_stays_on_map 1280 720 initialPlayer)
    as (Hx & Hy & _ & _).
  split; [apply Hx | apply Hy]; vm_compute; discriminate.
Defined.

(** X3: the camera keeps the player in view.  For a canvas of
    non-negative size and a player on the map (0 <= x <= 50 and
    0 <= y <= 50 in tiles), the player's pixel position lies in the
    viewport on both axes. *)
Theorem camera_shows_player (canvasWidth canvasHeight : Q) (p : Player) :
  (0 <= canvasWidth)%Q -> (0 <= canvasHeight)%Q ->
  (0 <= x p <= inject_Z MAP_WIDTH)%Q ->
  (0 <= y p <= inject_Z MAP_HEIGHT)%Q ->
  let camX := (updateCamera canvasWidth canvasHeight p).1 in
  let camY := (updateCamera canvasWidth canvasHeight p).2 in
  (camX <= x p * inject_Z TILE_SIZE <= camX + canvasWidth)%Q
  /\ (camY <= y p * inject_Z TILE_SIZE <= camY + canvasHeight)%Q.
Proof.
  intros Hw Hh [Hx0 Hx1] [Hy0 Hy1]. cbn zeta.
  unfold updateCamera. cbn [fst snd].
  assert (0 < inject_Z TILE_SIZE)%Q as Hts by reflexivity.
  rewrite !inject_Z_mult.
  split; (apply cameraAxis_in_view; [assumption|]; split; nra).
Qed.

Lemma camera_shows_player_witness :
  let camX := (updateCamera 1280 720 initialPlayer).1 in
  let camY := (updateCamera 1280 720 initialPlayer).2 in
  (camX <= x initialPlayer * inject_Z TILE_SIZE <= camX + 1280)%Q
  /\ (camY <= y initialPlayer * inject_Z TILE_SIZE <= camY + 720)%Q.
Proof.
  apply (camera_shows_player 1280 720 initialPlayer);
    try split; vm_compute; discriminate.
Defined.

Lemma Qabs_inject_Z (z : Z) : Qabs (inject_Z z) = inject_Z (Z.abs z).
Proof. reflexivity. Qed.

Lemma darkness_scale (q : Q) :
  (0 <= q)%Q ->
  (0 <= q / 720 * 0.8)%Q
  /\ (q / 720 * 0.8 == 0 <-> q == 0)
  /\ ((q / 720 * 0.8 <= 0.8)%Q <-> (q <= 720)%Q).
Proof.
  intros Hq.
  assert (q / 720 * 0.8 == q * (1 # 900))%Q as Heq by field.
  split; [rewrite Heq; lra|].
  split; split; intros H;
    first [rewrite Heq in H; lra | rewrite Heq; lra].
Qed.

(** X4: the night overlay.  Its opacity is never negative, it is 0
    exactly at noon, and it is at most 0.8 exactly when [timeOfDay] lies
    in [0, 1440]: the code has no cap of its own, a [timeOfDay] past the
    end of the day darkens beyond 0.8. *)
Theorem darknessAlpha_range (timeOfDay : Z) :
  (0 <= darknessAlpha timeOfDay)%Q
  /\ (darknessAlpha timeOfDay == 0 <-> timeOfDay = NOON_MINUTES)
  /\ ((darknessAlpha timeOfDay <= 0.8)%Q
      <-> 0 <= timeOfDay <= GAME_MINS_PER_DAY).
Proof.
  unfold darknessAlpha. cbn zeta. rewrite Qabs_inject_Z.
  assert (0 <= inject_Z (Z.abs (timeOfDay - NOON_MINUTES)))%Q as Hdq
    by (change 0%Q with (inject_Z 0); rewrite <- Zle_Qle; lia).
  destruct (darkness_scale _ Hdq) as (H0 & Hzero & Hcap).
  unfold GAME_MINS_PER_DAY, NOON_MINUTES in *.
  split; [exact H0|]. split.
  - rewrite Hzero. change 0%Q with (inject_Z 0).
    rewrite inject_Z_injective. lia.
  - rewrite Hcap. change 720%Q with (inject_Z 720).
    rewrite <- Zle_Qle. lia.
Qed.

(** X5: the ghost preview tells what placing will do.  When the preview
    frames a tile as valid, [handlePlaceItem] completes, puts the active
    item on exactly that tile as its placed structure and takes one of it
    out of the inventory; when the preview frames it as invalid, or draws
    nothing, [handlePlaceItem] leaves the world as it is; and the two
    fail together on a grid that misses the faced tile. *)
Theorem ghost_preview_agrees_with_place (w : World) :
  (forall tx ty,
      ghostPreview w = GhostAt tx ty true ->
      exists a tile w',
        activeItem w = Some a
        /\ getTileZ (mapRef w) ty tx = Some tile
        /\ handlePlaceItem w = Done w'
        /\ getTileZ (mapRef w') ty tx
           = Some (setPlacedStructure (Some a) tile)
        /\ count (inventory (gameStateRef w')) a
           = count (inventory (gameStateRef w)) a - 1)
  /\ (forall tx ty,
         ghostPreview w = GhostAt tx ty false -> handlePlaceItem w = Done w)
  /\ (ghostPreview w = NoGhost -> handlePlaceItem w = Done w)
  /\ (ghostPreview w = GhostTypeError -> handlePlaceItem w = TypeError w).
Proof.
  unfold ghostPreview, handlePlaceItem.
  destruct (activeItem w) as [a|] eqn:Ha;
    [|splits; intros; try discriminate; reflexivity].
  destruct (isPlaceable (Some a)) eqn:Hpl; cbn [negb];
    [|splits; intros; try discriminate; reflexivity].
  destruct (facedTile (playerRef w)) as [fx fy].
  destruct (inBoundsZ fx fy) eqn:Hb;
    [|splits; intros; try discriminate; reflexivity].
  destruct (getTileZ (mapRef w) fy fx) as [tile|] eqn:Ht;
    [|splits; intros; try discriminate; reflexivity].
  destruct (negb (bool_decide (type tile = DeepWater))
            && negb (isTruthy (item tile))
            && negb (isTruthy (placedStructure tile))) eqn:Hvalid;
    [|splits; intros; try discriminate; reflexivity].
  splits; try (intros; discriminate).
  intros tx ty [= <- <-].
  exists a, tile. eexists. split; [reflexivity|]. split; [exact Ht|].
  split; [reflexivity|].
  unfold inBoundsZ in Hb.
  apply andb_true_iff in Hb as [Hb _].
  apply andb_true_iff in Hb as [Hb Hy0].
  apply andb_true_iff in Hb as [Hx0 _].
  unfold getTileZ in *. rewrite Hx0, Hy0 in *. cbn [andb] in *.
  cbn [gameStateRef withMap].
  split.
  - destruct (count (inventory (gameStateRef w)) a - 1 =? 0);
      cbn [mapRef saveGame emit setActiveItem withGameState withMap];
      rewrite getTile_updTile, decide_True by (split; reflexivity);
      rewrite Ht; reflexivity.
  - destruct (count (inventory (gameStateRef w)) a - 1 =? 0) eqn:E;
      cbn [gameStateRef saveGame emit setActiveItem withGameState withMap
             inventory setInventory].
    + apply Z.eqb_eq in E. unfold count at 1.
      rewrite lookup_delete_eq. simpl. lia.
    + rewrite count_insert, decide_True by reflexivity. reflexivity.
Qed.

Lemma ghost_preview_agrees_with_place_witness :
  let w :=
    setActiveItem (Some wall_wood)
      (withGameState (setInventory {[wall_wood := 1]})
         (withMap (updTile 26 25 (setItem None) (mapRef sampleWorld))
            sampleWorld)) in
  exists a tile w',
    activeItem w = Some a
    /\ getTileZ (mapRef w) 26 25 = Some tile
    /\ handlePlaceItem w = Done w'
    /\ getTileZ (mapRef w') 26 25 = Some (setPlacedStructure (Some a) tile)
    /\ count (inventory (gameStateRef w')) a
       = count (inventory (gameStateRef w)) a - 1.
Proof.
  intros w.
  apply (proj1 (ghost_preview_agrees_with_place w) 25 26).
  vm_compute. reflexivity.
Defined.

(** ** What a tick keeps *)

Lemma bind_inv (I : World -> Prop) (o : Outcome) (k : World -> Outcome) :
  I (outWorld o) -> (forall v, o = Done v -> I (outWorld (k v))) ->
  I (outWorld (bind o k)).
Proof.
  intros Ho Hk. destruct o as [v|v]; simpl in *; [apply Hk; reflexivity|].
  exact Ho.
Qed.

Section TickInvariant.

Variable random : nat -> Q.
Variable I : World -> Prop.

Hypothesis I_player : forall f w,
    (forall p, targetX (f p) = targetX p /\ targetY (f p) = targetY p) ->
    I w -> I (withPlayer f w).
Hypothesis I_target : forall w nextX nextY t,
    I w -> getTileQ (mapRef w) nextY nextX = Some t -> isSolid t = false ->
    I (withPlayer
         (fun p => setIsMoving true (setTargetY nextY (setTargetX nextX p)))
         w).
Hypothesis I_game : forall f w,
    (forall g, inventory (f g) = inventory g) -> I w -> I (withGameState f w).
Hypothesis I_accumulator : forall v w, I w -> I (setTimeAccumulator v w).
Hypothesis I_saveTimer : forall v w, I w -> I (setSaveTimer v w).
Hypothesis I_regenTimer : forall v w, I w -> I (setRegenTimer v w).
Hypothesis I_emit : forall e w, I w -> I (emit e w).
Hypothesis I_drawn : forall n w, I w -> I (setRandomDrawn n w).
Hypothesis I_regrow : forall total row col w,
    I w -> I (withMap (updTile row col (regrowTile total) (mapRef w)) w).
Hypothesis I_tide : forall row col tile it w,
    I w -> getTile (mapRef w) row col = Some tile ->
    type tile = Sand -> item tile = None -> placedStructure tile = None ->
    it = driftwood \/ it = metal \/ it = crate ->
    I (withMap (updTile row col (setItem (Some it)) (mapRef w)) w).

Lemma checkRegrowth_keeps w : I w -> I (outWorld (checkRegrowth w)).
Proof.
  intros Hw. unfold checkRegrowth.
  apply forEachTile_inv; [|apply I_emit; exact Hw].
  intros row col t v Hv _. apply I_regrow. exact Hv.
Qed.

Lemma triggerTide_keeps w : I w -> I (outWorld (triggerTide random w)).
Proof.
  intros Hw. unfold triggerTide.
  apply forEachTile_inv; [|apply I_emit; exact Hw].
  intros row col t v Hv Ht. unfold tideVisit.
  destruct (tideEligible _ _ _ _) eqn:Hel; [|exact Hv].
  apply tideEligible_true in Hel as (Hsand & Hitem & Hplaced & _).
  destruct (classifyRoll _) as [it|] eqn:Hroll.
  - apply I_tide with (tile := t); try assumption.
    + apply I_drawn. exact Hv.
    + revert Hroll. unfold classifyRoll.
      repeat match goal with
             | |- context [if ?c then _ else _] => destruct c
             end; intros [= <-]; auto.
  - apply I_drawn. exact Hv.
Qed.

Lemma timeTick_keeps dt w : I w -> I (outWorld (timeTick random dt w)).
Proof.
  intros Hw. unfold timeTick.
  destruct (Qle_bool msPerGameMin _); [|apply I_accumulator; exact Hw].
  apply bind_inv.
  - unfold minuteBoundary.
    match goal with |- context [advanceClock ?a] =>
      assert (I (advanceClock a)) as Hclock
    end.
    { unfold advanceClock. apply I_accumulator.
      apply I_game; [reflexivity|].
      match goal with |- I (if ?c then _ else _) => destruct c end;
        repeat (apply I_game; [reflexivity|]);
        apply I_accumulator; exact Hw. }
    destruct (_ =? 0); [|exact Hclock].
    apply checkRegrowth_keeps. apply I_player; [auto | exact Hclock].
  - intros v Hv.
    assert (I v) as HIv.
    { revert Hv. unfold minuteBoundary.
      match goal with |- context [advanceClock ?a] =>
        assert (I (advanceClock a)) as Hclock
      end.
      { unfold advanceClock. apply I_accumulator.
        apply I_game; [reflexivity|].
        match goal with |- I (if ?c then _ else _) => destruct c end;
          repeat (apply I_game; [reflexivity|]);
          apply I_accumulator; exact Hw. }
      destruct (_ =? 0).
      - intros Hv.
        match type of Hv with ?o = Done v =>
          assert (I (outWorld o)) as Ho
            by (apply checkRegrowth_keeps; apply I_player;
                [auto | exact Hclock]);
          rewrite Hv in Ho
        end.
        exact Ho.
      - intros [= <-]. exact Hclock. }
    unfold dayRollover. destruct (_ <=? _); [|exact HIv].
    apply bind_inv.
    + apply triggerTide_keeps. repeat (apply I_game; [reflexivity|]).
      exact HIv.
    + intros u Hu.
      match type of Hu with ?o = Done u =>
        assert (I (outWorld o)) as Ho
          by (apply triggerTide_keeps;
              repeat (apply I_game; [reflexivity|]); exact HIv);
        rewrite Hu in Ho
      end.
      apply I_emit. exact Ho.
Qed.

Lemma moveTick_keeps keys w : I w -> I (outWorld (moveTick keys w)).
Proof.
  intros Hw. unfold moveTick.
  destruct (getTileZ _ _ _) as [currentTile|]; [|exact Hw].
  destruct (isMoving (playerRef w)).
  - match goal with |- context [if ?c then _ else _] => destruct c end;
      repeat (apply I_player; [auto|]); exact Hw.
  - destruct (negb _); [|exact Hw].
    destruct (moveIntent keys) as [d|]; [|exact Hw].
    destruct (nextPos d _) as [nextX nextY].
    assert (I (withPlayer (setFacing d) w)) as Hturned
      by (apply I_player; [auto | exact Hw]).
    destruct (inBoundsQ _ _); [|exact Hturned].
    destruct (getTileQ _ _ _) as [targetTile|] eqn:Ht; [|exact Hturned].
    destruct (isSolid targetTile) eqn:Hs; [exact Hturned|].
    eapply I_target; eauto.
Qed.

Lemma update_keeps dt keys w :
  I w -> I (outWorld (update random dt keys w)).
Proof.
  intros Hw. unfold update.
  destruct (showCrafting w); [exact Hw|].
  assert (I (regenTick dt (restTick keys (saveTick dt w)))) as Hbefore.
  { unfold regenTick, restTick, saveTick.
    repeat match goal with
           | |- I (if ?c then _ else _) => destruct c
           | |- I (setRegenTimer _ _) => apply I_regenTimer
           | |- I (setSaveTimer _ _) => apply I_saveTimer
           | |- I (withPlayer _ _) => apply I_player; [auto|]
           | |- I (saveGame _) => apply I_emit
           end; exact Hw. }
  apply bind_inv.
  - apply timeTick_keeps. exact Hbefore.
  - intros v Hv. apply moveTick_keeps.
    pose proof (timeTick_keeps dt _ Hbefore) as Ht. rewrite Hv in Ht.
    exact Ht.
Qed.

End TickInvariant.

(** ** The ground never changes *)

Lemma groundKept_refl t : groundKept t t.
Proof. unfold groundKept. auto. Qed.

Lemma groundKept_trans t1 t2 t3 :
  groundKept t1 t2 -> groundKept t2 t3 -> groundKept t1 t3.
Proof.
  unfold groundKept. intros (Ha & Hb & Hc) (Ha' & Hb' & Hc').
  splits; [congruence | congruence | auto].
Qed.

Lemma mapKept_refl m : mapKept m m.
Proof.
  intros row col. destruct (getTile m row col) as [t|]; [|reflexivity].
  exists t. split; [reflexivity | apply groundKept_refl].
Qed.

Lemma mapKept_trans m1 m2 m3 : mapKept m1 m2 -> mapKept m2 m3 -> mapKept m1 m3.
Proof.
  intros H12 H23 row col. specialize (H12 row col). specialize (H23 row col).
  destruct (getTile m1 row col) as [t1|].
  - destruct H12 as (t2 & Ht2 & Hg12). rewrite Ht2 in H23.
    destruct H23 as (t3 & Ht3 & Hg23). exists t3.
    split; [exact Ht3 | eapply groundKept_trans; eauto].
  - rewrite H12 in H23. exact H23.
Qed.

Lemma mapKept_updTile m r c f :
  (forall t, getTile m r c = Some t -> groundKept t (f t)) ->
  mapKept m (updTile r c f m).
Proof.
  intros Hf row col. rewrite getTile_updTile.
  destruct (getTile m row col) as [t|] eqn:Ht.
  - case_decide as Hd; simpl.
    + destruct Hd as [-> ->]. exists (f t). split; [reflexivity | auto].
    + exists t. split; [reflexivity | apply groundKept_refl].
  - case_decide; reflexivity.
Qed.

Lemma regrowTile_ground total t : groundKept t (regrowTile total t).
Proof.
  unfold regrowTile. destruct (_ && _); [|apply groundKept_refl].
  destruct (_ <=? _); [|apply groundKept_refl].
  unfold groundKept. simpl. auto.
Qed.

Lemma update_mapKept random dt keys w :
  mapKept (mapRef w) (mapRef (outWorld (update random dt keys w))).
Proof.
  apply (update_keeps random (fun v => mapKept (mapRef w) (mapRef v)));
    try (intros; assumption); try apply mapKept_refl.
  - intros total row col v Hv. cbn [mapRef withMap].
    eapply mapKept_trans; [exact Hv|].
    apply mapKept_updTile. intros t _. apply regrowTile_ground.
  - intros row col tile it v Hv _ _ _ _ _. cbn [mapRef withMap].
    eapply mapKept_trans; [exact Hv|].
    apply mapKept_updTile. intros t _. unfold groundKept. simpl. auto.
Qed.

Lemma getTileZ_getTile m row col t :
  getTileZ m row col = Some t ->
  getTile m (Z.to_nat row) (Z.to_nat col) = Some t.
Proof.
  unfold getTileZ. destruct (_ && _); [auto | discriminate].
Qed.

Lemma handlePlaceItem_mapKept w :
  mapKept (mapRef w) (mapRef (outWorld (handlePlaceItem w))).
Proof.
  unfold handlePlaceItem.
  destruct (activeItem w) as [a|]; [|apply mapKept_refl].
  destruct (negb _); [apply mapKept_refl|].
  destruct (facedTile _) as [tx ty].
  destruct (inBoundsZ _ _); [|apply mapKept_refl].
  destruct (getTileZ _ _ _) as [tile|] eqn:Ht; [|apply mapKept_refl].
  destruct (_ && _) eqn:Hfree; [|apply mapKept_refl].
  apply getTileZ_getTile in Ht.
  apply andb_true_iff in Hfree as [_ Hnone].
  assert (mapKept (mapRef w)
            (updTile (Z.to_nat ty) (Z.to_nat tx)
               (setPlacedStructure (Some a)) (mapRef w))) as Hkept.
  { apply mapKept_updTile. intros t Ht'. rewrite Ht in Ht'.
    injection Ht' as <-. unfold groundKept. simpl. splits; auto.
    intros s Hs. rewrite Hs in Hnone. discriminate. }
  simpl. destruct (_ =? 0); exact Hkept.
Qed.

Lemma handleInteraction_mapKept w :
  mapKept (mapRef w) (mapRef (outWorld (handleInteraction w))).
Proof.
  unfold handleInteraction.
  destruct (_ || _); [apply mapKept_refl|].
  destruct (facedTile _) as [tx ty].
  destruct (inBoundsZ _ _); [|apply mapKept_refl].
  destruct (getTileZ _ _ _) as [tile|]; [|apply mapKept_refl].
  destruct (item tile) as [it|]; [|apply mapKept_refl].
  destruct it; try case_decide; try apply mapKept_refl;
    cbn [outWorld mapRef saveGame emit withPlayer withGameState withMap];
    apply mapKept_updTile; intros t _; unfold groundKept; simpl; auto.
Qed.

Lemma handleUseItem_map it w : mapRef (handleUseItem it w) = mapRef w.
Proof.
  unfold handleUseItem.
  set (w1 := match activeItem w with
             | Some a => if decide (a = it) then w else setActiveItem None w
             | None => w
             end).
  assert (mapRef w1 = mapRef w) as Hw1.
  { subst w1. destruct (activeItem w) as [a|]; [|reflexivity].
    case_decide; reflexivity. }
  clearbody w1.
  case_decide; [exact Hw1|].
  destruct (0 <? _); [|exact Hw1].
  destruct (ITEM_PROPS it) as [props|]; [|exact Hw1].
  destruct (edible props); exact Hw1.
Qed.

Lemma step_mapKept random a w :
  mapKept (mapRef w) (mapRef (outWorld (step random a w))).
Proof.
  destruct a; simpl.
  - apply update_mapKept.
  - unfold handleActionKey. destruct (isPlaceable _).
    + apply handlePlaceItem_mapKept.
    + apply handleInteraction_mapKept.
  - apply mapKept_refl.
  - apply mapKept_refl.
  - rewrite handleUseItem_map. apply mapKept_refl.
  - unfold handleCraft. destruct (canCraftLoop _ _); apply mapKept_refl.
Qed.

(** X6: the ground is permanent.  Whatever the samples, the ticks and the
    player's actions, every tile of the grid is still there afterwards
    with the type and the variant it had, a tile that held a placed
    structure still holds that structure, and no tile appears where the
    grid had none. *)
Theorem ground_is_permanent (random : nat -> Q) (actions : list Action)
  (w : World) (row col : nat) :
  match getTile (mapRef w) row col with
  | Some t =>
      exists t',
        getTile (mapRef (run random actions w)) row col = Some t'
        /\ type t' = type t
        /\ variant t' = variant t
        /\ (forall s, placedStructure t = Some s ->
                      placedStructure t' = Some s)
  | None => getTile (mapRef (run random actions w)) row col = None
  end.
Proof.
  assert (mapKept (mapRef w) (mapRef (run random actions w))) as Hkept.
  { revert w. induction actions as [|a rest IH]; intros w; simpl.
    - apply mapKept_refl.
    - eapply mapKept_trans; [apply step_mapKept | apply IH]. }
  exact (Hkept row col).
Qed.

(** ** Ticks and the inventory *)

Lemma update_inventory random dt keys w :
  inventory (gameStateRef (outWorld (update random dt keys w)))
  = inventory (gameStateRef w)
  /\ activeItem (outWorld (update random dt keys w)) = activeItem w.
Proof.
  apply (update_keeps random
           (fun v => inventory (gameStateRef v) = inventory (gameStateRef w)
                     /\ activeItem v = activeItem w));
    try (intros; assumption); try (split; reflexivity).
  intros f v Hf [Hinv Hact]. cbn. rewrite Hf. split; assumption.
Qed.

(** X7: a tick never touches the inventory or the active item, whatever
    time has passed, whatever keys are held and whether or not it ends in
    an error: only the player's actions change them. *)
Theorem update_leaves_inventory (random : nat -> Q) (deltaTime : Q)
  (keys : Keys) (w : World) :
  inventory (gameStateRef (outWorld (update random deltaTime keys w)))
  = inventory (gameStateRef w)
  /\ activeItem (outWorld (update random deltaTime keys w)) = activeItem w.
Proof. apply update_inventory. Qed.

(** ** Stock keeping *)

Lemma count_lookup (inv : gmap ItemType Z) it n :
  inv !! it = Some n -> count inv it = n.
Proof. unfold count. intros ->. reflexivity. Qed.

Lemma count_nonneg (inv : gmap ItemType Z) it :
  (forall k n, inv !! k = Some n -> 0 <= n) -> 0 <= count inv it.
Proof.
  intros Hnn. unfold count. destruct (inv !! it) as [n|] eqn:E; simpl.
  - eapply Hnn; eauto.
  - lia.
Qed.

Lemma take_one_nonneg (inv : gmap ItemType Z) it :
  (forall k n, inv !! k = Some n -> 0 <= n) ->
  0 < count inv it ->
  forall k n,
    (if count inv it - 1 =? 0
     then delete it (<[it := count inv it - 1]> inv)
     else <[it := count inv it - 1]> inv) !! k = Some n ->
    0 <= n.
Proof.
  intros Hnn Hc k n.
  destruct (count inv it - 1 =? 0).
  - rewrite lookup_delete. case_decide; [discriminate|].
    rewrite lookup_insert_ne by done. apply Hnn.
  - rewrite lookup_insert. case_decide.
    + intros [= <-]. lia.
    + apply Hnn.
Qed.

Lemma handleUseItem_stocked it w : stocked w -> stocked (handleUseItem it w).
Proof.
  intros [Hnn Hstock]. unfold handleUseItem.
  destruct (decide (activeItem w = Some it)) as [Hact|Hact].
  - rewrite Hact. rewrite decide_True by reflexivity.
    split; [exact Hnn | intros a [=]].
  - set (w1 := match activeItem w with
               | Some a => if decide (a = it) then w else setActiveItem None w
               | None => w
               end).
    assert (inventory (gameStateRef w1) = inventory (gameStateRef w)
            /\ activeItem w1 = None) as [Hinv1 Hact1].
    { subst w1. destruct (activeItem w) as [a|] eqn:Ha; [|auto].
      case_decide; [subst; contradiction | auto]. }
    clearbody w1. rewrite Hinv1.
    assert (stocked w1) as Hw1.
    { split; [rewrite Hinv1; exact Hnn | rewrite Hact1; intros a [=]]. }
    destruct (0 <? count (inventory (gameStateRef w)) it) eqn:E;
      [|exact Hw1].
    apply Z.ltb_lt in E.
    assert (stocked (setActiveItem (Some it) w1)) as Hequip.
    { split; [cbn; rewrite Hinv1; exact Hnn|].
      cbn. intros a [= <-] _. rewrite Hinv1. exact E. }
    destruct (ITEM_PROPS it) as [props|]; [|exact Hequip].
    destruct (edible props); [|exact Hequip].
    split.
    + cbn. apply take_one_nonneg; assumption.
    + cbn. rewrite Hact1. intros a [=].
Qed.

Lemma handlePlaceItem_stocked w :
  stocked w -> stocked (outWorld (handlePlaceItem w)).
Proof.
  intros Hw. pose proof Hw as [Hnn Hstock]. unfold handlePlaceItem.
  destruct (activeItem w) as [a|] eqn:Ha; [|exact Hw].
  destruct (isPlaceable (Some a)) eqn:Hpl; cbn [negb]; [|exact Hw].
  specialize (Hstock a eq_refl Hpl).
  destruct (facedTile _) as [tx ty].
  destruct (inBoundsZ _ _); [|exact Hw].
  destruct (getTileZ _ _ _) as [tile|]; [|exact Hw].
  destruct (_ && _); [|exact Hw].
  cbn [gameStateRef withMap].
  pose proof (take_one_nonneg _ a Hnn Hstock) as Htake.
  destruct (count (inventory (gameStateRef w)) a - 1 =? 0) eqn:E.
  - split; [exact Htake | cbn; intros b [=]].
  - split; [exact Htake|]. cbn. rewrite Ha. intros b [= <-] _.
    rewrite count_insert, decide_True by reflexivity.
    apply Z.eqb_neq in E. lia.
Qed.

Lemma addItem_stocked it n w :
  0 < n -> stocked w -> stocked (withGameState (addItem it n) w).
Proof.
  intros Hn [Hnn Hstock]. split; cbn.
  - intros k m. rewrite lookup_insert. case_decide.
    + intros [= <-]. pose proof (count_nonneg _ it Hnn). lia.
    + apply Hnn.
  - intros a Ha Hpl. specialize (Hstock a Ha Hpl).
    rewrite count_insert. case_decide; [subst; lia | exact Hstock].
Qed.

Lemma handleInteraction_stocked w :
  stocked w -> stocked (outWorld (handleInteraction w)).
Proof.
  intros Hw. unfold handleInteraction.
  destruct (_ || _); [exact Hw|].
  destruct (facedTile _) as [tx ty].
  destruct (inBoundsZ _ _); [|exact Hw].
  destruct (getTileZ _ _ _) as [tile|]; [|exact Hw].
  destruct (item tile) as [it|]; [|exact Hw].
  assert (forall m, stocked (withMap m w)) as Hmap by (intros m; exact Hw).
  assert (forall v, stocked v ->
             stocked (saveGame
                        (withPlayer
                           (fun p => setEnergy (Qmax 0 (energy p - 5)) p) v)))
    as Hsmall by (intros v Hv; exact Hv).
  assert (forall v, stocked v ->
             stocked (saveGame
                        (withPlayer
                           (fun p => setEnergy (Qmax 0 (energy p - 10)) p) v)))
    as Hbig by (intros v Hv; exact Hv).
  destruct it; try case_decide; simpl; try exact Hw;
    first [ apply Hsmall; apply addItem_stocked; [lia | apply Hmap]
          | apply Hbig; apply addItem_stocked; [lia|];
            apply addItem_stocked; [lia | apply Hmap] ].
Qed.

Lemma handleCraft_stocked recipe w :
  0 <= amount recipe ->
  (forall a, isPlaceable (Some a) = true -> ingredients recipe !! a = None) ->
  stocked w -> stocked (handleCraft recipe w).
Proof.
  intros Hamount Hfree [Hnn Hstock]. unfold handleCraft.
  destruct (canCraftLoop _ _) eqn:Hcan; [|split; assumption].
  rewrite canCraftLoop_true in Hcan.
  change (stocked
            (saveGame
               (withGameState
                  (setInventory
                     (craftedInventory recipe (inventory (gameStateRef w))))
                  w))).
  assert (forall k, 0 <= count (inventory (gameStateRef w)) k
                         - count (ingredients recipe) k) as Hleft.
  { intros k. unfold count at 2.
    destruct (ingredients recipe !! k) as [amt|] eqn:E; simpl.
    - apply elem_of_map_to_list in E. apply Hcan in E. lia.
    - pose proof (count_nonneg _ k Hnn). lia. }
  split; cbn.
  - intros k n Hk. apply count_lookup in Hk.
    rewrite craftedInventory_count in Hk.
    specialize (Hleft k). case_decide; lia.
  - intros a Ha Hpl. specialize (Hstock a Ha Hpl).
    rewrite craftedInventory_count.
    unfold count at 2. rewrite (Hfree a Hpl). simpl.
    case_decide; lia.
Qed.

Lemma menu_recipe_stocked recipe w :
  recipe ∈ RECIPES -> stocked w -> stocked (handleCraft recipe w).
Proof.
  intros Hin. apply handleCraft_stocked.
  - unfold RECIPES in Hin. repeat (apply elem_of_cons in Hin as [->|Hin]);
      [simpl; lia .. | inversion Hin].
  - intros a Hpl.
    assert (a = wall_wood) as -> by (destruct a; try discriminate; reflexivity).
    unfold RECIPES in Hin. repeat (apply elem_of_cons in Hin as [->|Hin]);
      [reflexivity .. | inversion Hin].
Qed.

Lemma update_stocked random dt keys w :
  stocked w -> stocked (outWorld (update random dt keys w)).
Proof.
  intros Hw. unfold stocked.
  destruct (update_inventory random dt keys w) as [-> ->]. exact Hw.
Qed.

Lemma step_stocked random a w :
  match a with CraftRecipe recipe => recipe ∈ RECIPES | _ => True end ->
  stocked w -> stocked (outWorld (step random a w)).
Proof.
  intros Ha Hw. destruct a; simpl.
  - apply update_stocked. exact Hw.
  - unfold handleActionKey. destruct (isPlaceable _).
    + apply handlePlaceItem_stocked. exact Hw.
    + apply handleInteraction_stocked. exact Hw.
  - destruct Hw as [Hnn _]. split; [exact Hnn | intros b [=]].
  - destruct Hw as [Hnn _]. split; [exact Hnn | intros b [=]].
  - apply handleUseItem_stocked. exact Hw.
  - apply menu_recipe_stocked; assumption.
Qed.

(** X8: stock keeping.  In a session whose crafts use the recipes of the
    menu, from a state where no count is negative and a placeable active
    item is in stock, no count ever becomes negative and a placeable
    active item is always in stock: placing can never take an item the
    player does not have. *)
Theorem session_keeps_stock (random : nat -> Q) (actions : list Action)
  (w : World) :
  menuRecipes actions -> stocked w -> stocked (run random actions w).
Proof.
  revert w. induction actions as [|a rest IH]; intros w Hmenu Hw; simpl.
  - exact Hw.
  - apply Forall_cons in Hmenu as [Ha Hrest].
    apply IH; [exact Hrest|]. apply step_stocked; assumption.
Qed.

Lemma session_keeps_stock_witness :
  stocked
    (run sampleRandom
       [PressAction; UseItem coconut; CraftRecipe craft_wall_wood;
        UseItem wall_wood; Tick 16 noKeys; PressAction]
       (withGameState (setInventory {[wood := 2]}) sampleIsland)).
Proof.
  apply (session_keeps_stock sampleRandom).
  - unfold menuRecipes. repeat constructor.
  - split.
    + intros it n. destruct it; vm_compute; try discriminate.
      intros [= <-]. discriminate.
    + intros a [=].
Defined.

Lemma handlePlaceItem_positive_stocked w :
  stocked w ->
  positiveCounts (inventory (gameStateRef w)) ->
  positiveCounts (inventory (gameStateRef (outWorld (handlePlaceItem w)))).
Proof.
  intros [_ Hstock] Hpos. unfold handlePlaceItem.
  destruct (activeItem w) as [a|] eqn:Ha; [|exact Hpos].
  destruct (isPlaceable (Some a)) eqn:Hpl; cbn [negb]; [|exact Hpos].
  specialize (Hstock a eq_refl Hpl).
  destruct (facedTile _) as [tx ty].
  destruct (inBoundsZ _ _); [|exact Hpos].
  destruct (getTileZ _ _ _) as [tile|]; [|exact Hpos].
  destruct (_ && _); [|exact Hpos].
  cbn [gameStateRef withMap].
  pose proof (positiveCounts_take _ a Hpos Hstock) as Htake.
  destruct (count (inventory (gameStateRef w)) a - 1 =? 0); exact Htake.
Qed.

Lemma step_positive random a w :
  notCraft a -> stocked w ->
  positiveCounts (inventory (gameStateRef w)) ->
  positiveCounts (inventory (gameStateRef (outWorld (step random a w)))).
Proof.
  intros Ha Hw Hpos. destruct a; simpl.
  - rewrite (proj1 (update_inventory random deltaTime keys w)). exact Hpos.
  - unfold handleActionKey. destruct (isPlaceable _).
    + apply handlePlaceItem_positive_stocked; assumption.
    + apply handleInteraction_positive. exact Hpos.
  - exact Hpos.
  - exact Hpos.
  - apply handleUseItem_positive. exact Hpos.
  - destruct Ha.
Qed.

(** X9: zero entries come from crafting only.  In a session without a
    craft, from an inventory whose counts are all positive (and with a
    placeable active item in stock), the counts are all positive at the
    end: ticks leave them alone, harvesting adds, and eating and placing
    delete the key they bring to 0. *)
Theorem counts_stay_positive_without_craft (random : nat -> Q)
  (actions : list Action) (w : World) :
  Forall notCraft actions ->
  stocked w ->
  positiveCounts (inventory (gameStateRef w)) ->
  positiveCounts (inventory (gameStateRef (run random actions w))).
Proof.
  revert w. induction actions as [|a rest IH]; intros w Hno Hw Hpos; simpl.
  - exact Hpos.
  - apply Forall_cons in Hno as [Ha Hrest].
    apply IH; [exact Hrest | | apply step_positive; assumption].
    apply step_stocked; [destruct a; auto; destruct Ha | exact Hw].
Qed.

Lemma counts_stay_positive_without_craft_witness :
  positiveCounts
    (inventory
       (gameStateRef
          (run sampleRandom
             [UseItem coconut; Tick 16 noKeys; UseItem wall_wood; PressAction]
             (withGameState
                (setInventory (<[coconut := 1]> {[wall_wood := 1]}))
                sampleIsland)))).
Proof.
  apply (counts_stay_positive_without_craft sampleRandom).
  - repeat constructor.
  - split.
    + intros it n. destruct it; vm_compute; try discriminate;
        intros [= <-]; discriminate.
    + intros a [=].
  - intros it n. destruct it; vm_compute; try discriminate;
      intros [= <-]; reflexivity.
Defined.

(** ** Sessions from a first start *)

Lemma mountEffect_fresh random :
  mountEffect random false (freshWorld random)
  = triggerTide random (freshWorld random).
Proof.
  unfold mountEffect, freshWorld.
  destruct (generateMap random 0) as [m drawn]. reflexivity.
Qed.

Lemma firstStart_wf random :
  mountEffect random false (freshWorld random) = Done (firstStart random)
  /\ wfWorld (firstStart random).
Proof.
  unfold firstStart. rewrite mountEffect_fresh.
  destruct (freshWorld_wf random) as [Hmap Hpose].
  destruct (triggerTide_done random (freshWorld random) Hmap)
    as (m' & n' & -> & Hm' & _).
  split; [reflexivity|]. split; [exact Hm' | exact Hpose].
Qed.

(** X10: a session never throws.  From a first start, whatever the samples
    of [Math.random()] and whatever the sequence of ticks and actions,
    the first tide of the mount effect and every single step after it
    complete without a [TypeError], and the grid is still 50 by 50 at the
    end. *)
Theorem fresh_session_never_throws (random : nat -> Q)
  (actions : list Action) :
  mountEffect random false (freshWorld random) = Done (firstStart random)
  /\ Forall (fun n => exists w',
                 step random (nth n actions Cancel)
                   (run random (firstn n actions) (firstStart random))
                 = Done w')
       (seq 0 (length actions))
  /\ wfMap (mapRef (run random actions (firstStart random))).
Proof.
  destruct (firstStart_wf random) as [Hmount Hwf].
  destruct (session_wf random actions (firstStart random) Hwf)
    as [[Hmap _] Hsteps].
  splits; assumption.
Qed.

(** ** The action key *)

Lemma facedTile_other tx ty row col :
  0 <= tx -> 0 <= ty ->
  (Z.of_nat col, Z.of_nat row) <> (tx, ty) ->
  ~ (row = Z.to_nat ty /\ col = Z.to_nat tx).
Proof.
  intros Hx Hy Hne [-> ->]. apply Hne. f_equal; lia.
Qed.

(** X11: the action key reaches one tile only.  Harvesting or placing
    ([KeyE] or [Space]) leaves every tile other than the faced one as it
    was. *)
Theorem action_key_changes_faced_tile_only (w : World) (row col : nat) :
  (Z.of_nat col, Z.of_nat row) <> facedTile (playerRef w) ->
  getTile (mapRef (outWorld (handleActionKey w))) row col
  = getTile (mapRef w) row col.
Proof.
  intros Hother. unfold handleActionKey, handlePlaceItem, handleInteraction.
  destruct (facedTile (playerRef w)) as [tx ty].
  assert (forall f,
             inBoundsZ tx ty = true ->
             getTile (updTile (Z.to_nat ty) (Z.to_nat tx) f (mapRef w)) row col
             = getTile (mapRef w) row col) as Hupd.
  { intros f Hb. unfold inBoundsZ in Hb.
    apply andb_true_iff in Hb as [Hb _].
    apply andb_true_iff in Hb as [Hb Hy0].
    apply andb_true_iff in Hb as [Hx0 _].
    apply Z.leb_le in Hx0, Hy0.
    rewrite getTile_updTile.
    rewrite decide_False by (apply facedTile_other; assumption).
    reflexivity. }
  destruct (isPlaceable (activeItem w)).
  - destruct (activeItem w) as [a|]; [|reflexivity].
    destruct (negb _); [reflexivity|].
    destruct (inBoundsZ tx ty) eqn:Hb; [|reflexivity].
    destruct (getTileZ _ _ _) as [tile|]; [|reflexivity].
    destruct (_ && _); [|reflexivity].
    cbn [gameStateRef withMap].
    destruct (_ =? 0); apply Hupd; reflexivity.
  - destruct (_ || _); [reflexivity|].
    destruct (inBoundsZ tx ty) eqn:Hb; [|reflexivity].
    destruct (getTileZ _ _ _) as [tile|]; [|reflexivity].
    destruct (item tile) as [it|]; [|reflexivity].
    destruct it; try case_decide; try reflexivity; apply Hupd; reflexivity.
Qed.

Lemma action_key_changes_faced_tile_only_witness :
  getTile (mapRef (outWorld (handleActionKey axeAndTree))) 12 25
  = getTile (mapRef axeAndTree) 12 25.
Proof.
  apply (action_key_changes_faced_tile_only axeAndTree 12 25).
  vm_compute. discriminate.
Defined.

(** ** Selecting an item *)

(** X12: a second click deselects.  With no active item, a click on a held
    item that is not edible makes it the active item, and a second click
    on it gives back exactly the world before the first. *)
Theorem handleUseItem_twice (it : ItemType) (w : World) :
  activeItem w = None ->
  0 < count (inventory (gameStateRef w)) it ->
  (forall props, ITEM_PROPS it = Some props -> edible props = false) ->
  activeItem (handleUseItem it w) = Some it
  /\ handleUseItem it (handleUseItem it w) = w.
Proof.
  intros Hnone Hheld Hinedible.
  assert (handleUseItem it w = setActiveItem (Some it) w) as Hfirst.
  { unfold handleUseItem. rewrite Hnone.
    rewrite decide_False by discriminate.
    apply Z.ltb_lt in Hheld. rewrite Hheld.
    destruct (ITEM_PROPS it) as [props|] eqn:Hprops; [|reflexivity].
    rewrite (Hinedible props eq_refl). reflexivity. }
  rewrite Hfirst. split; [reflexivity|].
  unfold handleUseItem. cbn [activeItem setActiveItem].
  rewrite !decide_True by reflexivity.
  destruct w. cbn in *. subst. reflexivity.
Qed.

Lemma handleUseItem_twice_witness :
  let w := withGameState (setInventory {[axe := 1]}) sampleWorld in
  activeItem (handleUseItem axe w) = Some axe
  /\ handleUseItem axe (handleUseItem axe w) = w.
Proof.
  intros w. apply (handleUseItem_twice axe w).
  - reflexivity.
  - vm_compute. reflexivity.
  - intros props [= <-]. reflexivity.
Defined.

(** ** The clock *)

Lemma checkRegrowth_clock w :
  gameStateRef (outWorld (checkRegrowth w)) = gameStateRef w
  /\ timeAccumulatorRef (outWorld (checkRegrowth w)) = timeAccumulatorRef w.
Proof.
  unfold checkRegrowth.
  rewrite (forEachTile_frame gameStateRef) by reflexivity.
  rewrite (forEachTile_frame timeAccumulatorRef) by reflexivity.
  split; reflexivity.
Qed.

Lemma triggerTide_clock random w :
  gameStateRef (outWorld (triggerTide random w)) = gameStateRef w
  /\ timeAccumulatorRef (outWorld (triggerTide random w))
     = timeAccumulatorRef w.
Proof.
  assert (forall A (proj : World -> A),
             (forall v m, proj (withMap m v) = proj v) ->
             (forall v n, proj (setRandomDrawn n v) = proj v) ->
             forall row col t v, proj (tideVisit random row col t v) = proj v)
    as Hvisit.
  { intros A proj Hm Hn row col t v. unfold tideVisit, drawRandom.
    destruct (tideEligible _ _ _ _); [|reflexivity].
    destruct (classifyRoll _); rewrite ?Hm, ?Hn; reflexivity. }
  unfold triggerTide.
  rewrite (forEachTile_frame gameStateRef) by (apply Hvisit; reflexivity).
  rewrite (forEachTile_frame timeAccumulatorRef)
    by (apply Hvisit; reflexivity).
  split; reflexivity.
Qed.

Lemma advanceClock_total w :
  totalMinutes (gameStateRef (advanceClock w))
  = (if totalMinutes (gameStateRef w) =? 0
     then day (gameStateRef w) * GAME_MINS_PER_DAY
          + (timeOfDay (gameStateRef w)
             + Qfloor (timeAccumulatorRef w / msPerGameMin))
     else totalMinutes (gameStateRef w))
    + Qfloor (timeAccumulatorRef w / msPerGameMin)
  /\ timeAccumulatorRef (advanceClock w)
     = jsRem (timeAccumulatorRef w) msPerGameMin.
Proof.
  unfold advanceClock. cbn.
  destruct (totalMinutes (gameStateRef w) =? 0); cbn; split; reflexivity.
Qed.

(** What the clock makes of the game state and of the accumulator,
    whether or not a sweep throws. *)
Lemma timeTick_clock random dt w :
  let acc :=
    (timeAccumulatorRef w
     + if isResting (playerRef w) then dt * 20 else dt)%Q in
  let g := gameStateRef w in
  let r := outWorld (timeTick random dt w) in
  inventory (gameStateRef r) = inventory g
  /\ if Qle_bool msPerGameMin acc then
       let m := Qfloor (acc / msPerGameMin) in
       timeAccumulatorRef r = jsRem acc msPerGameMin
       /\ totalMinutes (gameStateRef r)
          = (if totalMinutes g =? 0
             then day g * GAME_MINS_PER_DAY + (timeOfDay g + m)
             else totalMinutes g) + m
       /\ ((day (gameStateRef r) = day g
            /\ timeOfDay (gameStateRef r) = timeOfDay g + m
            /\ ((exists v, timeTick random dt w = Done v) ->
                timeOfDay g + m < GAME_MINS_PER_DAY))
           \/ (GAME_MINS_PER_DAY <= timeOfDay g + m
               /\ day (gameStateRef r) = day g + 1
               /\ timeOfDay (gameStateRef r)
                  = timeOfDay g + m - GAME_MINS_PER_DAY))
     else timeAccumulatorRef r = acc /\ gameStateRef r = g.
Proof.
  intros acc g r. subst r. unfold timeTick. fold acc.
  cbn [timeAccumulatorRef setTimeAccumulator].
  destruct (Qle_bool msPerGameMin acc); [|cbn; auto].
  match goal with |- context [advanceClock ?a] =>
    destruct (advanceClock_frame a) as (_ & _ & _ & _ & Hd & Ht & Hi);
    destruct (advanceClock_total a) as (Htot & Hacc);
    generalize dependent (advanceClock a); intros u Hd Ht Hi Htot Hacc
  end.
  cbn [gameStateRef timeAccumulatorRef setTimeAccumulator playerRef]
    in Hd, Ht, Hi, Htot, Hacc.
  fold g in Hd, Ht, Hi, Htot.
  assert (gameStateRef (outWorld (minuteBoundary u)) = gameStateRef u
          /\ timeAccumulatorRef (outWorld (minuteBoundary u))
             = timeAccumulatorRef u) as [Hg1 Ha1].
  { unfold minuteBoundary. destruct (Z.rem _ 20 =? 0); [|auto].
    match goal with |- context [checkRegrowth ?a] =>
      destruct (checkRegrowth_clock a) as [-> ->] end.
    auto. }
  destruct (minuteBoundary u) as [v|v]; cbn [bind outWorld] in *.
  - unfold dayRollover. rewrite Hg1, Ht.
    destruct (GAME_MINS_PER_DAY <=? timeOfDay g + _) eqn:Hroll.
    + apply Z.leb_le in Hroll.
      match goal with |- context [triggerTide random ?a] =>
        destruct (triggerTide_clock random a) as [Hg2 Ha2];
        destruct (triggerTide random a) as [v'|v']
      end; cbn [bind outWorld saveGame emit gameStateRef timeAccumulatorRef]
             in *;
        rewrite Hg2, Ha2; cbn; rewrite Hg1, Ha1, Hi, Htot, Hacc, Hd, Ht;
        splits; auto.
    + apply Z.leb_gt in Hroll. cbn [outWorld].
      rewrite Hg1, Ha1, Hi, Htot, Hacc, Hd, Ht. splits; auto.
  - rewrite Hg1, Ha1, Hi, Htot, Hacc, Hd, Ht. splits; auto.
    left. splits; auto. intros [v' [=]].
Qed.

Lemma moveTick_frame keys w :
  exists p', outWorld (moveTick keys w) = withPlayer (fun _ => p') w.
Proof.
  assert (exists p', w = withPlayer (fun _ => p') w) as Hsame
    by (exists (playerRef w); destruct w; reflexivity).
  unfold moveTick.
  destruct (getTileZ _ _ _) as [currentTile|]; [|exact Hsame].
  destruct (isMoving (playerRef w)).
  - match goal with |- context [if ?c then _ else _] => destruct c end;
      match goal with |- exists p', outWorld (Done ?v) = _ =>
        exists (playerRef v); reflexivity end.
  - destruct (negb _); [|exact Hsame].
    destruct (moveIntent keys) as [d|]; [|exact Hsame].
    destruct (nextPos d _) as [nextX nextY].
    destruct (inBoundsQ _ _);
      [|exists (playerRef (withPlayer (setFacing d) w)); reflexivity].
    destruct (getTileQ _ _ _) as [targetTile|];
      [|exists (playerRef (withPlayer (setFacing d) w)); reflexivity].
    destruct (isSolid targetTile);
      match goal with |- exists p', outWorld (Done ?v) = _ =>
        exists (playerRef v); reflexivity end.
Qed.

(** The clock part of a whole tick. *)
Lemma update_clock random dt keys w :
  showCrafting w = false ->
  let acc := (timeAccumulatorRef w + timeDelta dt keys)%Q in
  let g := gameStateRef w in
  let r := outWorld (update random dt keys w) in
  if Qle_bool msPerGameMin acc then
    let m := Qfloor (acc / msPerGameMin) in
    timeAccumulatorRef r = jsRem acc msPerGameMin
    /\ totalMinutes (gameStateRef r)
       = (if totalMinutes g =? 0
          then day g * GAME_MINS_PER_DAY + (timeOfDay g + m)
          else totalMinutes g) + m
    /\ ((day (gameStateRef r) = day g
         /\ timeOfDay (gameStateRef r) = timeOfDay g + m
         /\ ((exists v, update random dt keys w = Done v) ->
             timeOfDay g + m < GAME_MINS_PER_DAY))
        \/ (GAME_MINS_PER_DAY <= timeOfDay g + m
            /\ day (gameStateRef r) = day g + 1
            /\ timeOfDay (gameStateRef r)
               = timeOfDay g + m - GAME_MINS_PER_DAY))
  else timeAccumulatorRef r = acc /\ gameStateRef r = g.
Proof.
  intros Hcraft acc g r. subst r. unfold update. rewrite Hcraft.
  change (regenTick dt (restTick keys (saveTick dt w)))
    with (beforeClock dt keys w).
  destruct (beforeClock_frame dt keys w) as (_ & Hg1 & Ha1 & Hr1 & _).
  pose proof (timeTick_clock random dt (beforeClock dt keys w)) as Hclock.
  cbn zeta in Hclock. rewrite Hg1, Ha1, Hr1 in Hclock.
  fold (timeDelta dt keys) in Hclock. fold acc g in Hclock.
  destruct Hclock as [_ Hclock].
  destruct (timeTick random dt (beforeClock dt keys w)) as [v|v] eqn:Htick;
    cbn [bind outWorld] in *.
  - destruct (moveTick_frame keys v) as (p' & Hmove).
    assert (gameStateRef (outWorld (moveTick keys v)) = gameStateRef v
            /\ timeAccumulatorRef (outWorld (moveTick keys v))
               = timeAccumulatorRef v) as [-> ->]
      by (rewrite Hmove; split; reflexivity).
    destruct (Qle_bool msPerGameMin acc); [|exact Hclock].
    destruct Hclock as (Hacc & Htot & Hcases).
    splits; [exact Hacc | exact Htot|].
    destruct Hcases as [(Hd & Ht & Hlt)|Hrolled]; [left | right; exact Hrolled].
    splits; [exact Hd | exact Ht|]. intros _. apply Hlt. eauto.
  - destruct (Qle_bool msPerGameMin acc); [|exact Hclock].
    destruct Hclock as (Hacc & Htot & Hcases).
    splits; [exact Hacc | exact Htot|].
    destruct Hcases as [(Hd & Ht & Hlt)|Hrolled]; [left | right; exact Hrolled].
    splits; [exact Hd | exact Ht|]. intros [v' [=]].
Qed.

Lemma minutes_positive (acc : Q) :
  (msPerGameMin <= acc)%Q -> 1 <= Qfloor (acc / msPerGameMin).
Proof.
  intros Hacc. rewrite <- (Qfloor_Z 1). apply Qfloor_resp_le.
  apply Qle_shift_div_l; [reflexivity|].
  change (inject_Z 1 * msPerGameMin)%Q with (1 * msPerGameMin)%Q. lra.
Qed.

Lemma Qtrunc_floor (q : Q) : (0 <= q)%Q -> Qtrunc q = Qfloor q.
Proof.
  destruct q as [n d]. unfold Qle, Qtrunc, Qfloor. simpl. intros Hn.
  apply Z.quot_div_nonneg; lia.
Qed.

Lemma jsRem_floor (acc : Q) :
  (0 <= acc)%Q ->
  (jsRem acc msPerGameMin
   == acc - msPerGameMin * inject_Z (Qfloor (acc / msPerGameMin)))%Q.
Proof.
  intros Hacc. unfold jsRem. rewrite Qtrunc_floor; [reflexivity|].
  apply Qle_shift_div_l; [reflexivity | lra].
Qed.

Lemma jsRem_range (acc : Q) :
  (0 <= acc)%Q -> (0 <= jsRem acc msPerGameMin < msPerGameMin)%Q.
Proof.
  intros Hacc. rewrite jsRem_floor by exact Hacc.
  pose proof (Qfloor_le (acc / msPerGameMin)) as Hlo.
  pose proof (Qlt_floor (acc / msPerGameMin)) as Hhi.
  rewrite inject_Z_plus in Hhi.
  assert (acc == acc / msPerGameMin * msPerGameMin)%Q as Hdiv
    by (field; discriminate).
  assert (0 < msPerGameMin)%Q as Hpos by reflexivity.
  set (f := inject_Z (Qfloor (acc / msPerGameMin))) in *.
  set (q := (acc / msPerGameMin)%Q) in *.
  change (inject_Z 1) with 1%Q in Hhi.
  split.
  - rewrite Hdiv at 1. nra.
  - rewrite Hdiv at 1. nra.
Qed.

Lemma handler_clock random a w :
  ~ isTick a ->
  day (gameStateRef (outWorld (step random a w))) = day (gameStateRef w)
  /\ timeOfDay (gameStateRef (outWorld (step random a w)))
     = timeOfDay (gameStateRef w)
  /\ totalMinutes (gameStateRef (outWorld (step random a w)))
     = totalMinutes (gameStateRef w)
  /\ timeAccumulatorRef (outWorld (step random a w)) = timeAccumulatorRef w.
Proof.
  intros Ha. destruct a; simpl.
  - destruct Ha. exact Logic.I.
  - unfold handleActionKey, handlePlaceItem, handleInteraction.
    destruct (isPlaceable _).
    + destruct (activeItem w) as [a|]; [|auto].
      destruct (negb _); [auto|].
      destruct (facedTile _) as [tx ty].
      destruct (inBoundsZ _ _); [|auto].
      destruct (getTileZ _ _ _) as [tile|]; [|auto].
      destruct (_ && _); [|auto].
      cbn [gameStateRef withMap]. destruct (_ =? 0); cbn; auto.
    + destruct (_ || _); [auto|].
      destruct (facedTile _) as [tx ty].
      destruct (inBoundsZ _ _); [|auto].
      destruct (getTileZ _ _ _) as [tile|]; [|auto].
      destruct (item tile) as [it|]; [|auto].
      destruct it; try case_decide; cbn; auto.
  - auto.
  - auto.
  - unfold handleUseItem.
    set (w1 := match activeItem w with
               | Some a => if decide (a = it) then w else setActiveItem None w
               | None => w
               end).
    assert (gameStateRef w1 = gameStateRef w
            /\ timeAccumulatorRef w1 = timeAccumulatorRef w) as [Hg Ha1].
    { subst w1. destruct (activeItem w) as [a|]; [|auto].
      case_decide; auto. }
    clearbody w1.
    case_decide; [cbn; rewrite Hg, Ha1; auto|].
    destruct (0 <? _); [|rewrite Hg, Ha1; auto].
    destruct (ITEM_PROPS it) as [props|]; [|cbn; rewrite Hg, Ha1; auto].
    destruct (edible props); cbn; rewrite ?Hg, Ha1; auto.
  - unfold handleCraft. destruct (canCraftLoop _ _); cbn; auto.
Qed.

Lemma step_clockOK random a w :
  clockOK (gameStateRef w) ->
  clockOK (gameStateRef (outWorld (step random a w)))
  /\ day (gameStateRef w) <= day (gameStateRef (outWorld (step random a w)))
  /\ totalMinutes (gameStateRef w)
     <= totalMinutes (gameStateRef (outWorld (step random a w))).
Proof.
  intros (Hd & Ht & Htot). unfold clockOK.
  destruct a as [dt keys| | | |it|recipe].
  - simpl. destruct (showCrafting w) eqn:Hcraft.
    + unfold update. rewrite Hcraft. simpl. unfold clockOK. lia.
    + pose proof (update_clock random dt keys w Hcraft) as Hclock.
      cbn zeta in Hclock.
      destruct (Qle_bool msPerGameMin _) eqn:Hacc.
      * apply Qle_bool_iff in Hacc. apply minutes_positive in Hacc.
        destruct Hclock as (_ & Htot' & Hcases).
        unfold clockOK. rewrite Htot'. unfold GAME_MINS_PER_DAY in *.
        destruct (totalMinutes (gameStateRef w) =? 0) eqn:E;
          [apply Z.eqb_eq in E|];
          destruct Hcases as [(-> & -> & _)|(Hroll & -> & ->)]; lia.
      * destruct Hclock as [_ ->]. unfold clockOK. lia.
  - destruct (handler_clock random PressAction w) as (-> & H2 & -> & _);
      [auto|]. unfold clockOK. rewrite H2. lia.
  - destruct (handler_clock random ToggleCraftMenu w) as (-> & H2 & -> & _);
      [auto|]. unfold clockOK. rewrite H2. lia.
  - destruct (handler_clock random Cancel w) as (-> & H2 & -> & _);
      [auto|]. unfold clockOK. rewrite H2. lia.
  - destruct (handler_clock random (UseItem it) w) as (-> & H2 & -> & _);
      [auto|]. unfold clockOK. rewrite H2. lia.
  - destruct (handler_clock random (CraftRecipe recipe) w)
      as (-> & H2 & -> & _); [auto|]. unfold clockOK. rewrite H2. lia.
Qed.

(** X13: the clock never runs backwards.  From a game state with
    [day >= 1], [timeOfDay >= 0] and [totalMinutes >= 0], after any
    session (any frame lengths, negative ones included) the three still
    hold, and neither [day] nor [totalMinutes] is smaller than it was. *)
Theorem clock_never_runs_backwards (random : nat -> Q)
  (actions : list Action) (w : World) :
  clockOK (gameStateRef w) ->
  clockOK (gameStateRef (run random actions w))
  /\ day (gameStateRef w) <= day (gameStateRef (run random actions w))
  /\ totalMinutes (gameStateRef w)
     <= totalMinutes (gameStateRef (run random actions w)).
Proof.
  revert w. induction actions as [|a rest IH]; intros w Hw; simpl.
  - splits; [exact Hw | lia | lia].
  - destruct (step_clockOK random a w Hw) as (Hok & Hday & Htot).
    destruct (IH _ Hok) as (Hok' & Hday' & Htot').
    splits; [exact Hok' | lia | lia].
Qed.

Lemma clock_never_runs_backwards_witness :
  let w' :=
    run sampleRandom
      [Tick 86400000 noKeys; Tick (-5000) (holding "r"); PressAction]
      sampleWorld in
  clockOK (gameStateRef w')
  /\ day (gameStateRef sampleWorld) <= day (gameStateRef w')
  /\ totalMinutes (gameStateRef sampleWorld) <= totalMinutes (gameStateRef w').
Proof.
  apply (clock_never_runs_backwards sampleRandom _ sampleWorld).
  unfold clockOK. vm_compute. splits; discriminate.
Defined.

Lemma step_withinDay random a w :
  wfWorld w -> frameBounded a -> withinDay w ->
  withinDay (outWorld (step random a w)).
Proof.
  intros Hwf Hframe [Htod Hacc]. unfold withinDay.
  destruct a as [dt keys| | | |it|recipe].
  - simpl. simpl in Hframe.
    destruct (showCrafting w) eqn:Hcraft.
    { unfold update. rewrite Hcraft. simpl. split; assumption. }
    destruct (update_wf random dt keys w Hwf) as (w' & Hdone & _).
    pose proof (update_clock random dt keys w Hcraft) as Hclock.
    cbn zeta in Hclock.
    assert (0 <= timeDelta dt keys <= 1440000)%Q as Hdelta.
    { unfold timeDelta. destruct (_ || _); lra. }
    assert (msPerGameMin == 1000)%Q as Hms by reflexivity.
    set (acc := (timeAccumulatorRef w + timeDelta dt keys)%Q) in *.
    assert (0 <= acc < 1441000)%Q as Haccr by (subst acc; lra).
    destruct (Qle_bool msPerGameMin acc) eqn:Hfull.
    + apply Qle_bool_iff in Hfull.
      pose proof (minutes_positive acc Hfull) as Hm1.
      assert (Qfloor (acc / msPerGameMin) <= 1440) as Hm2.
      { assert (Qfloor (acc / msPerGameMin) < 1441); [|lia].
        rewrite Zlt_Qlt.
        eapply Qle_lt_trans; [apply Qfloor_le|].
        apply Qlt_shift_div_r; [reflexivity|].
        change (inject_Z 1441) with 1441%Q. lra. }
      destruct Hclock as (-> & _ & Hcases).
      split; [|apply jsRem_range; lra].
      unfold GAME_MINS_PER_DAY in *.
      destruct Hcases as [(_ & -> & Hlt)|(Hroll & _ & ->)]; [|lia].
      specialize (Hlt (ex_intro _ w' Hdone)). lia.
    + apply Qle_bool_gt in Hfull.
      destruct Hclock as [-> ->]. split; [exact Htod | lra].
  - destruct (handler_clock random PressAction w) as (_ & -> & _ & ->);
      [auto | split; assumption].
  - destruct (handler_clock random ToggleCraftMenu w) as (_ & -> & _ & ->);
      [auto | split; assumption].
  - destruct (handler_clock random Cancel w) as (_ & -> & _ & ->);
      [auto | split; assumption].
  - destruct (handler_clock random (UseItem it) w) as (_ & -> & _ & ->);
      [auto | split; assumption].
  - destruct (handler_clock random (CraftRecipe recipe) w)
      as (_ & -> & _ & ->); [auto | split; assumption].
Qed.

(** X14: the clock stays within the day.  From a well-formed world whose
    [timeOfDay] is in [0, 1440) and whose accumulator is in [0, 1000), a
    session in which no frame is longer than 72 seconds (and none is
    negative) keeps both in these ranges: the rollover brings every
    overflow back into the day. *)
Theorem clock_stays_within_day (random : nat -> Q) (actions : list Action)
  (w : World) :
  wfWorld w -> Forall frameBounded actions -> withinDay w ->
  withinDay (run random actions w).
Proof.
  revert w. induction actions as [|a rest IH]; intros w Hwf Hall Hw; simpl.
  - exact Hw.
  - apply Forall_cons in Hall as [Ha Hrest].
    destruct (step_wf random a w Hwf) as (w' & Hstep & Hwf').
    pose proof (step_withinDay random a w Hwf Ha Hw) as Hday.
    rewrite Hstep in *. simpl in *. apply IH; assumption.
Qed.

Lemma clock_stays_within_day_witness :
  withinDay
    (run sampleRandom
       [Tick 72000 (holding "r"); Tick 16 noKeys; PressAction;
        Tick 72000 (holding "r")]
       lateEvening).
Proof.
  apply (clock_stays_within_day sampleRandom).
  - split; [apply wfMapb_wf; vm_compute; reflexivity|].
    unfold poseOK, isWhole. vm_compute. splits; try reflexivity.
    intros _. split; reflexivity.
  - repeat constructor; vm_compute; discriminate.
  - split; split; vm_compute; try discriminate; reflexivity.
Defined.

(** X15: a tick accounts for all the time it is given (in exact
    arithmetic).  Outside the crafting menu, with a time baseline already
    set ([totalMinutes] not 0) and a non-negative accumulated time, the
    game time held in [totalMinutes] and the accumulator together,
    in milliseconds, grows by exactly the elapsed time fed to the clock
    (the frame time, times 20 when resting), whether or not a sweep
    throws. *)
Theorem tick_conserves_time (random : nat -> Q) (deltaTime : Q)
  (keys : Keys) (w : World) :
  showCrafting w = false ->
  totalMinutes (gameStateRef w) <> 0 ->
  (0 <= timeAccumulatorRef w + timeDelta deltaTime keys)%Q ->
  let w' := outWorld (update random deltaTime keys w) in
  (inject_Z (totalMinutes (gameStateRef w')) * msPerGameMin
   + timeAccumulatorRef w'
   == inject_Z (totalMinutes (gameStateRef w)) * msPerGameMin
      + timeAccumulatorRef w + timeDelta deltaTime keys)%Q.
Proof.
  intros Hcraft Hbase Hacc w'. subst w'.
  pose proof (update_clock random deltaTime keys w Hcraft) as Hclock.
  cbn zeta in Hclock.
  set (acc := (timeAccumulatorRef w + timeDelta deltaTime keys)%Q) in *.
  destruct (Qle_bool msPerGameMin acc).
  - destruct Hclock as (-> & -> & _).
    apply Z.eqb_neq in Hbase. rewrite Hbase.
    rewrite jsRem_floor by exact Hacc.
    rewrite inject_Z_plus. subst acc. ring.
  - destruct Hclock as [-> ->]. subst acc. ring.
Qed.

Lemma tick_conserves_time_witness :
  let w' := outWorld (update sampleRandom 2500 noKeys sampleWorld) in
  (inject_Z (totalMinutes (gameStateRef w')) * msPerGameMin
   + timeAccumulatorRef w'
   == inject_Z (totalMinutes (gameStateRef sampleWorld)) * msPerGameMin
      + timeAccumulatorRef sampleWorld + timeDelta 2500 noKeys)%Q.
Proof.
  apply (tick_conserves_time sampleRandom 2500 noKeys sampleWorld).
  - reflexivity.
  - vm_compute. discriminate.
  - vm_compute. discriminate.
Defined.

(** ** Hunger *)

Lemma Qmax_drop (h c : Q) :
  (0 <= h)%Q -> (0 <= c)%Q -> (0 <= Qmax 0 (h - c) <= h)%Q.
Proof.
  intros Hh Hc. split; [apply Q.le_max_l|]. apply Q.max_lub; lra.
Qed.

Lemma moveTick_hunger keys w :
  hunger (playerRef (outWorld (moveTick keys w))) = hunger (playerRef w).
Proof.
  unfold moveTick.
  destruct (getTileZ _ _ _) as [currentTile|]; [|reflexivity].
  destruct (isMoving (playerRef w)).
  - match goal with |- context [if ?c then _ else _] => destruct c end;
      reflexivity.
  - destruct (negb _); [|reflexivity].
    destruct (moveIntent keys) as [d|]; [|reflexivity].
    destruct (nextPos d _) as [nextX nextY].
    destruct (inBoundsQ _ _); [|reflexivity].
    destruct (getTileQ _ _ _) as [targetTile|]; [|reflexivity].
    destruct (isSolid targetTile); reflexivity.
Qed.

Lemma timeTick_hunger random dt w :
  (0 <= hunger (playerRef w))%Q ->
  (0 <= hunger (playerRef (outWorld (timeTick random dt w)))
   <= hunger (playerRef w))%Q.
Proof.
  intros Hh. unfold timeTick.
  destruct (Qle_bool msPerGameMin _); [|cbn; lra].
  match goal with |- context [advanceClock ?a] =>
    destruct (advanceClock_frame a) as (_ & Hp & _);
    generalize dependent (advanceClock a); intros u Hp
  end.
  cbn [playerRef setTimeAccumulator] in Hp.
  assert (0 <= hunger (playerRef (outWorld (minuteBoundary u)))
          <= hunger (playerRef w))%Q as Hmin.
  { unfold minuteBoundary. destruct (Z.rem _ 20 =? 0).
    - rewrite checkRegrowth_player. cbn. rewrite Hp.
      apply Qmax_drop; lra.
    - cbn. rewrite Hp. lra. }
  destruct (minuteBoundary u) as [v|v]; cbn [bind outWorld] in *;
    [|exact Hmin].
  rewrite dayRollover_player. exact Hmin.
Qed.

(** X16: a tick never feeds the player.  With hunger at 0 or above, a
    tick ends with hunger between 0 and what it was, whatever time has
    passed and whatever keys are held: only eating raises it. *)
Theorem tick_never_raises_hunger (random : nat -> Q) (deltaTime : Q)
  (keys : Keys) (w : World) :
  (0 <= hunger (playerRef w))%Q ->
  (0 <= hunger (playerRef (outWorld (update random deltaTime keys w)))
   <= hunger (playerRef w))%Q.
Proof.
  intros Hh. unfold update.
  destruct (showCrafting w); [cbn; lra|].
  assert (0 <= hunger (playerRef
                         (regenTick deltaTime
                            (restTick keys (saveTick deltaTime w))))
          <= hunger (playerRef w))%Q as Hbefore.
  { unfold regenTick, restTick. cbn.
    rewrite !saveTick_player.
    destruct (Qle_bool 100 _); cbn; rewrite ?saveTick_player; [|lra].
    destruct (keys "r" || keys "R"); cbn.
    - destruct (Qltb _ 100); cbn; rewrite ?saveTick_player;
        [apply Qmax_drop; lra | lra].
    - destruct (_ && _); cbn; rewrite ?saveTick_player; lra. }
  generalize dependent (regenTick deltaTime
                          (restTick keys (saveTick deltaTime w))).
  intros w1 Hbefore.
  pose proof (timeTick_hunger random deltaTime w1 (proj1 Hbefore)) as Htime.
  destruct (timeTick random deltaTime w1) as [v|v]; cbn [bind outWorld] in *.
  - rewrite moveTick_hunger. lra.
  - lra.
Qed.

Lemma tick_never_raises_hunger_witness :
  (0 <= hunger (playerRef
                  (outWorld (update sampleRandom 100 (holding "r")
                               beforeBoundary)))
   <= hunger (playerRef beforeBoundary))%Q.
Proof.
  apply (tick_never_raises_hunger sampleRandom 100 (holding "r")
           beforeBoundary).
  vm_compute. discriminate.
Defined.

(** ** Chopping and regrowth *)

(** X17: a chopped tree grows back as it was.  With energy left, not
    resting, an axe equipped and a tree (without a stale timestamp) on the
    faced tile of a well-formed grid, at a time [totalMinutes] other than
    0: the Interact intent turns the tile into a stump stamped with that
    time, and a regrowth sweep run on the resulting grid at any time from
    [REGROWTH_TIME] minutes later on gives back exactly the tile the
    player chopped. *)
Theorem chop_then_regrow (w : World) (tx ty : Z) (t : Tile) (later : Z) :
  wfMap (mapRef w) ->
  (0 < energy (playerRef w))%Q ->
  isResting (playerRef w) = false ->
  activeItem w = Some axe ->
  facedTile (playerRef w) = (tx, ty) ->
  inBoundsZ tx ty = true ->
  getTileZ (mapRef w) ty tx = Some t ->
  item t = Some tree ->
  stumpChoppedAt t = None ->
  totalMinutes (gameStateRef w) <> 0 ->
  totalMinutes (gameStateRef w) + REGROWTH_TIME <= later ->
  exists chopped regrown,
    handleInteraction w = Done chopped
    /\ getTileZ (mapRef chopped) ty tx
       = Some (setStumpChoppedAt (Some (totalMinutes (gameStateRef w)))
                 (setItem (Some tree_stump) t))
    /\ checkRegrowth (withGameState (setTotalMinutes later) chopped)
       = Done regrown
    /\ getTileZ (mapRef regrown) ty tx = Some t.
Proof.
  intros Hwf Henergy Hrest Haxe Hfaced Hb Ht Hitem Hstamp Hbase Hlater.
  assert (getTile (mapRef w) (Z.to_nat ty) (Z.to_nat tx) = Some t) as Ht'
    by (apply getTileZ_getTile; exact Ht).
  assert (forall m, getTileZ m ty tx = getTile m (Z.to_nat ty) (Z.to_nat tx))
    as HZ.
  { intros m. unfold getTileZ, inBoundsZ in *.
    apply andb_true_iff in Hb as [Hb _].
    apply andb_true_iff in Hb as [Hb Hy0].
    apply andb_true_iff in Hb as [Hx0 _].
    rewrite Hx0, Hy0. reflexivity. }
  unfold handleInteraction.
  apply Qle_bool_gt in Henergy. rewrite Henergy, Hrest, Hfaced, Hb, Ht, Hitem.
  cbn [orb]. rewrite decide_True by exact Haxe.
  match goal with |- exists c r, Done ?v = Done c /\ _ =>
    exists v;
    destruct (checkRegrowth_pointwise
                (withGameState (setTotalMinutes later) v))
      as (m' & Hrun & _ & Hget)
  end.
  { cbn. apply updTile_wf. exact Hwf. }
  eexists. split; [reflexivity|].
  split.
  { rewrite HZ. cbn [mapRef saveGame emit withPlayer withGameState withMap].
    rewrite getTile_updTile, decide_True by (split; reflexivity).
    rewrite Ht'. reflexivity. }
  split; [exact Hrun|].
  rewrite HZ. cbn [mapRef withMap]. rewrite Hget.
  cbn [mapRef saveGame emit withPlayer withGameState withMap].
  rewrite getTile_updTile, decide_True by (split; reflexivity).
  rewrite Ht'. cbn [fmap option_fmap option_map].
  f_equal. unfold regrowTile.
  cbn [item stumpChoppedAt setStumpChoppedAt setItem truthyNumber
         from_option Datatypes.id gameStateRef withGameState totalMinutes
         setTotalMinutes saveGame emit withPlayer withMap addItem
         setInventory].
  rewrite bool_decide_eq_true_2 by reflexivity.
  apply Z.eqb_neq in Hbase. rewrite Hbase. cbn [negb andb].
  rewrite (proj2 (Z.leb_le _ _)) by lia.
  destruct t as [ty0 it0 st0 ps0 va0]. cbn in *. subst. reflexivity.
Qed.

Lemma chop_then_regrow_witness :
  exists t chopped regrown,
    getTileZ (mapRef axeAndTree) 26 25 = Some t
    /\ handleInteraction axeAndTree = Done chopped
    /\ getTileZ (mapRef chopped) 26 25
       = Some (setStumpChoppedAt (Some (totalMinutes (gameStateRef axeAndTree)))
                 (setItem (Some tree_stump) t))
    /\ checkRegrowth (withGameState (setTotalMinutes 1920) chopped)
       = Done regrown
    /\ getTileZ (mapRef regrown) 26 25 = Some t.
Proof.
  pose (t := mkTile Grass (Some tree) None None (Some 0.5%Q)).
  destruct (chop_then_regrow axeAndTree 25 26 t 1920)
    as (chopped & regrown & H).
  - apply wfMapb_wf. vm_compute. reflexivity.
  - vm_compute. reflexivity.
  - reflexivity.
  - reflexivity.
  - vm_compute. reflexivity.
  - reflexivity.
  - vm_compute. reflexivity.
  - reflexivity.
  - reflexivity.
  - vm_compute. discriminate.
  - vm_compute. discriminate.
  - exists t, chopped, regrown. split; [vm_compute; reflexivity | exact H].
Defined.

(** ** The generated island *)

Lemma generateRow_lookup random n col row drawn i t :
  (generateRow random n col row drawn).1 !! i = Some t ->
  exists d, t = (generateTile random (col + Z.of_nat i) row d).1.
Proof.
  revert col drawn i. induction n as [|n IH]; intros col drawn i.
  - destruct i; discriminate.
  - cbn [generateRow].
    destruct (generateTile random col row drawn) as [t0 drawn'] eqn:Htile.
    specialize (IH (col + 1) drawn').
    destruct (generateRow random n (col + 1) row drawn') as [rest drawn''].
    cbn [fst] in *. destruct i as [|i]; simpl.
    + intros [= <-]. exists drawn.
      change (Z.of_nat 0) with 0. rewrite Z.add_0_r, Htile. reflexivity.
    + intros Hi. destruct (IH i Hi) as (d & ->). exists d.
      f_equal. f_equal. lia.
Qed.

Lemma generateRows_lookup random n row drawn r c t :
  getTile (generateRows random n row drawn).1 r c = Some t ->
  exists d, t = (generateTile random (Z.of_nat c) (row + Z.of_nat r) d).1.
Proof.
  revert row drawn r. induction n as [|n IH]; intros row drawn r.
  - unfold getTile. destruct r; discriminate.
  - cbn [generateRows].
    pose proof (generateRow_lookup random (Z.to_nat MAP_WIDTH) 0 row drawn c t)
      as Hrow.
    destruct (generateRow random (Z.to_nat MAP_WIDTH) 0 row drawn)
      as [line drawn'].
    specialize (IH (row + 1) drawn').
    destruct (generateRows random n (row + 1) drawn') as [rest drawn''].
    cbn [fst] in *. unfold getTile in *. destruct r as [|r]; simpl.
    + intros Hc. destruct (Hrow Hc) as (d & ->). exists d.
      f_equal. f_equal. lia.
    + intros Hc. destruct (IH r Hc) as (d & ->). exists d.
      f_equal. f_equal. lia.
Qed.

Lemma generateTile_facts random col row d :
  let t := (generateTile random col row d).1 in
  let distance2 := (col - 25) * (col - 25) + (row - 25) * (row - 25) in
  type t = (if distance2 <? 100 then Grass
            else if distance2 <? 225 then Sand
            else if distance2 <? 484 then ShallowWater
            else DeepWater)
  /\ (item t = None \/ (item t = Some tree /\ type t = Grass))
  /\ placedStructure t = None
  /\ stumpChoppedAt t = None.
Proof.
  unfold generateTile. cbn zeta.
  change (MAP_WIDTH / 2) with 25. change (MAP_HEIGHT / 2) with 25.
  change (10 * 10) with 100. change (15 * 15) with 225.
  change (22 * 22) with 484.
  destruct (_ <? 100).
  - cbn. destruct (Qltb _ _); auto.
  - destruct (_ <? 225); [cbn; auto|].
    destruct (_ <? 484); cbn; auto.
Qed.

(** X18: the generated island.  Whatever the samples, [generateMap]
    builds a grid of 50 rows of 50 tiles; the type of a tile is fixed by
    its squared distance from (25, 25) alone (grass below 100, sand below
    225, shallow water below 484, deep water from there on), so the whole
    rim of the grid is deep water and the start tile is grass; the only
    items are trees, and they stand on grass; no tile starts with a
    placed structure or a stump timestamp. *)
Theorem generateMap_island (random : nat -> Q) :
  let m := (generateMap random 0).1 in
  wfMap m
  /\ forall row col t,
      getTile m row col = Some t ->
      let distance2 :=
        (Z.of_nat col - 25) * (Z.of_nat col - 25)
        + (Z.of_nat row - 25) * (Z.of_nat row - 25) in
      type t = (if distance2 <? 100 then Grass
                else if distance2 <? 225 then Sand
                else if distance2 <? 484 then ShallowWater
                else DeepWater)
      /\ ((row = 0 \/ row = 49 \/ col = 0 \/ col = 49)%nat ->
          type t = DeepWater)
      /\ ((row = 25 /\ col = 25)%nat -> type t = Grass)
      /\ (item t = None \/ (item t = Some tree /\ type t = Grass))
      /\ placedStructure t = None
      /\ stumpChoppedAt t = None.
Proof.
  cbn zeta. split; [apply generateRows_wf|].
  intros row col t Ht.
  pose proof (getTile_Some_bounds _ _ _ _
                (generateRows_wf random (Z.to_nat MAP_HEIGHT) 0 0%nat) Ht)
    as [Hr Hc].
  apply generateRows_lookup in Ht as (d & ->).
  destruct (generateTile_facts random (Z.of_nat col) (0 + Z.of_nat row) d)
    as (Htype & Hitem & Hplaced & Hstump).
  replace (0 + Z.of_nat row) with (Z.of_nat row) in * by lia.
  splits; try assumption.
  - intros Hrim. rewrite Htype.
    pose proof (Z.square_nonneg (Z.of_nat col - 25)).
    pose proof (Z.square_nonneg (Z.of_nat row - 25)).
    assert (484 <= (Z.of_nat col - 25) * (Z.of_nat col - 25)
                   + (Z.of_nat row - 25) * (Z.of_nat row - 25)) as Hfar
      by (clear Htype Hitem Hplaced Hstump Hr Hc;
          destruct Hrim as [-> | [-> | [-> | ->]]]; simpl in *; lia).
    repeat match goal with
           | |- context [?a <? ?b] =>
               destruct (Z.ltb_spec a b); try lia
           end.
    reflexivity.
  - intros [-> ->]. rewrite Htype. reflexivity.
Qed.

(** ** Where the player can go *)

Lemma targetOnLand_kept w v :
  mapKept (mapRef w) (mapRef v) ->
  targetX (playerRef v) = targetX (playerRef w) ->
  targetY (playerRef v) = targetY (playerRef w) ->
  targetOnLand w -> targetOnLand v.
Proof.
  unfold targetOnLand, getTileQ. intros Hkept -> -> (t & Ht & Hland).
  destruct (arrayIndex (targetY (playerRef w))) as [r|]; [|discriminate].
  destruct (arrayIndex (targetX (playerRef w))) as [c|]; [|discriminate].
  specialize (Hkept r c). rewrite Ht in Hkept.
  destruct Hkept as (t' & Ht' & Htype & _). exists t'.
  split; [exact Ht'|]. rewrite Htype. exact Hland.
Qed.

Lemma update_targetOnLand random dt keys w :
  targetOnLand w -> targetOnLand (outWorld (update random dt keys w)).
Proof.
  apply (update_keeps random targetOnLand).
  - intros f v Hf Hv.
    apply (targetOnLand_kept v); [apply mapKept_refl | apply Hf | apply Hf
                                 | exact Hv].
  - intros v nextX nextY t _ Ht Hsolid. exists t. split; [exact Ht|].
    intros Hdeep. unfold isSolid in Hsolid. rewrite Hdeep in Hsolid.
    discriminate.
  - intros f v _ Hv.
    apply (targetOnLand_kept v); [apply mapKept_refl | reflexivity..
                                 | exact Hv].
  - intros a v Hv. exact Hv.
  - intros a v Hv. exact Hv.
  - intros a v Hv. exact Hv.
  - intros e v Hv. exact Hv.
  - intros n v Hv. exact Hv.
  - intros total row col v Hv.
    apply (targetOnLand_kept v); [|reflexivity..|exact Hv].
    apply mapKept_updTile. intros t _. apply regrowTile_ground.
  - intros row col tile it v Hv _ _ _ _ _.
    apply (targetOnLand_kept v); [|reflexivity..|exact Hv].
    apply mapKept_updTile. intros t _. unfold groundKept. simpl. auto.
Qed.

Lemma handler_target random a w :
  ~ isTick a ->
  targetX (playerRef (outWorld (step random a w))) = targetX (playerRef w)
  /\ targetY (playerRef (outWorld (step random a w))) = targetY (playerRef w)
  /\ x (playerRef (outWorld (step random a w))) = x (playerRef w)
  /\ y (playerRef (outWorld (step random a w))) = y (playerRef w).
Proof.
  intros Ha. destruct a; simpl.
  - destruct Ha. exact Logic.I.
  - unfold handleActionKey, handlePlaceItem, handleInteraction.
    destruct (isPlaceable _).
    + destruct (activeItem w) as [a|]; [|auto].
      destruct (negb _); [auto|].
      destruct (facedTile _) as [tx ty].
      destruct (inBoundsZ _ _); [|auto].
      destruct (getTileZ _ _ _) as [tile|]; [|auto].
      destruct (_ && _); [|auto].
      cbn [gameStateRef withMap]. destruct (_ =? 0); cbn; auto.
    + destruct (_ || _); [auto|].
      destruct (facedTile _) as [tx ty].
      destruct (inBoundsZ _ _); [|auto].
      destruct (getTileZ _ _ _) as [tile|]; [|auto].
      destruct (item tile) as [it|]; [|auto].
      destruct it; try case_decide; cbn; auto.
  - auto.
  - auto.
  - unfold handleUseItem.
    set (w1 := match activeItem w with
               | Some a => if decide (a = it) then w else setActiveItem None w
               | None => w
               end).
    assert (playerRef w1 = playerRef w) as Hp.
    { subst w1. destruct (activeItem w) as [a|]; [|auto].
      case_decide; auto. }
    clearbody w1.
    case_decide; [cbn; rewrite Hp; auto|].
    destruct (0 <? _); [|rewrite Hp; auto].
    destruct (ITEM_PROPS it) as [props|]; [|cbn; rewrite Hp; auto].
    destruct (edible props); cbn; rewrite ?Hp; auto.
  - unfold handleCraft. destruct (canCraftLoop _ _); cbn; auto.
Qed.

Lemma step_targetOnLand random a w :
  targetOnLand w -> targetOnLand (outWorld (step random a w)).
Proof.
  intros Hw. destruct a as [dt keys| | | |it|recipe].
  - apply update_targetOnLand. exact Hw.
  - apply (targetOnLand_kept w);
      [apply step_mapKept | apply handler_target; simpl; tauto..| exact Hw].
  - apply (targetOnLand_kept w);
      [apply step_mapKept | apply handler_target; simpl; tauto..| exact Hw].
  - apply (targetOnLand_kept w);
      [apply step_mapKept | apply handler_target; simpl; tauto..| exact Hw].
  - apply (targetOnLand_kept w);
      [apply step_mapKept | apply handler_target; simpl; tauto..| exact Hw].
  - apply (targetOnLand_kept w);
      [apply step_mapKept | apply handler_target; simpl; tauto..| exact Hw].
Qed.

Lemma session_targetOnLand random (actions : list Action) (w : World) :
  targetOnLand w -> targetOnLand (run random actions w).
Proof.
  revert w. induction actions as [|a rest IH]; intros w Hw; simpl.
  - exact Hw.
  - apply IH. apply step_targetOnLand. exact Hw.
Qed.

Lemma freshWorld_targetOnLand random : targetOnLand (freshWorld random).
Proof.
  unfold targetOnLand, freshWorld, generateMap.
  pose proof (generateRows_wf random (Z.to_nat MAP_HEIGHT) 0 0%nat) as Hwf.
  pose proof (fun t =>
                generateRows_lookup random (Z.to_nat MAP_HEIGHT) 0 0%nat
                  25 25 t) as Hlook.
  destruct (generateRows random (Z.to_nat MAP_HEIGHT) 0 0%nat) as [m drawn].
  cbn [fst mapRef playerRef] in *.
  destruct (wfMap_getTile m 25 25 Hwf) as [t Ht];
    [vm_compute; lia | vm_compute; lia |].
  exists t. split; [exact Ht|].
  destruct (Hlook t Ht) as (d & ->).
  destruct (generateTile_facts random (Z.of_nat 25) (0 + Z.of_nat 25) d)
    as (Htype & _).
  rewrite Htype. discriminate.
Qed.

Lemma firstStart_targetOnLand random : targetOnLand (firstStart random).
Proof.
  unfold firstStart. rewrite mountEffect_fresh.
  apply (triggerTide_keeps random targetOnLand).
  - intros e v Hv. exact Hv.
  - intros n v Hv. exact Hv.
  - intros row col tile it v Hv _ _ _ _ _.
    apply (targetOnLand_kept v); [|reflexivity..|exact Hv].
    apply mapKept_updTile. intros t _. unfold groundKept. simpl. auto.
  - apply freshWorld_targetOnLand.
Qed.

(** X19: the player never heads for deep water or off the grid.  From a
    first start, whatever the samples of [Math.random()], the ticks and the
    player's actions, the target of the player is a tile of the grid whose
    type is not deep water, and a player who is not moving is exactly on
    that tile. *)
Theorem player_stays_on_land (random : nat -> Q) (actions : list Action) :
  let w := run random actions (firstStart random) in
  let p := playerRef w in
  (exists t, getTileQ (mapRef w) (targetY p) (targetX p) = Some t
             /\ type t <> DeepWater)
  /\ (isMoving p = false -> x p == targetX p /\ y p == targetY p).
Proof.
  cbn zeta. split.
  - apply session_targetOnLand. apply firstStart_targetOnLand.
  - destruct (firstStart_wf random) as [_ Hwf].
    destruct (session_wf random actions (firstStart random) Hwf)
      as [(_ & _ & _ & Hidle) _].
    exact Hidle.
Qed.

(** ** A move completes *)

Lemma Math_sign_pos (q : Q) : (0 < q)%Q -> Math_sign q = 1%Q.
Proof.
  unfold Qlt, Math_sign. simpl. rewrite Z.mul_1_r. intros H.
  rewrite Z.sgn_pos by exact H. reflexivity.
Qed.

Lemma Math_sign_neg (q : Q) : (q < 0)%Q -> Math_sign q = (-1)%Q.
Proof.
  unfold Qlt, Math_sign. simpl. rewrite Z.mul_1_r. intros H.
  rewrite Z.sgn_neg by exact H. reflexivity.
Qed.

(** A step on one axis never overshoots: it ends on the target or a full
    step closer to it. *)
Lemma stepAxis_closer (pos target speed : Q) :
  (0 < speed)%Q ->
  (Qabs (target - stepAxis pos target speed) <= Qabs (target - pos))%Q
  /\ (Qeq_bool (stepAxis pos target speed) target = false ->
      (Qabs (target - stepAxis pos target speed)
       <= Qabs (target - pos) - speed)%Q).
Proof.
  intros Hs. unfold stepAxis. cbn zeta.
  destruct (Qltb speed (Qabs (target - pos))) eqn:Hfar.
  - apply Qltb_lt in Hfar.
    destruct (Qlt_le_dec 0 (target - pos)) as [Hpos|Hle].
    + rewrite (Math_sign_pos _ Hpos).
      rewrite (Qabs_pos (target - pos)) in * by lra.
      assert (target - (pos + 1 * speed) == target - pos - speed) as ->
        by ring.
      rewrite (Qabs_pos (target - pos - speed)) by lra.
      split; [lra | intros _; lra].
    + rewrite (Qabs_neg (target - pos)) in * by lra.
      assert (target - pos < 0)%Q as Hneg by lra.
      rewrite (Math_sign_neg _ Hneg).
      assert (target - (pos + -1 * speed) == target - pos + speed) as ->
        by ring.
      rewrite (Qabs_neg (target - pos + speed)) by lra.
      split; [lra | intros _; lra].
  - assert (target - target == 0) as -> by ring.
    change (Qabs 0) with 0%Q.
    pose proof (Qabs_nonneg (target - pos)) as Hnn.
    split; [exact Hnn|].
    intros Hne. assert (Qeq_bool target target = true) as Heq
      by (apply Qeq_bool_iff; reflexivity).
    congruence.
Qed.

Lemma beforeClock_showCrafting dt keys w :
  showCrafting (beforeClock dt keys w) = showCrafting w.
Proof.
  unfold beforeClock, regenTick, restTick, saveTick. cbn.
  destruct (Qltb 5000 _); cbn;
    (destruct (Qle_bool 100 _); cbn;
     [ destruct (keys "r" || keys "R"); cbn;
       [ destruct (Qltb _ 100); cbn
       | destruct (_ && _); cbn ]
     | ]);
    reflexivity.
Qed.

(** One tick of [moveTick] for a moving player: the player arrives, or
    the way left shrinks by the slowest speed at least. *)
Lemma moveTick_moving keys w :
  wfMap (mapRef w) -> isMoving (playerRef w) = true ->
  exists v,
    moveTick keys w = Done v
    /\ mapRef v = mapRef w
    /\ showCrafting v = showCrafting w
    /\ targetX (playerRef v) = targetX (playerRef w)
    /\ targetY (playerRef v) = targetY (playerRef w)
    /\ ((isMoving (playerRef v) = false
         /\ x (playerRef v) == targetX (playerRef w)
         /\ y (playerRef v) == targetY (playerRef w))
        \/ (isMoving (playerRef v) = true
            /\ (remaining (playerRef v)
                <= remaining (playerRef w) - 0.0075)%Q)).
Proof.
  intros Hm Hmov. unfold moveTick.
  destruct (getTileZ_safe (mapRef w) (Math_round (x (playerRef w)))
              (Math_round (y (playerRef w))) Hm) as [currentTile ->].
  rewrite Hmov.
  match goal with |- context [stepAxis _ _ ?s] => set (speed := s) end.
  assert (0.0075 <= speed)%Q as Hspeed.
  { subst speed. destruct (Qle_bool _ 0); destruct (bool_decide _);
      vm_compute; discriminate. }
  clearbody speed.
  assert (0 < speed)%Q as Hpos by lra.
  cbn [playerRef withPlayer x y setX setY targetX targetY].
  destruct (stepAxis_closer (x (playerRef w)) (targetX (playerRef w)) speed
              Hpos) as [Hx1 Hx2].
  destruct (stepAxis_closer (y (playerRef w)) (targetY (playerRef w)) speed
              Hpos) as [Hy1 Hy2].
  destruct (Qeq_bool (stepAxis (x (playerRef w)) _ _) _) eqn:Hx;
    [destruct (Qeq_bool (stepAxis (y (playerRef w)) _ _) _) eqn:Hy|];
    cbn [andb]; (eexists; split; [reflexivity|]);
    unfold remaining;
    cbn [playerRef withPlayer x y setX setY targetX targetY isMoving
         setEnergy setIsMoving mapRef showCrafting];
    splits; try reflexivity.
  - left. apply Qeq_bool_iff in Hx, Hy. splits; [reflexivity | exact Hx
                                                | exact Hy].
  - right. split; [exact Hmov|]. specialize (Hy2 eq_refl). lra.
  - right. split; [exact Hmov|]. specialize (Hx2 eq_refl). lra.
Qed.

Lemma update_moving random dt keys w :
  wfMap (mapRef w) -> showCrafting w = false ->
  isMoving (playerRef w) = true ->
  exists v,
    update random dt keys w = Done v
    /\ wfMap (mapRef v)
    /\ showCrafting v = false
    /\ targetX (playerRef v) = targetX (playerRef w)
    /\ targetY (playerRef v) = targetY (playerRef w)
    /\ ((isMoving (playerRef v) = false
         /\ x (playerRef v) == targetX (playerRef w)
         /\ y (playerRef v) == targetY (playerRef w))
        \/ (isMoving (playerRef v) = true
            /\ (remaining (playerRef v)
                <= remaining (playerRef w) - 0.0075)%Q)).
Proof.
  intros Hm Hopen Hmov. unfold update. rewrite Hopen.
  change (regenTick dt (restTick keys (saveTick dt w)))
    with (beforeClock dt keys w).
  pose proof (beforeClock_showCrafting dt keys w) as Hshow1.
  destruct (beforeClock_frame dt keys w)
    as (Hm1 & _ & _ & _ & Hx1 & Hy1 & Htx1 & Hty1 & Hmov1 & _).
  generalize dependent (beforeClock dt keys w).
  intros w1 Hshow1 Hm1 Hx1 Hy1 Htx1 Hty1 Hmov1.
  destruct (timeTick_done random dt w1)
    as (u & -> & Hwfu & _ & Hshowu & _ & Hxu & Hyu & Htxu & Htyu & Hmovu);
    [rewrite Hm1; exact Hm|].
  cbn [bind].
  destruct (moveTick_moving keys u Hwfu) as
    (v & -> & Hmv & Hshowv & Htxv & Htyv & Hcases); [congruence|].
  exists v. splits; try congruence.
  unfold remaining in *.
  rewrite Htxu, Htyu, Hxu, Hyu, Htx1, Hty1, Hx1, Hy1 in Hcases.
  exact Hcases.
Qed.

(** X20: a move completes.  Outside the crafting menu, on a full grid, a
    moving player reaches its target during the next ticks, whatever the
    frame times, the keys held and the samples: within [n] ticks when the
    way left (both axes added) is below [0.0075 * n], 0.0075 tiles a tick
    being the slowest speed.  At the tick of arrival the player is exactly
    on the target it had and no longer moving. *)
Theorem move_completes (random : nat -> Q) (actions : list Action)
  (w : World) :
  wfMap (mapRef w) ->
  showCrafting w = false ->
  isMoving (playerRef w) = true ->
  Forall isTick actions ->
  (remaining (playerRef w)
   < 0.0075 * inject_Z (Z.of_nat (length actions)))%Q ->
  exists k,
    (k <= length actions)%nat
    /\ isMoving (playerRef (run random (firstn k actions) w)) = false
    /\ x (playerRef (run random (firstn k actions) w))
       == targetX (playerRef w)
    /\ y (playerRef (run random (firstn k actions) w))
       == targetY (playerRef w).
Proof.
  revert w. induction actions as [|a rest IH];
    intros w Hm Hopen Hmov Hticks Hway.
  - exfalso. unfold remaining in Hway.
    change (inject_Z (Z.of_nat (length []))) with 0%Q in Hway.
    pose proof (Qabs_nonneg (targetX (playerRef w) - x (playerRef w))).
    pose proof (Qabs_nonneg (targetY (playerRef w) - y (playerRef w))).
    lra.
  - apply Forall_cons in Hticks as [Ha Hrest].
    destruct a as [dt keys| | | | |]; try (destruct Ha; fail).
    destruct (update_moving random dt keys w Hm Hopen Hmov)
      as (v & Hv & Hmv & Hshowv & Htx & Hty & [Harrived|[Hmovv Hcloser]]).
    + exists 1%nat. cbn [length firstn run step outWorld]. rewrite Hv.
      split; [lia | exact Harrived].
    + destruct (IH v Hmv Hshowv Hmovv Hrest) as (k & Hk & Hidle).
      { cbn [length] in Hway. rewrite Nat2Z.inj_succ in Hway.
        unfold Z.succ in Hway. rewrite inject_Z_plus in Hway.
        change (inject_Z 1) with 1%Q in Hway. lra. }
      exists (S k). cbn [length firstn run step]. rewrite Hv.
      cbn [outWorld]. rewrite <- Htx, <- Hty.
      split; [lia | exact Hidle].
Qed.

Lemma move_completes_witness :
  exists k,
    (k <= length (repeat (Tick 16 noKeys) 134))%nat
    /\ isMoving (playerRef (run sampleRandom
                              (firstn k (repeat (Tick 16 noKeys) 134))
                              walkingRight)) = false
    /\ x (playerRef (run sampleRandom
                       (firstn k (repeat (Tick 16 noKeys) 134))
                       walkingRight))
       == targetX (playerRef walkingRight)
    /\ y (playerRef (run sampleRandom
                       (firstn k (repeat (Tick 16 noKeys) 134))
                       walkingRight))
       == targetY (playerRef walkingRight).
Proof.
  apply (move_completes sampleRandom).
  - apply wfMapb_wf. vm_compute. reflexivity.
  - reflexivity.
  - reflexivity.
  - repeat constructor.
  - vm_compute. reflexivity.
Defined.

(** ** One tile at a time *)

Lemma Qabs_le_zero (q : Q) : (Qabs q <= 0)%Q -> q == 0.
Proof.
  apply Qabs_case; intros; lra.
Qed.

Lemma Qabs_zero (a b : Q) : a == b -> Qabs (b - a) == 0.
Proof.
  intros ->. assert (b - b == 0) as -> by ring. reflexivity.
Qed.

Lemma nearTarget_ext p p' :
  x p' = x p -> y p' = y p -> targetX p' = targetX p ->
  targetY p' = targetY p -> nearTarget p -> nearTarget p'.
Proof.
  unfold nearTarget, remaining. intros -> -> -> ->. auto.
Qed.

Lemma moveTick_near keys w :
  wfWorld w -> nearTarget (playerRef w) ->
  nearTarget (playerRef (outWorld (moveTick keys w))).
Proof.
  intros [Hm (_ & _ & Hidle)] Hnear. unfold moveTick.
  destruct (getTileZ_safe (mapRef w) (Math_round (x (playerRef w)))
              (Math_round (y (playerRef w))) Hm) as [currentTile ->].
  destruct (isMoving (playerRef w)) eqn:Hmov.
  - match goal with |- context [stepAxis _ _ ?s] => set (speed := s) end.
    assert (0 < speed)%Q as Hpos.
    { subst speed. destruct (Qle_bool _ 0); destruct (bool_decide _);
        vm_compute; reflexivity. }
    clearbody speed.
    destruct (stepAxis_closer (x (playerRef w)) (targetX (playerRef w))
                speed Hpos) as [Hx _].
    destruct (stepAxis_closer (y (playerRef w)) (targetY (playerRef w))
                speed Hpos) as [Hy _].
    assert (nearTarget
              (setY (stepAxis (y (playerRef w)) (targetY (playerRef w))
                       speed)
                 (setX (stepAxis (x (playerRef w)) (targetX (playerRef w))
                          speed) (playerRef w)))) as Hstep.
    { destruct Hnear as [Hway Haxis].
      unfold nearTarget, remaining in *.
      cbn [x y setX setY targetX targetY]. split; [lra|].
      destruct Haxis as [Hon|Hon]; [left|right].
      - apply Qabs_zero in Hon. symmetry.
        assert (targetX (playerRef w)
                - stepAxis (x (playerRef w)) (targetX (playerRef w)) speed
                == 0) as Hz by (apply Qabs_le_zero; lra).
        lra.
      - apply Qabs_zero in Hon. symmetry.
        assert (targetY (playerRef w)
                - stepAxis (y (playerRef w)) (targetY (playerRef w)) speed
                == 0) as Hz by (apply Qabs_le_zero; lra).
        lra. }
    match goal with |- context [if ?c then _ else _] => destruct c end;
      cbn [outWorld playerRef withPlayer];
      (eapply nearTarget_ext; [..|exact Hstep]; reflexivity).
  - destruct (Hidle eq_refl) as [Hx Hy].
    destruct (negb _); [|exact Hnear].
    destruct (moveIntent keys) as [d|]; [|exact Hnear].
    destruct (nextPos d (playerRef w)) as [nextX nextY] eqn:Hnext.
    assert (nearTarget (playerRef (withPlayer (setFacing d) w))) as Hturned
      by (eapply nearTarget_ext; [..|exact Hnear]; reflexivity).
    destruct (inBoundsQ _ _); [|exact Hturned].
    destruct (getTileQ _ _ _) as [targetTile|]; [|exact Hturned].
    destruct (isSolid targetTile); [exact Hturned|].
    unfold nearTarget, remaining.
    cbn [outWorld playerRef withPlayer x y targetX targetY setFacing
         setTargetX setTargetY setIsMoving].
    destruct d; simpl in Hnext; injection Hnext as <- <-.
    + assert (x (playerRef w) - x (playerRef w) == 0) as -> by ring.
      assert (y (playerRef w) - 1 - y (playerRef w) == -1) as -> by ring.
      split; [vm_compute; discriminate | left; reflexivity].
    + assert (x (playerRef w) - x (playerRef w) == 0) as -> by ring.
      assert (y (playerRef w) + 1 - y (playerRef w) == 1) as -> by ring.
      split; [vm_compute; discriminate | left; reflexivity].
    + assert (x (playerRef w) - 1 - x (playerRef w) == -1) as -> by ring.
      assert (y (playerRef w) - y (playerRef w) == 0) as -> by ring.
      split; [vm_compute; discriminate | right; reflexivity].
    + assert (x (playerRef w) + 1 - x (playerRef w) == 1) as -> by ring.
      assert (y (playerRef w) - y (playerRef w) == 0) as -> by ring.
      split; [vm_compute; discriminate | right; reflexivity].
Qed.

Lemma update_near random dt keys w :
  wfWorld w -> nearTarget (playerRef w) ->
  nearTarget (playerRef (outWorld (update random dt keys w))).
Proof.
  intros [Hm Hp] Hnear. unfold update.
  destruct (showCrafting w); [exact Hnear|].
  change (regenTick dt (restTick keys (saveTick dt w)))
    with (beforeClock dt keys w).
  destruct (beforeClock_frame dt keys w)
    as (Hm1 & _ & _ & _ & Hx1 & Hy1 & Htx1 & Hty1 & Hmov1 & _).
  generalize dependent (beforeClock dt keys w).
  intros w1 Hm1 Hx1 Hy1 Htx1 Hty1 Hmov1.
  destruct (timeTick_done random dt w1)
    as (v & -> & Hwfv & _ & _ & _ & Hxv & Hyv & Htxv & Htyv & Hmovv);
    [rewrite Hm1; exact Hm|].
  cbn [bind]. apply moveTick_near.
  - split; [exact Hwfv|]. eapply poseOK_ext; [..|exact Hp]; congruence.
  - eapply nearTarget_ext; [..|exact Hnear]; congruence.
Qed.

Lemma step_near random a w :
  wfWorld w -> nearTarget (playerRef w) ->
  nearTarget (playerRef (outWorld (step random a w))).
Proof.
  intros Hw Hnear. destruct a as [dt keys| | | |it|recipe].
  - apply update_near; assumption.
  - eapply nearTarget_ext; [..|exact Hnear];
      apply handler_target; simpl; tauto.
  - eapply nearTarget_ext; [..|exact Hnear];
      apply handler_target; simpl; tauto.
  - eapply nearTarget_ext; [..|exact Hnear];
      apply handler_target; simpl; tauto.
  - eapply nearTarget_ext; [..|exact Hnear];
      apply handler_target; simpl; tauto.
  - eapply nearTarget_ext; [..|exact Hnear];
      apply handler_target; simpl; tauto.
Qed.

Lemma session_near random (actions : list Action) (w : World) :
  wfWorld w -> nearTarget (playerRef w) ->
  nearTarget (playerRef (run random actions w)).
Proof.
  revert w. induction actions as [|a rest IH]; intros w Hw Hnear; simpl.
  - exact Hnear.
  - pose proof (step_near random a w Hw Hnear) as Hstep.
    destruct (step_wf random a w Hw) as (w' & Heq & Hw').
    rewrite Heq in *. apply IH; assumption.
Qed.

(** X21: one tile at a time, along one axis.  From a full grid with the
    player idle on its target, a tile of whole coordinates, after any
    session the player is at most one tile from its target (both axes
    added) and has one coordinate on it: no sequence of ticks and key
    presses makes the player cut a corner or aim further than the next
    tile. *)
Theorem one_tile_at_a_time (random : nat -> Q) (actions : list Action)
  (w : World) :
  wfMap (mapRef w) ->
  isWhole (targetX (playerRef w)) -> isWhole (targetY (playerRef w)) ->
  isMoving (playerRef w) = false ->
  x (playerRef w) == targetX (playerRef w) ->
  y (playerRef w) == targetY (playerRef w) ->
  let p := playerRef (run random actions w) in
  (Qabs (targetX p - x p) + Qabs (targetY p - y p) <= 1)%Q
  /\ (x p == targetX p \/ y p == targetY p).
Proof.
  intros Hm Htx Hty Hmov Hx Hy. cbn zeta.
  apply (session_near random actions w).
  - split; [exact Hm|]. unfold poseOK. splits; try assumption.
    intros _. split; assumption.
  - unfold nearTarget, remaining.
    rewrite (Qabs_zero _ _ Hx), (Qabs_zero _ _ Hy).
    split; [vm_compute; discriminate | left; exact Hx].
Qed.

Lemma one_tile_at_a_time_witness :
  let p := playerRef
             (run sampleRandom
                [Tick 16 (holding "d"); Tick 16 (holding "s"); PressAction;
                 Tick 16 (holding "w")]
                sampleIsland) in
  (Qabs (targetX p - x p) + Qabs (targetY p - y p) <= 1)%Q
  /\ (x p == targetX p \/ y p == targetY p).
Proof.
  apply (one_tile_at_a_time sampleRandom).
  - apply wfMapb_wf. vm_compute. reflexivity.
  - vm_compute. reflexivity.
  - vm_compute. reflexivity.
  - reflexivity.
  - vm_compute. reflexivity.
  - vm_compute. reflexivity.
Defined.

(** ** What the tiles hold *)

Lemma tilesOK_updTile m r c f :
  tilesOK m ->
  (forall t, getTile m r c = Some t -> tileOK t -> tileOK (f t)) ->
  tilesOK (updTile r c f m).
Proof.
  intros Hm Hf row col t. rewrite getTile_updTile.
  case_decide as Hd; [|apply Hm].
  destruct Hd as [-> ->].
  destruct (getTile m r c) as [t0|] eqn:Ht0; [|discriminate].
  intros [= <-]. apply Hf; [reflexivity|]. exact (Hm r c t0 Ht0).
Qed.

Lemma regrowTile_ok total t : tileOK t -> tileOK (regrowTile total t).
Proof.
  intros Hok. unfold regrowTile.
  destruct (bool_decide (item t = Some tree_stump)) eqn:Hstump;
    [|exact Hok].
  apply bool_decide_eq_true in Hstump.
  destruct (truthyNumber _); [|exact Hok].
  destruct (_ <=? _); [|exact Hok].
  destruct Hok as (Hitem & _ & Hplaced).
  unfold tileOK, itemBelongs in *. rewrite Hstump in *.
  cbn. splits; [exact Hitem | congruence |].
  intros s Hs. destruct (Hplaced s Hs) as [Hnone _]. discriminate.
Qed.

Lemma update_tilesOK random dt keys w :
  tilesOK (mapRef w) -> tilesOK (mapRef (outWorld (update random dt keys w))).
Proof.
  apply (update_keeps random (fun v => tilesOK (mapRef v)));
    try (intros; assumption).
  - intros total row col v Hv. cbn [mapRef withMap].
    apply tilesOK_updTile; [exact Hv|].
    intros t _. apply regrowTile_ok.
  - intros row col tile it v Hv Htile Hsand Hitem Hplaced Hit.
    cbn [mapRef withMap].
    apply tilesOK_updTile; [exact Hv|].
    intros t Ht (_ & Hstamp & Hstruct).
    rewrite Htile in Ht. injection Ht as <-.
    unfold tileOK, itemBelongs. cbn.
    splits.
    + destruct Hit as [-> | [-> | ->]]; exact Hsand.
    + intros Hs. apply Hstamp in Hs. congruence.
    + intros s Hs. congruence.
Qed.

Lemma handlePlaceItem_tilesOK w :
  tilesOK (mapRef w) -> tilesOK (mapRef (outWorld (handlePlaceItem w))).
Proof.
  intros Hw. unfold handlePlaceItem.
  destruct (activeItem w) as [a|]; [|exact Hw].
  destruct (negb (isPlaceable (Some a))) eqn:Hplaceable; [exact Hw|].
  apply negb_false_iff in Hplaceable.
  destruct (facedTile _) as [tx ty].
  destruct (inBoundsZ _ _); [|exact Hw].
  destruct (getTileZ _ _ _) as [tile|] eqn:Ht; [|exact Hw].
  destruct (_ && _) eqn:Hfree; [|exact Hw].
  apply getTileZ_getTile in Ht.
  apply andb_true_iff in Hfree as [Hfree _].
  apply andb_true_iff in Hfree as [Hland Hitem].
  apply negb_true_iff, bool_decide_eq_false in Hland.
  assert (tilesOK (updTile (Z.to_nat ty) (Z.to_nat tx)
                     (setPlacedStructure (Some a)) (mapRef w))) as Hplaced.
  { apply tilesOK_updTile; [exact Hw|].
    intros t Ht' (Hbelongs & Hstamp & _).
    rewrite Ht in Ht'. injection Ht' as <-.
    destruct (item tile) eqn:Hi; [discriminate|].
    unfold tileOK, itemBelongs. cbn. rewrite Hi.
    splits; [exact Logic.I | exact Hstamp |].
    intros s [= <-]. splits; [reflexivity | exact Hland | exact Hplaceable]. }
  simpl. destruct (_ =? 0); exact Hplaced.
Qed.

Lemma handleInteraction_tilesOK w :
  tilesOK (mapRef w) -> tilesOK (mapRef (outWorld (handleInteraction w))).
Proof.
  intros Hw. unfold handleInteraction.
  destruct (_ || _); [exact Hw|].
  destruct (facedTile _) as [tx ty].
  destruct (inBoundsZ _ _); [|exact Hw].
  destruct (getTileZ _ _ _) as [tile|] eqn:Ht; [|exact Hw].
  apply getTileZ_getTile in Ht.
  destruct (item tile) as [it|] eqn:Hi; [|exact Hw].
  assert (it <> tree_stump ->
          tilesOK (updTile (Z.to_nat ty) (Z.to_nat tx) (setItem None)
                     (mapRef w))) as Hpick.
  { intros Hit. apply tilesOK_updTile; [exact Hw|].
    intros t Ht' (_ & Hstamp & Hstruct).
    rewrite Ht in Ht'. injection Ht' as <-.
    unfold tileOK, itemBelongs. cbn.
    splits; [exact Logic.I | |].
    - intros Hs. apply Hstamp in Hs. congruence.
    - intros s Hs. destruct (Hstruct s Hs) as (_ & Hland & Hp).
      splits; [reflexivity | exact Hland | exact Hp]. }
  destruct it; try case_decide; try exact Hw;
    cbn [outWorld mapRef saveGame emit withPlayer withGameState withMap];
    try (apply Hpick; discriminate).
  apply tilesOK_updTile; [exact Hw|].
  intros t Ht' (Hbelongs & _ & Hstruct).
  rewrite Ht in Ht'. injection Ht' as <-.
  unfold tileOK, itemBelongs in *. rewrite Hi in *. cbn.
  splits; [exact Hbelongs | reflexivity |].
  intros s Hs. destruct (Hstruct s Hs) as [Hnone _]. discriminate.
Qed.

Lemma step_tilesOK random a w :
  tilesOK (mapRef w) -> tilesOK (mapRef (outWorld (step random a w))).
Proof.
  intros Hw. destruct a; simpl.
  - apply update_tilesOK. exact Hw.
  - unfold handleActionKey. destruct (isPlaceable _).
    + apply handlePlaceItem_tilesOK. exact Hw.
    + apply handleInteraction_tilesOK. exact Hw.
  - exact Hw.
  - exact Hw.
  - rewrite handleUseItem_map. exact Hw.
  - unfold handleCraft. destruct (canCraftLoop _ _); exact Hw.
Qed.

Lemma freshWorld_tilesOK random : tilesOK (mapRef (freshWorld random)).
Proof.
  unfold freshWorld, generateMap.
  pose proof (generateRows_lookup random (Z.to_nat MAP_HEIGHT) 0 0%nat)
    as Hlook.
  destruct (generateRows random (Z.to_nat MAP_HEIGHT) 0 0%nat) as [m drawn].
  cbn [fst mapRef] in *. intros row col t Ht.
  destruct (Hlook row col t Ht) as (d & ->).
  destruct (generateTile_facts random (Z.of_nat col) (0 + Z.of_nat row) d)
    as (_ & Hitem & Hplaced & Hstump).
  unfold tileOK, itemBelongs.
  splits.
  - destruct Hitem as [->|[-> Hgrass]]; [exact Logic.I | exact Hgrass].
  - intros Hs. congruence.
  - intros s Hs. congruence.
Qed.

Lemma firstStart_tilesOK random : tilesOK (mapRef (firstStart random)).
Proof.
  unfold firstStart. rewrite mountEffect_fresh.
  apply (triggerTide_keeps random (fun v => tilesOK (mapRef v)));
    try (intros; assumption); [|apply freshWorld_tilesOK].
  intros row col tile it v Hv Htile Hsand Hitem Hplaced Hit.
  cbn [mapRef withMap].
  apply tilesOK_updTile; [exact Hv|].
  intros t Ht (_ & Hstamp & Hstruct).
  rewrite Htile in Ht. injection Ht as <-.
  unfold tileOK, itemBelongs. cbn.
  splits.
  - destruct Hit as [-> | [-> | ->]]; exact Hsand.
  - intros Hs. apply Hstamp in Hs. congruence.
  - intros s Hs. congruence.
Qed.

(** X22: what the tiles hold.  From a first start, whatever the samples,
    the ticks and the player's actions, every tile of the grid is
    consistent: a tree or a stump lies on grass only, driftwood, metal and
    crates on sand only, and no other item lies on the grid (water is
    always empty); a stump timestamp is set under a stump only; a placed
    structure is a placeable item and stands on a tile that holds no item
    and is not deep water. *)
Theorem tiles_stay_consistent (random : nat -> Q) (actions : list Action)
  (row col : nat) (t : Tile) :
  getTile (mapRef (run random actions (firstStart random))) row col = Some t ->
  match item t with
  | None => True
  | Some tree | Some tree_stump => type t = Grass
  | Some driftwood | Some metal | Some crate => type t = Sand
  | Some _ => False
  end
  /\ (stumpChoppedAt t <> None -> item t = Some tree_stump)
  /\ (forall s, placedStructure t = Some s ->
                item t = None /\ type t <> DeepWater
                /\ isPlaceable (Some s) = true).
Proof.
  assert (tilesOK (mapRef (run random actions (firstStart random)))) as Hall.
  { generalize (firstStart_tilesOK random).
    generalize (firstStart random).
    induction actions as [|a rest IH]; intros w Hw; simpl.
    - exact Hw.
    - apply IH. apply step_tilesOK. exact Hw. }
  intros Ht. exact (Hall row col t Ht).
Qed.

Lemma tiles_stay_consistent_witness :
  let t := mkTile Sand (Some crate) None None (Some 0.5%Q) in
  match item t with
  | None => True
  | Some tree | Some tree_stump => type t = Grass
  | Some driftwood | Some metal | Some crate => type t = Sand
  | Some _ => False
  end
  /\ (stumpChoppedAt t <> None -> item t = Some tree_stump)
  /\ (forall s, placedStructure t = Some s ->
                item t = None /\ type t <> DeepWater
                /\ isPlaceable (Some s) = true).
Proof.
  apply (tiles_stay_consistent sampleRandom [Tick 16 (holding "d")] 25 37).
  vm_compute. reflexivity.
Defined.

(** ** The lists of the HUD and the hotbar keys *)

Lemma filter_fst_map (f : ItemType -> bool) (entries : list (ItemType * Z)) :
  List.filter f (map fst entries)
  = map fst (List.filter (fun e => f e.1) entries).
Proof.
  induction entries as [|e rest IH]; [reflexivity|].
  cbn [List.filter map]. destruct (f e.1); cbn [map]; rewrite IH; reflexivity.
Qed.

(** X23: every entry of the inventory is shown once.  The two lists of
    the HUD, tools and structures on one side and resources on the other,
    together hold every entry of the inventory exactly once, whatever the
    entries and their order: no item is left out and none is shown in
    both. *)
Theorem hud_lists_partition (entries : list (ItemType * Z)) :
  Permutation entries (toolsAndStructures entries ++ resources entries).
Proof.
  unfold toolsAndStructures, resources.
  induction entries as [|[it n] rest IH]; [reflexivity|].
  cbn [List.filter fst].
  destruct it; cbn [isToolOrStructure isResource ITEM_PROPS category app];
    first [ apply Permutation_skip; exact IH
          | apply Permutation_cons_app; exact IH ].
Qed.

(** X24: the hotbar keys follow the HUD.  With the inventory listed in the
    same order, the key of the digit [d] (1 to 9) uses the item of the
    [d]-th entry of the list of tools and structures the HUD shows, and
    does nothing when that list is shorter. *)
Theorem digit_key_follows_hud (digit : nat) (entries : list (ItemType * Z))
  (w : World) :
  (1 <= digit <= 9)%nat ->
  handleDigitKey digit (map fst entries) w
  = match toolsAndStructures entries !! (digit - 1)%nat with
    | Some (it, _) => handleUseItem it w
    | None => w
    end.
Proof.
  intros [Hlo Hhi]. unfold handleDigitKey, toolsAndStructures.
  apply Nat.leb_le in Hlo, Hhi. rewrite Hlo, Hhi. cbn [andb].
  rewrite filter_fst_map, list_lookup_fmap.
  destruct (List.filter _ entries !! _) as [[it n]|]; reflexivity.
Qed.

Lemma digit_key_follows_hud_witness :
  handleDigitKey 2 (map fst [(wood, 3); (axe, 1); (coconut, 2);
                             (wall_wood, 4)]) sampleIsland
  = match toolsAndStructures [(wood, 3); (axe, 1); (coconut, 2);
                              (wall_wood, 4)] !! (2 - 1)%nat with
    | Some (it, _) => handleUseItem it sampleIsland
    | None => sampleIsland
    end.
Proof.
  apply (digit_key_follows_hud 2). lia.
Defined.

(** ** Stumps and their timestamps *)

Lemma stampedMap_mono hi hi' m :
  hi <= hi' -> stampedMap hi m -> stampedMap hi' m.
Proof.
  intros Hle Hm row col t Ht Hstump.
  destruct (Hm row col t Ht Hstump) as (T & HT & Hrange).
  exists T. split; [exact HT | lia].
Qed.

Lemma stampedMap_updTile hi m r c f :
  stampedMap hi m ->
  (forall t, getTile m r c = Some t -> item (f t) = Some tree_stump ->
             exists T, stumpChoppedAt (f t) = Some T /\ 8 * 60 <= T <= hi) ->
  stampedMap hi (updTile r c f m).
Proof.
  intros Hm Hf row col t. rewrite getTile_updTile.
  case_decide as Hd; [|apply Hm].
  destruct Hd as [-> ->].
  destruct (getTile m r c) as [t0|] eqn:Ht0; [|discriminate].
  intros [= <-]. apply Hf. reflexivity.
Qed.

Lemma update_stampedMap random dt keys w hi :
  stampedMap hi (mapRef w) ->
  stampedMap hi (mapRef (outWorld (update random dt keys w))).
Proof.
  apply (update_keeps random (fun v => stampedMap hi (mapRef v)));
    try (intros; assumption).
  - intros total row col v Hv. cbn [mapRef withMap].
    apply stampedMap_updTile; [exact Hv|].
    intros t Ht. unfold regrowTile.
    destruct (_ && _); [|apply (Hv row col t Ht)].
    destruct (_ <=? _); [discriminate | apply (Hv row col t Ht)].
  - intros row col tile it v Hv _ _ _ _ Hit. cbn [mapRef withMap].
    apply stampedMap_updTile; [exact Hv|].
    intros t _ Hstump. simpl in Hstump.
    destruct Hit as [-> | [-> | ->]]; discriminate.
Qed.

Lemma handlePlaceItem_stampedMap w hi :
  stampedMap hi (mapRef w) ->
  stampedMap hi (mapRef (outWorld (handlePlaceItem w))).
Proof.
  intros Hw. unfold handlePlaceItem.
  destruct (activeItem w) as [a|]; [|exact Hw].
  destruct (negb _); [exact Hw|].
  destruct (facedTile _) as [tx ty].
  destruct (inBoundsZ _ _); [|exact Hw].
  destruct (getTileZ _ _ _) as [tile|]; [|exact Hw].
  destruct (_ && _); [|exact Hw].
  assert (stampedMap hi (updTile (Z.to_nat ty) (Z.to_nat tx)
                           (setPlacedStructure (Some a)) (mapRef w)))
    as Hplaced.
  { apply stampedMap_updTile; [exact Hw|].
    intros t Ht Hstump. exact (Hw _ _ t Ht Hstump). }
  simpl. destruct (_ =? 0); exact Hplaced.
Qed.

Lemma handleInteraction_stampedMap w hi :
  8 * 60 <= totalMinutes (gameStateRef w) <= hi ->
  stampedMap hi (mapRef w) ->
  stampedMap hi (mapRef (outWorld (handleInteraction w))).
Proof.
  intros Hnow Hw. unfold handleInteraction.
  destruct (_ || _); [exact Hw|].
  destruct (facedTile _) as [tx ty].
  destruct (inBoundsZ _ _); [|exact Hw].
  destruct (getTileZ _ _ _) as [tile|]; [|exact Hw].
  destruct (item tile) as [it|]; [|exact Hw].
  destruct it; try case_decide; try exact Hw;
    cbn [outWorld mapRef saveGame emit withPlayer withGameState withMap];
    (apply stampedMap_updTile; [exact Hw|]); intros t _ Hstump;
    try discriminate.
  eexists. split; [reflexivity | exact Hnow].
Qed.

Lemma step_stampedMap random a w hi :
  8 * 60 <= totalMinutes (gameStateRef w) <= hi ->
  stampedMap hi (mapRef w) ->
  stampedMap hi (mapRef (outWorld (step random a w))).
Proof.
  intros Hnow Hw. destruct a; simpl.
  - apply update_stampedMap. exact Hw.
  - unfold handleActionKey. destruct (isPlaceable _).
    + apply handlePlaceItem_stampedMap. exact Hw.
    + apply handleInteraction_stampedMap; assumption.
  - exact Hw.
  - exact Hw.
  - rewrite handleUseItem_map. exact Hw.
  - unfold handleCraft. destruct (canCraftLoop _ _); exact Hw.
Qed.

Lemma session_stamped random (actions : list Action) (w : World) :
  clockOK (gameStateRef w) ->
  8 * 60 <= totalMinutes (gameStateRef w) ->
  stampedMap (totalMinutes (gameStateRef w)) (mapRef w) ->
  stampedMap (totalMinutes (gameStateRef (run random actions w)))
    (mapRef (run random actions w)).
Proof.
  revert w. induction actions as [|a rest IH]; intros w Hclock Hnow Hw.
  - exact Hw.
  - cbn [run].
    destruct (step_clockOK random a w Hclock) as (Hclock' & _ & Hlater).
    apply IH; [exact Hclock' | lia |].
    apply step_stampedMap; [lia|].
    eapply stampedMap_mono; [exact Hlater | exact Hw].
Qed.

Lemma firstStart_stamped random :
  gameStateRef (firstStart random) = initialGameState
  /\ stampedMap (8 * 60) (mapRef (firstStart random)).
Proof.
  unfold firstStart. rewrite mountEffect_fresh. split.
  - destruct (triggerTide_clock random (freshWorld random)) as [-> _].
    unfold freshWorld. destruct (generateMap random 0). reflexivity.
  - apply (triggerTide_keeps random (fun v => stampedMap (8 * 60) (mapRef v)));
      try (intros; assumption).
    + intros row col tile it v Hv _ _ _ _ Hit. cbn [mapRef withMap].
      apply stampedMap_updTile; [exact Hv|].
      intros t _ Hstump. simpl in Hstump.
      destruct Hit as [-> | [-> | ->]]; discriminate.
    + unfold freshWorld, generateMap.
      pose proof (generateRows_lookup random (Z.to_nat MAP_HEIGHT) 0 0%nat)
        as Hlook.
      destruct (generateRows random (Z.to_nat MAP_HEIGHT) 0 0%nat)
        as [m drawn].
      cbn [fst mapRef] in *. intros row col t Ht Hstump.
      destruct (Hlook row col t Ht) as (d & ->).
      destruct (generateTile_facts random (Z.of_nat col) (0 + Z.of_nat row) d)
        as (_ & [Hnone|[Htree _]] & _); congruence.
Qed.

(** C8: a stump regrows on time.  In every state a session reaches from
    a first start, a tile that holds a stump holds the timestamp [T] of
    its chop, and [T] is a time of the game clock (from 480, the first
    minute of the game, to the current [totalMinutes]), never 0 or
    missing.  A regrowth sweep run on that state at the time [now]
    completes; from [T + 1440] on it turns the tile into a tree and clears
    the timestamp, changing nothing else of the tile; before, so at
    [T + 1439], it leaves the tile exactly as it is. *)
Theorem stump_regrows_on_time (random : nat -> Q) (actions : list Action)
  (row col : nat) (t : Tile) (now : Z) :
  let w := run random actions (firstStart random) in
  getTile (mapRef w) row col = Some t ->
  item t = Some tree_stump ->
  exists T w' t',
    stumpChoppedAt t = Some T
    /\ 8 * 60 <= T <= totalMinutes (gameStateRef w)
    /\ checkRegrowth (withGameState (setTotalMinutes now) w) = Done w'
    /\ getTile (mapRef w') row col = Some t'
    /\ (item t' = Some tree /\ stumpChoppedAt t' = None
        <-> T + REGROWTH_TIME <= now)
    /\ (T + REGROWTH_TIME <= now ->
        t' = setStumpChoppedAt None (setItem (Some tree) t))
    /\ (now < T + REGROWTH_TIME -> t' = t).
Proof.
  intros w Ht Hstump.
  destruct (firstStart_wf random) as [_ Hwf0].
  destruct (session_wf random actions (firstStart random) Hwf0)
    as [[Hwf _] _].
  fold w in Hwf.
  destruct (firstStart_stamped random) as [Hgame Hmap].
  assert (stampedMap (totalMinutes (gameStateRef w)) (mapRef w)) as Hall.
  { apply session_stamped.
    - rewrite Hgame. unfold clockOK. cbn. lia.
    - rewrite Hgame. cbn. lia.
    - rewrite Hgame. exact Hmap. }
  destruct (Hall row col t Ht Hstump) as (T & HT & Hrange).
  destruct (checkRegrowth_pointwise (withGameState (setTotalMinutes now) w))
    as (m' & Hrun & _ & Hget); [exact Hwf|].
  exists T. eexists. eexists.
  split; [exact HT|]. split; [exact Hrange|].
  split; [exact Hrun|].
  cbn [mapRef withMap withGameState emit gameStateRef totalMinutes
       setTotalMinutes] in *.
  rewrite Hget, Ht. cbn [fmap option_fmap option_map].
  split; [reflexivity|].
  unfold regrowTile. rewrite Hstump, HT.
  rewrite bool_decide_eq_true_2 by reflexivity.
  cbn [truthyNumber andb from_option Datatypes.id].
  assert ((T =? 0) = false) as -> by (apply Z.eqb_neq; lia).
  cbn [negb].
  destruct (REGROWTH_TIME <=? now - T) eqn:E.
  - apply Z.leb_le in E. cbn. splits.
    + split; [intros _; lia | intros _; split; reflexivity].
    + reflexivity.
    + lia.
  - apply Z.leb_gt in E. splits.
    + rewrite Hstump. split; [intros [[=] _] | lia].
    + lia.
    + reflexivity.
Qed.

Lemma stump_regrows_on_time_witness :
  let w := run sampleRandom firstChop (firstStart sampleRandom) in
  let stump := mkTile Grass (Some tree_stump) (Some 487) None (Some 0.5%Q) in
  exists T w' t',
    stumpChoppedAt stump = Some T
    /\ 8 * 60 <= T <= totalMinutes (gameStateRef w)
    /\ checkRegrowth (withGameState (setTotalMinutes (487 + 1439)) w)
       = Done w'
    /\ getTile (mapRef w') 24 34 = Some t'
    /\ (item t' = Some tree /\ stumpChoppedAt t' = None
        <-> T + REGROWTH_TIME <= 487 + 1439)
    /\ (T + REGROWTH_TIME <= 487 + 1439 ->
        t' = setStumpChoppedAt None (setItem (Some tree) stump))
    /\ (487 + 1439 < T + REGROWTH_TIME -> t' = stump).
Proof.
  intros w stump.
  apply (stump_regrows_on_time sampleRandom firstChop 24 34 stump
           (487 + 1439)).
  - vm_compute. reflexivity.
  - reflexivity.
Defined.
